(** * Research_Trends: grid navigation core

    A shallow embedding of the navigation code of the repository: the static
    A* search of [Game.py] (the same body is repeated in [Game2.py],
    [Game4.py] and [Game5.py]), the A* method of [Game7.py] and [Game8.py],
    the incremental planners of [game10.py] and [lrtastar.py], the
    open-list variant of [game11.py], and the collision check
    [Barrier.check_collision] of the last three.

    Python integers are unbounded, so coordinates and scores are [Z].  Cells
    are the tuples [(x, y)]; the maze is the list of rows [maze[y][x]];
    dictionaries keyed by cells are [gmap]s; [heapq] is a priority queue of
    tuples [(f, (x, y))] ordered as Python orders tuples. *)

From stdpp Require Import gmap list strings pretty.

Local Open Scope Z_scope.

(** ** Shared data model *)

Definition cell : Type := Z * Z.
Abbreviation grid := (list (list Z)).

(** Python list indexing [l[i]]: a negative index counts from the end, an
    index out of range raises [IndexError] (here [None]). *)
Definition py_get {A} (l : list A) (i : Z) : option A :=
  if bool_decide (0 ≤ i) then l !! Z.to_nat i
  else if bool_decide (0 ≤ Z.of_nat (length l) + i)
       then l !! Z.to_nat (Z.of_nat (length l) + i)
       else None.

(** [maze[c[1]][c[0]]] *)
Definition maze_at (maze : grid) (c : cell) : option Z :=
  row ← py_get maze c.2; py_get row c.1.

(** The four offsets, in the order every variant enumerates them:
    left, right, up, down. *)
Definition offsets : list (Z * Z) := [(-1, 0); (1, 0); (0, -1); (0, 1)].

Definition shift (c : cell) (d : Z * Z) : cell := (c.1 + d.1, c.2 + d.2).

(** [abs(a[0] - b[0]) + abs(a[1] - b[1])] *)
Definition manhattan (a b : cell) : Z := Z.abs (a.1 - b.1) + Z.abs (a.2 - b.2).

(** Exceptions the modelled code can raise, and the result of a call that is
    run with a step budget. *)
Inductive exn := IndexError | KeyError | ValueError.

Inductive result (A : Type) :=
  | Return (a : A)
  | Raise (e : exn)
  | Timeout.
Arguments Return {A} a.
Arguments Raise {A} e.
Arguments Timeout {A}.

(** ** [heapq] on tuples [(f, (x, y))]

    Python compares tuples lexicographically, so the order on entries is
    total and two entries that compare equal are the same value.  The entry
    [heappop] returns and the multiset it leaves behind therefore do not
    depend on the array layout of the heap; the queue is kept as a plain
    list and [heappop] extracts its least entry. *)
Definition entry : Type := Z * cell.

Definition entry_leb (a b : entry) : bool :=
  (a.1 <? b.1) ||
  ((a.1 =? b.1) &&
     ((a.2.1 <? b.2.1) || ((a.2.1 =? b.2.1) && (a.2.2 <=? b.2.2)))).

Definition heappush (h : list entry) (e : entry) : list entry := e :: h.

Fixpoint heappop (h : list entry) : option (entry * list entry) :=
  match h with
  | [] => None
  | e :: h' =>
      match heappop h' with
      | None => Some (e, [])
      | Some (m, r) => if entry_leb e m then Some (e, h') else Some (m, e :: r)
      end
  end.

(** ** [Game.py]: the static A* search *)
Module Game.

(** [GRID_SIZE = len(maze)] *)
Definition GRID_SIZE (maze : grid) : Z := Z.of_nat (length maze).

Definition heuristic (a b : cell) : Z := manhattan a b.

(** The locals of [astar]. *)
Record search := Search {
  open_set : list entry;
  came_from : gmap cell cell;
  g_score : gmap cell Z;
  f_score : gmap cell Z
}.

(** The four statements under [if neighbor not in g_score or ...];
    [f_score[neighbor]] is read back right after it is assigned. *)
Definition improve (goal current neighbor : cell) (tentative_g_score : Z)
    (s : search) : search :=
  let f := tentative_g_score + heuristic neighbor goal in
  {| came_from := <[neighbor := current]> (came_from s);
     g_score := <[neighbor := tentative_g_score]> (g_score s);
     f_score := <[neighbor := f]> (f_score s);
     open_set := heappush (open_set s) (f, neighbor) |}.

(** One iteration of [for dx, dy in [...]] for the popped cell [current]. *)
Definition relax (maze : grid) (goal current : cell) (s : search)
    (d : Z * Z) : exn + search :=
  let neighbor := shift current d in
  if bool_decide (0 ≤ neighbor.1 < GRID_SIZE maze) then
    if bool_decide (0 ≤ neighbor.2 < GRID_SIZE maze) then
      match maze_at maze neighbor with
      | None => inl IndexError
      | Some v =>
          if bool_decide (v = 0) then
            match g_score s !! current with
            | None => inl KeyError
            | Some gc =>
                let tentative_g_score := gc + 1 in
                let better :=
                  match g_score s !! neighbor with
                  | None => true
                  | Some gn => bool_decide (tentative_g_score < gn)
                  end in
                if better then
                  inr (improve goal current neighbor tentative_g_score s)
                else inr s
            end
          else inr s
      end
    else inr s
  else inr s.

Fixpoint expand (maze : grid) (goal current : cell) (ds : list (Z * Z))
    (s : search) : exn + search :=
  match ds with
  | [] => inr s
  | d :: ds' =>
      match relax maze goal current s d with
      | inl e => inl e
      | inr s' => expand maze goal current ds' s'
      end
  end.

(** [while current in came_from: path.append(current); current = came_from[current]] *)
Fixpoint reconstruct (fuel : nat) (came_from : gmap cell cell)
    (current : cell) (path : list cell) : option (list cell) :=
  match came_from !! current with
  | None => Some path
  | Some prev =>
      match fuel with
      | O => None
      | S fuel' => reconstruct fuel' came_from prev (path ++ [current])
      end
  end.

(** [while open_set: ...] *)
Fixpoint search_loop (fuel : nat) (maze : grid) (start goal : cell)
    (s : search) : result (list cell) :=
  match fuel with
  | O => Timeout
  | S fuel' =>
      match heappop (open_set s) with
      | None => Return []
      | Some ((_, current), rest) =>
          let s := {| open_set := rest; came_from := came_from s;
                      g_score := g_score s; f_score := f_score s |} in
          if bool_decide (current = goal) then
            match reconstruct (size (came_from s)) (came_from s) current [] with
            | None => Timeout
            | Some path => Return (reverse (path ++ [start]))
            end
          else
            match expand maze goal current offsets s with
            | inl e => Raise e
            | inr s' => search_loop fuel' maze start goal s'
            end
      end
  end.

Definition init (start goal : cell) : search :=
  {| open_set := heappush [] (0, start);
     came_from := ∅;
     g_score := {[ start := 0 ]};
     f_score := {[ start := heuristic start goal ]} |}.

(** Enough iterations of the [while] loop for any maze: every push lowers
    a score, and scores stay below the number of cells. *)
Definition budget (maze : grid) : nat :=
  let n := (length maze * length maze)%nat in (2 + n * S n)%nat.

Definition astar (maze : grid) (start goal : cell) : result (list cell) :=
  search_loop (budget maze) maze start goal (init start goal).

(** The module-level [maze] of [Game.py]. *)
Definition maze : grid :=
  [ [0; 0; 0; 1; 0; 0; 0; 0; 0; 0];
    [1; 1; 0; 1; 0; 1; 1; 1; 1; 0];
    [0; 0; 0; 1; 0; 1; 0; 0; 0; 0];
    [0; 1; 1; 1; 0; 1; 0; 1; 1; 0];
    [0; 0; 0; 0; 0; 1; 0; 0; 0; 0];
    [0; 1; 1; 1; 1; 1; 1; 1; 1; 0];
    [0; 0; 0; 1; 0; 0; 0; 0; 0; 0];
    [1; 1; 0; 1; 0; 1; 1; 1; 1; 0];
    [0; 0; 0; 0; 0; 1; 0; 0; 0; 0];
    [0; 1; 1; 1; 1; 1; 0; 1; 1; 0] ].

End Game.

(** ** [Game7.py] (and [Game8.py]): the A* method with a closed list *)
Module Game7.

(** The locals of [a_star]. *)
Record search := Search {
  open_list : list entry;
  closed_list : gset cell;
  came_from : gmap cell cell;
  g_score : gmap cell Z;
  f_score : gmap cell Z
}.

Definition heuristic (a b : cell) : Z := manhattan a b.

(** The body of [for neighbor in self.get_neighbors(current)]. *)
Definition relax (goal current : cell) (s : search) (neighbor : cell) :
    exn + search :=
  if bool_decide (neighbor ∈ closed_list s) then inr s
  else
    match g_score s !! current with
    | None => inl KeyError
    | Some gc =>
        let tentative_g_score := gc + 1 in
        let better :=
          match g_score s !! neighbor with
          | None => true
          | Some gn => bool_decide (tentative_g_score < gn)
          end in
        if better then
          let f := tentative_g_score + heuristic neighbor goal in
          inr {| came_from := <[neighbor := current]> (came_from s);
                 g_score := <[neighbor := tentative_g_score]> (g_score s);
                 f_score := <[neighbor := f]> (f_score s);
                 open_list := heappush (open_list s) (f, neighbor);
                 closed_list := closed_list s |}
        else inr s
    end.

Fixpoint expand (goal current : cell) (neighbors : list cell) (s : search) :
    exn + search :=
  match neighbors with
  | [] => inr s
  | n :: rest =>
      match relax goal current s n with
      | inl e => inl e
      | inr s' => expand goal current rest s'
      end
  end.

(** [while current in came_from: ...] *)
Fixpoint reconstruct (fuel : nat) (came_from : gmap cell cell)
    (current : cell) (path : list cell) : option (list cell) :=
  match came_from !! current with
  | None => Some path
  | Some prev =>
      match fuel with
      | O => None
      | S fuel' => reconstruct fuel' came_from prev (path ++ [current])
      end
  end.

(** The module constant [GRID_SIZE] (10 in [Game7.py], 20 in [Game8.py])
    and the module-level [maze], where [2] marks a blocked cell. *)
Section World.
Variable GRID_SIZE : Z.
Variable maze : grid.

Definition probe (pos : cell) (neighbors : list cell) (d : Z * Z) :
    exn + list cell :=
  let n := shift pos d in
  if bool_decide (0 ≤ n.1 < GRID_SIZE) then
    if bool_decide (0 ≤ n.2 < GRID_SIZE) then
      match maze_at maze n with
      | None => inl IndexError
      | Some v => if bool_decide (v ≠ 2) then inr (neighbors ++ [n]) else inr neighbors
      end
    else inr neighbors
  else inr neighbors.

Fixpoint probe_all (pos : cell) (neighbors : list cell) (ds : list (Z * Z)) :
    exn + list cell :=
  match ds with
  | [] => inr neighbors
  | d :: ds' =>
      match probe pos neighbors d with
      | inl e => inl e
      | inr neighbors' => probe_all pos neighbors' ds'
      end
  end.

(** [NPC.get_neighbors] *)
Definition get_neighbors (pos : cell) : exn + list cell :=
  probe_all pos [] offsets.

(** [while open_list: ...] *)
Fixpoint search_loop (fuel : nat) (goal : cell) (s : search) :
    result (list cell) :=
  match fuel with
  | O => Timeout
  | S fuel' =>
      match heappop (open_list s) with
      | None => Return []
      | Some ((_, current), rest) =>
          if bool_decide (current = goal) then
            match reconstruct (size (came_from s)) (came_from s) current [] with
            | None => Timeout
            | Some path => Return (reverse path)
            end
          else
            let s := {| open_list := rest;
                        closed_list := closed_list s ∪ {[current]};
                        came_from := came_from s; g_score := g_score s;
                        f_score := f_score s |} in
            match get_neighbors current with
            | inl e => Raise e
            | inr neighbors =>
                match expand goal current neighbors s with
                | inl e => Raise e
                | inr s' => search_loop fuel' goal s'
                end
            end
      end
  end.

Definition init (start goal : cell) : search :=
  {| open_list := heappush [] (heuristic start goal, start);
     closed_list := ∅;
     came_from := ∅;
     g_score := {[ start := 0 ]};
     f_score := {[ start := heuristic start goal ]} |}.

(** [NPC.a_star(start, goal)], run for at most [fuel] iterations of the
    [while] loop. *)
Definition a_star (fuel : nat) (start goal : cell) : result (list cell) :=
  search_loop fuel goal (init start goal).
End World.

End Game7.

(** All cells of a grid [w] wide and [h] high. *)
Definition grid_cells (w h : Z) : list cell :=
  x ← seqZ 0 w; y ← seqZ 0 h; [(x, y)].

(** ** Grids of the incremental planners *)

(** The maze has [h] rows of [w] cells. *)
Definition rect (w h : Z) (maze : grid) : Prop :=
  Z.of_nat (length maze) = h ∧ Forall (λ row, Z.of_nat (length row) = w) maze.

(** An Open cell: inside the grid with terrain [0]. *)
Definition is_open (w h : Z) (maze : grid) (c : cell) : Prop :=
  (0 ≤ c.1 < w ∧ 0 ≤ c.2 < h) ∧ maze_at maze c = Some 0.

#[global] Instance is_open_dec w h maze c : Decision (is_open w h maze c).
Proof. unfold is_open. apply _. Defined.

Definition open_cells (w h : Z) (maze : grid) : list cell :=
  filter (is_open w h maze) (grid_cells w h).

(** ** Python helpers used by the incremental planners *)

(** [min(l, key=key)]: the first element whose key is least; [None] on an
    empty list, where Python raises [ValueError]. *)
Definition py_min {A} (key : A → Z) (l : list A) : option A :=
  match l with
  | [] => None
  | x :: l' =>
      Some (foldl (λ best y, if bool_decide (key y < key best) then y else best) x l')
  end.

(** [str] of a tuple of two integers, as an f-string prints it. *)
Definition show_cell (c : cell) : string :=
  ("(" +:+ pretty c.1 +:+ ", " +:+ pretty c.2 +:+ ")")%string.

(** ** [game10.py]: incremental planner with learned cell costs *)
Module Game10.

Inductive NPCState := IDLE | MOVING | GOAL_REACHED.

Record NPC := mkNPC {
  position : cell;
  previous_position : option cell;
  goal : cell;
  path : list cell;
  visited : list cell;
  fsm : NPCState;
  cell_costs : gmap cell Z
}.

(** [NPC.__init__] *)
Definition new (start goal : cell) : NPC :=
  {| position := start; previous_position := None; goal := goal;
     path := [start]; visited := []; fsm := MOVING; cell_costs := ∅ |}.

(** [NPC.heuristic]; the second argument is always [self.goal]. *)
Definition heuristic (self : NPC) (a b : cell) : Z :=
  let base_heuristic := manhattan a b in
  let adjusted_cost := default 0 (cell_costs self !! a) in
  base_heuristic + adjusted_cost.

Definition msg_no_neighbors (current : cell) : string :=
  ("No valid neighbors for " +:+ show_cell current +:+ ". Backtracking...")%string.
Definition msg_revisiting (next_cell : cell) : string :=
  ("Revisiting " +:+ show_cell next_cell +:+ ". Backtracking...")%string.
Definition msg_stuck : string := "No path to backtrack. Stuck!".

(** The agent after [visited.append(current)]. *)
Definition noted (self : NPC) : NPC :=
  {| position := position self; previous_position := previous_position self;
     goal := goal self; path := path self;
     visited := visited self ++ [position self];
     fsm := fsm self; cell_costs := cell_costs self |}.

(** The agent after [self.path.pop(); self.position = self.path[-1]]. *)
Definition retreated (self : NPC) (path' : list cell) (p : cell) : NPC :=
  {| position := p; previous_position := previous_position self;
     goal := goal self; path := path'; visited := visited self;
     fsm := fsm self; cell_costs := cell_costs self |}.

(** The agent after [self.fsm = NPCState.GOAL_REACHED]. *)
Definition arrived (self : NPC) : NPC :=
  {| position := position self; previous_position := previous_position self;
     goal := goal self; path := path self; visited := visited self;
     fsm := GOAL_REACHED; cell_costs := cell_costs self |}.

(** The agent after the four statements under "Move to the chosen
    neighbor" and the cost update. *)
Definition moved (self : NPC) (next_cell : cell) : NPC :=
  {| previous_position := Some (position self);
     position := next_cell;
     goal := goal self;
     path := path self ++ [next_cell];
     visited := visited self;
     fsm := fsm self;
     cell_costs :=
       <[next_cell := default 0 (cell_costs self !! next_cell) + 1]> (cell_costs self) |}.

(** [NPC.backtrack]: the new state and what was printed. *)
Definition backtrack (self : NPC) : exn + NPC * list string :=
  if bool_decide (1 < length (path self))%nat then
    let path' := removelast (path self) in
    match py_get path' (-1) with
    | None => inl IndexError
    | Some p => inr (retreated self path' p, [])
    end
  else inr (self, [msg_stuck]).

(** The module constants [GRID_WIDTH], [GRID_HEIGHT] (both 20 in the file)
    and the module-level [maze], which [NPC.update] only reads. *)
Section World.
Variables GRID_WIDTH GRID_HEIGHT : Z.
Variable maze : grid.

(** The body of the [for dx, dy] loop of [get_neighbors]. *)
Definition probe (pos : cell) (neighbors : list cell) (d : Z * Z) :
    exn + list cell :=
  let n := shift pos d in
  if bool_decide (0 ≤ n.1 < GRID_WIDTH) then
    if bool_decide (0 ≤ n.2 < GRID_HEIGHT) then
      match maze_at maze n with
      | None => inl IndexError
      | Some v => if bool_decide (v = 0) then inr (neighbors ++ [n]) else inr neighbors
      end
    else inr neighbors
  else inr neighbors.

Fixpoint probe_all (pos : cell) (neighbors : list cell) (ds : list (Z * Z)) :
    exn + list cell :=
  match ds with
  | [] => inr neighbors
  | d :: ds' =>
      match probe pos neighbors d with
      | inl e => inl e
      | inr neighbors' => probe_all pos neighbors' ds'
      end
  end.

(** [NPC.get_neighbors] *)
Definition get_neighbors (pos : cell) : exn + list cell :=
  probe_all pos [] offsets.

(** [NPC.update(barriers)], where [barriers] is the list
    [barriers.barriers]. *)
Definition update (self : NPC) (barriers : list cell) : exn + NPC * list string :=
  match fsm self with
  | MOVING =>
      let current := position self in
      let self := noted self in
      if bool_decide (current = goal self) then inr (arrived self, [])
      else
        match get_neighbors current with
        | inl e => inl e
        | inr neighbors =>
            let neighbors := filter (λ n, n ∉ barriers) neighbors in
            match neighbors with
            | [] =>
                match backtrack self with
                | inl e => inl e
                | inr (self', out) => inr (self', msg_no_neighbors current :: out)
                end
            | _ :: _ =>
                match py_min (λ n, heuristic self n (goal self)) neighbors with
                | None => inl ValueError
                | Some next_cell =>
                    if bool_decide (next_cell ∈ visited self) then
                      match backtrack self with
                      | inl e => inl e
                      | inr (self', out) =>
                          inr (self', msg_revisiting next_cell :: out)
                      end
                    else inr (moved self next_cell, [])
                end
            end
        end
  | _ => inr (self, [])
  end.

(** Repeated calls of [update], one per tick; [sched k] is the barrier list
    at tick [k].  Returns the agent and what each tick printed, oldest
    first. *)
Fixpoint run (ticks : nat) (sched : nat → list cell) (self : NPC) :
    exn + NPC * list (list string) :=
  match ticks with
  | O => inr (self, [])
  | S k =>
      match run k sched self with
      | inl e => inl e
      | inr (self', log) =>
          match update self' (sched k) with
          | inl e => inl e
          | inr (self'', out) => inr (self'', log ++ [out])
          end
      end
  end.
(** *** Vocabulary for the properties of the planner *)

(** The open, in-bounds neighbours of [pos] that no barrier occupies, in
    the order of [offsets]. *)
Definition viable (pos : cell) (barriers : list cell) : list cell :=
  filter (λ n, n ∉ barriers)
    (filter (is_open GRID_WIDTH GRID_HEIGHT maze) (shift pos <$> offsets)).

(** Manhattan distance to the goal plus the learned cost, [CostMap.get(n, 0)]. *)
Definition cost (self : NPC) (n : cell) : Z :=
  manhattan n (goal self) + default 0 (cell_costs self !! n).

(** The tick printed the Stuck message. *)
Definition stuck (out : list string) : Prop := msg_stuck ∈ out.

(** Open cells the agent has not stood on yet, twice, plus the path length:
    drops at every tick that neither reaches the goal nor is stuck. *)
Definition effort (self : NPC) : nat :=
  2 * length (filter (λ c, c ∉ visited self ++ [position self])
                (open_cells GRID_WIDTH GRID_HEIGHT maze))
  + length (path self).

(** Why a tick backtracks: no viable neighbour, or the chosen one was
    visited before; [reason] is the line it prints. *)
Definition blocked (self : NPC) (barriers : list cell) (reason : string) : Prop :=
  (viable (position self) barriers = [] ∧ reason = msg_no_neighbors (position self)) ∨
  (∃ n, py_min (cost self) (viable (position self) barriers) = Some n ∧
        n ∈ visited self ∧ reason = msg_revisiting n).

(** The possible ticks of [update]: the state it leaves and what it
    prints. *)
Inductive tick (self : NPC) (barriers : list cell) : NPC → list string → Prop :=
  | tick_idle :
      fsm self ≠ MOVING → tick self barriers self []
  | tick_goal :
      fsm self = MOVING → position self = goal self →
      tick self barriers (arrived (noted self)) []
  | tick_move n :
      fsm self = MOVING → position self ≠ goal self →
      py_min (cost self) (viable (position self) barriers) = Some n →
      n ∉ visited self ++ [position self] →
      tick self barriers (moved (noted self) n) []
  | tick_back reason p :
      fsm self = MOVING → position self ≠ goal self →
      blocked (noted self) barriers reason →
      (1 < length (path self))%nat →
      last (removelast (path self)) = Some p →
      tick self barriers (retreated (noted self) (removelast (path self)) p) [reason]
  | tick_stuck reason :
      fsm self = MOVING → position self ≠ goal self →
      blocked (noted self) barriers reason →
      (length (path self) ≤ 1)%nat →
      tick self barriers (noted self) [reason; msg_stuck].
End World.

(** A Stuck outcome surfaced as a value: the tick prints nothing and leaves
    the agent in a state other than [MOVING] for the caller to inspect. *)
Definition stuck_as_value (self' : NPC) (out : list string) : Prop :=
  out = [] ∧ fsm self' ≠ MOVING.

(** One tick moved the agent at most one cell: it stayed, stepped to a
    4-neighbour, or went back to the previous element of its path. *)
Definition single_step (pos : cell) (path : list cell) (pos' : cell) : Prop :=
  pos' = pos ∨ (∃ d, d ∈ offsets ∧ pos' = shift pos d) ∨
  (∃ rest, path = rest ++ [pos'; pos]).

(** [Barrier.check_collision], on the list [self.barriers]. *)
Fixpoint check_collision (barriers : list cell) (npc_position : cell)
    (npc_previous_position : option cell) : bool :=
  match barriers with
  | [] => false
  | (x, y) :: rest =>
      if bool_decide ((x, y) = npc_position) then true
      else
        let barrier_previous_position := (x, y - 1) in
        if bool_decide (npc_position = barrier_previous_position) &&
           bool_decide (npc_previous_position = Some (x, y))
        then true
        else check_collision rest npc_position npc_previous_position
  end.

(** The maze the module builds: pavement [1] everywhere, road [0] in
    columns 10 to 12. *)
Definition road : grid :=
  replicate 20 (replicate 10 1 ++ replicate 3 0 ++ replicate 7 1).

(** An agent as [main] creates it, in the middle lane, and barriers on the
    three road cells around its start. *)
Definition road_agent : NPC := new (11, 19) (11, 0).
Definition boxing : list cell := [(11, 18); (10, 19); (12, 19)].

(** An agent at the same start that has learned a cost of 1 for the cell to
    its left and for the cell to its right, and a barrier on the cell above
    it: the two cells left to choose from both cost 21. *)
Definition returning_agent : NPC :=
  {| position := (11, 19); previous_position := None; goal := (11, 0);
     path := [(11, 19)]; visited := []; fsm := MOVING;
     cell_costs := {[ (10, 19) := 1; (12, 19) := 1 ]} |}.
Definition ahead : list cell := [(11, 18)].

(** The agent of [main] after one move up the middle lane, and barriers on
    the four cells around it. *)
Definition advanced_agent : NPC :=
  {| position := (11, 18); previous_position := Some (11, 19); goal := (11, 0);
     path := [(11, 19); (11, 18)]; visited := [(11, 19)]; fsm := MOVING;
     cell_costs := {[ (11, 18) := 1 ]} |}.
Definition caging : list cell := [(10, 18); (12, 18); (11, 17); (11, 19)].

End Game10.

(** ** [lrtastar.py]: the planner that stores heuristic values in the maze *)
Module Lrtastar.

Inductive NPCState := IDLE | MOVING | GOAL_REACHED.

Record NPC := mkNPC {
  position : cell;
  previous_position : option cell;
  goal : cell;
  path : list cell;
  visited : list cell;
  fsm : NPCState;
  speed : Z;
  frame_counter : Z
}.

(** [NPC.__init__] *)
Definition new (start goal : cell) : NPC :=
  {| position := start; previous_position := None; goal := goal;
     path := [start]; visited := []; fsm := MOVING; speed := 1;
     frame_counter := 0 |}.

Definition heuristic (a b : cell) : Z := manhattan a b.

Definition msg_no_neighbors (current : cell) : string :=
  ("No valid neighbors for " +:+ show_cell current +:+ ". Backtracking...")%string.
Definition msg_revisiting (next_cell : cell) : string :=
  ("Revisiting " +:+ show_cell next_cell +:+ ". Backtracking...")%string.
Definition msg_stuck : string := "No path to backtrack. Stuck!".

(** The agent after [visited.append(current)]. *)
Definition noted (self : NPC) : NPC :=
  {| position := position self; previous_position := previous_position self;
     goal := goal self; path := path self;
     visited := visited self ++ [position self];
     fsm := fsm self; speed := speed self; frame_counter := frame_counter self |}.

(** The agent after [self.path.pop(); self.position = self.path[-1]]. *)
Definition retreated (self : NPC) (path' : list cell) (p : cell) : NPC :=
  {| position := p; previous_position := previous_position self;
     goal := goal self; path := path'; visited := visited self;
     fsm := fsm self; speed := speed self; frame_counter := frame_counter self |}.

(** The agent after [self.fsm = NPCState.GOAL_REACHED]. *)
Definition arrived (self : NPC) : NPC :=
  {| position := position self; previous_position := previous_position self;
     goal := goal self; path := path self; visited := visited self;
     fsm := GOAL_REACHED; speed := speed self;
     frame_counter := frame_counter self |}.

(** The agent after the three statements under "Move to the chosen
    neighbor". *)
Definition moved (self : NPC) (next_cell : cell) : NPC :=
  {| previous_position := Some (position self);
     position := next_cell;
     goal := goal self;
     path := path self ++ [next_cell];
     visited := visited self;
     fsm := fsm self; speed := speed self;
     frame_counter := frame_counter self |}.

(** [NPC.backtrack] *)
Definition backtrack (self : NPC) : exn + NPC * list string :=
  if bool_decide (1 < length (path self))%nat then
    let path' := removelast (path self) in
    match py_get path' (-1) with
    | None => inl IndexError
    | Some p => inr (retreated self path' p, [])
    end
  else inr (self, [msg_stuck]).

(** Python item assignment [l[i] = v]. *)
Definition py_set {A} (l : list A) (i : Z) (v : A) : option (list A) :=
  if bool_decide (0 ≤ i) then
    if bool_decide (i < Z.of_nat (length l)) then Some (<[Z.to_nat i := v]> l) else None
  else if bool_decide (0 ≤ Z.of_nat (length l) + i)
       then Some (<[Z.to_nat (Z.of_nat (length l) + i) := v]> l)
       else None.

(** [maze[c[1]][c[0]] = v]; the rows are separate lists. *)
Definition maze_set (maze : grid) (c : cell) (v : Z) : option grid :=
  row ← py_get maze c.2;
  row' ← py_set row c.1 v;
  py_set maze c.2 row'.

(** The module constants [GRID_WIDTH], [GRID_HEIGHT] (3 and 20 in the
    file). *)
Section World.
Variables GRID_WIDTH GRID_HEIGHT : Z.

Definition probe (maze : grid) (pos : cell) (neighbors : list cell)
    (d : Z * Z) : exn + list cell :=
  let n := shift pos d in
  if bool_decide (0 ≤ n.1 < GRID_WIDTH) then
    if bool_decide (0 ≤ n.2 < GRID_HEIGHT) then
      match maze_at maze n with
      | None => inl IndexError
      | Some v => if bool_decide (v = 0) then inr (neighbors ++ [n]) else inr neighbors
      end
    else inr neighbors
  else inr neighbors.

Fixpoint probe_all (maze : grid) (pos : cell) (neighbors : list cell)
    (ds : list (Z * Z)) : exn + list cell :=
  match ds with
  | [] => inr neighbors
  | d :: ds' =>
      match probe maze pos neighbors d with
      | inl e => inl e
      | inr neighbors' => probe_all maze pos neighbors' ds'
      end
  end.

(** [NPC.get_neighbors] *)
Definition get_neighbors (maze : grid) (pos : cell) : exn + list cell :=
  probe_all maze pos [] offsets.

(** [NPC.update_heuristic]: returns the maze after the assignment. *)
Definition update_heuristic (maze : grid) (self : NPC)
    (current next_cell : cell) : exn + grid :=
  let current_h := heuristic current (goal self) in
  let next_h := heuristic next_cell (goal self) in
  match maze_set maze current (Z.min current_h next_h) with
  | None => inl IndexError
  | Some maze' => inr maze'
  end.

(** [NPC.update(barriers)]; the argument is never used.  The module-level
    [maze] is threaded through. *)
Definition update (maze : grid) (self : NPC) : exn + grid * NPC * list string :=
  match fsm self with
  | MOVING =>
      let current := position self in
      let self := noted self in
      if bool_decide (current = goal self) then inr (maze, arrived self, [])
      else
        match get_neighbors maze current with
        | inl e => inl e
        | inr neighbors =>
            match neighbors with
            | [] =>
                match backtrack self with
                | inl e => inl e
                | inr (self', out) => inr (maze, self', msg_no_neighbors current :: out)
                end
            | _ :: _ =>
                match py_min (λ n, heuristic n (goal self)) neighbors with
                | None => inl ValueError
                | Some next_cell =>
                    match update_heuristic maze self current next_cell with
                    | inl e => inl e
                    | inr maze' =>
                        if bool_decide (next_cell ∈ visited self) then
                          match backtrack self with
                          | inl e => inl e
                          | inr (self', out) =>
                              inr (maze', self', msg_revisiting next_cell :: out)
                          end
                        else inr (maze', moved self next_cell, [])
                    end
                end
            end
        end
  | _ => inr (maze, self, [])
  end.

(** Repeated calls of [update], one per tick, on the module-level maze that
    every call reads and writes. *)
Fixpoint run (ticks : nat) (maze : grid) (self : NPC) :
    exn + grid * NPC * list (list string) :=
  match ticks with
  | O => inr (maze, self, [])
  | S k =>
      match run k maze self with
      | inl e => inl e
      | inr (maze', self', log) =>
          match update maze' self' with
          | inl e => inl e
          | inr (maze'', self'', out) => inr (maze'', self'', log ++ [out])
          end
      end
  end.

(** The tick printed the Stuck message. *)
Definition stuck (out : list string) : Prop := msg_stuck ∈ out.

(** As [Game10.effort], counted on the cells that were Open in the maze
    [maze0] the episode began with. *)
Definition effort (maze0 : grid) (self : NPC) : nat :=
  2 * length (filter (λ c, c ∉ visited self ++ [position self])
                (open_cells GRID_WIDTH GRID_HEIGHT maze0))
  + length (path self).

(** What holds between two ticks: the agent stands inside the grid on the
    last cell of its path, and no cell it has not stood on was written. *)
Definition steady (maze0 maze : grid) (self : NPC) : Prop :=
  rect GRID_WIDTH GRID_HEIGHT maze ∧
  last (path self) = Some (position self) ∧
  (∀ c, c ∈ path self → 0 ≤ c.1 < GRID_WIDTH ∧ 0 ≤ c.2 < GRID_HEIGHT) ∧
  (∀ c, 0 ≤ c.1 < GRID_WIDTH → 0 ≤ c.2 < GRID_HEIGHT →
        c ∉ visited self ++ [position self] →
        maze_at maze c = maze_at maze0 c).
End World.

(** The maze the module builds: 20 rows of 3 open cells. *)
Definition lanes : grid := replicate 20 (replicate 3 0).

(** An agent as [main] creates it, in the middle lane, and a barrier list
    with one barrier on the cell above it. *)
Definition lane_agent : NPC := new (1, 19) (1, 0).
Definition oncoming : list cell := [(1, 18)].

(** An agent one row below the top whose goal is up and to the right: the
    cells to its right and above it are equally far from the goal. *)
Definition corner_agent : NPC := new (0, 1) (1, 0).

(** One lane of three cells with a wall on top, after an agent that began
    at the bottom has moved one cell up and left the value 1 behind. *)
Definition alley : grid := [ [1]; [0]; [1] ].
Definition alley_agent : NPC :=
  {| position := (0, 1); previous_position := Some (0, 2); goal := (0, 0);
     path := [(0, 2); (0, 1)]; visited := [(0, 2)]; fsm := MOVING; speed := 1;
     frame_counter := 0 |}.

End Lrtastar.

(** ** [game11.py]: the planner that keeps an open list *)
Module Game11.

(** [class NPCState] with the integer attributes 1, 2, 3. *)
Inductive NPCState := MOVING | GOAL_REACHED | BACKTRACKING.

Record NPC := mkNPC {
  position : cell;
  previous_position : option cell;
  goal : cell;
  path : list cell;
  visited : list cell;
  fsm : NPCState;
  cell_costs : gmap cell Z;
  open_list : list entry;
  closed_list : gset cell
}.

(** [NPC.__init__] *)
Definition new (start goal : cell) : NPC :=
  {| position := start; previous_position := None; goal := goal;
     path := [start]; visited := []; fsm := MOVING; cell_costs := ∅;
     open_list := []; closed_list := ∅ |}.

Definition heuristic (self : NPC) (a b : cell) : Z :=
  let base_heuristic := manhattan a b in
  let adjusted_cost := default 0 (cell_costs self !! a) in
  base_heuristic + adjusted_cost.

Definition msg_stuck : string := "No path to backtrack. Stuck!".

(** [NPC.backtrack] *)
Definition backtrack (self : NPC) : exn + NPC * list string :=
  if bool_decide (1 < length (path self))%nat then
    let path' := removelast (path self) in
    match py_get path' (-1) with
    | None => inl IndexError
    | Some p =>
        inr ({| position := p; previous_position := previous_position self;
                goal := goal self; path := path'; visited := visited self;
                fsm := fsm self; cell_costs := cell_costs self;
                open_list := open_list self; closed_list := closed_list self |}, [])
    end
  else inr (self, [msg_stuck]).

Definition GRID_WIDTH : Z := 20.
Definition GRID_HEIGHT : Z := 20.

Section World.
Variable maze : grid.

Definition probe (pos : cell) (neighbors : list cell) (d : Z * Z) :
    exn + list cell :=
  let n := shift pos d in
  if bool_decide (0 ≤ n.1 < GRID_WIDTH) then
    if bool_decide (0 ≤ n.2 < GRID_HEIGHT) then
      match maze_at maze n with
      | None => inl IndexError
      | Some v => if bool_decide (v = 0) then inr (neighbors ++ [n]) else inr neighbors
      end
    else inr neighbors
  else inr neighbors.

Fixpoint probe_all (pos : cell) (neighbors : list cell) (ds : list (Z * Z)) :
    exn + list cell :=
  match ds with
  | [] => inr neighbors
  | d :: ds' =>
      match probe pos neighbors d with
      | inl e => inl e
      | inr neighbors' => probe_all pos neighbors' ds'
      end
  end.

(** [NPC.get_neighbors] *)
Definition get_neighbors (pos : cell) : exn + list cell :=
  probe_all pos [] offsets.

(** The body of [for neighbor in neighbors]. *)
Definition consider (self : NPC) (neighbor : cell) : NPC :=
  if bool_decide (neighbor ∈ closed_list self) then self
  else
    let g_cost := default 0 (cell_costs self !! neighbor) in
    let h_cost := heuristic self neighbor (goal self) in
    let f_cost := g_cost + h_cost in
    {| open_list := heappush (open_list self) (f_cost, neighbor);
       path := path self ++ [neighbor];
       position := neighbor;
       cell_costs :=
         <[neighbor := default 0 (cell_costs self !! neighbor) + 1]> (cell_costs self);
       previous_position := previous_position self; goal := goal self;
       visited := visited self; fsm := fsm self;
       closed_list := closed_list self |}.

(** [NPC.update()] *)
Definition update (self : NPC) : exn + NPC * list string :=
  match fsm self with
  | MOVING =>
      let current := position self in
      let self := {| visited := visited self ++ [current];
                     position := position self;
                     previous_position := previous_position self;
                     goal := goal self; path := path self; fsm := fsm self;
                     cell_costs := cell_costs self;
                     open_list := open_list self;
                     closed_list := closed_list self |} in
      if bool_decide (current = goal self) then
        inr ({| fsm := GOAL_REACHED;
                visited := visited self; position := position self;
                previous_position := previous_position self;
                goal := goal self; path := path self;
                cell_costs := cell_costs self; open_list := open_list self;
                closed_list := closed_list self |}, [])
      else
        let open0 :=
          match open_list self with
          | [] => heappush (open_list self) (0, current)
          | _ => open_list self
          end in
        let searched :=
          match heappop open0 with
          | None =>
              inr {| open_list := open0;
                     visited := visited self; position := position self;
                     previous_position := previous_position self;
                     goal := goal self; path := path self; fsm := fsm self;
                     cell_costs := cell_costs self;
                     closed_list := closed_list self |}
          | Some ((_, current), rest) =>
              let self := {| open_list := rest;
                             closed_list := closed_list self ∪ {[current]};
                             visited := visited self; position := position self;
                             previous_position := previous_position self;
                             goal := goal self; path := path self; fsm := fsm self;
                             cell_costs := cell_costs self |} in
              match get_neighbors current with
              | inl e => inl e
              | inr neighbors => inr (foldl consider self neighbors)
              end
          end in
        match searched with
        | inl e => inl e
        | inr self =>
            match open_list self with
            | [] => backtrack self
            | _ => inr (self, [])
            end
        end
  | _ => inr (self, [])
  end.

Fixpoint run (ticks : nat) (self : NPC) : exn + NPC * list (list string) :=
  match ticks with
  | O => inr (self, [])
  | S k =>
      match run k self with
      | inl e => inl e
      | inr (self', log) =>
          match update self' with
          | inl e => inl e
          | inr (self'', out) => inr (self'', log ++ [out])
          end
      end
  end.
End World.

(** A maze with two walls, at cells [(1, 1)] and [(0, 2)]: a pocket below
    the start.  The module draws its walls at random; this is one outcome. *)
Definition pocket : grid :=
  <[2%nat := <[0%nat := 1]> (replicate 20 0)]>
    (<[1%nat := <[1%nat := 1]> (replicate 20 0)]> (replicate 20 (replicate 20 0))).

End Game11.

(** ** Graph of a maze, as [astar] explores it *)
Section Graph.
Variable maze : grid.

  (** Every row is as long as the maze has rows ([GRID_SIZE] is used for
      both axes). *)
Definition square : Prop := Forall (λ row, length row = length maze) maze.

Definition in_bounds (c : cell) : Prop :=
    0 ≤ c.1 < Game.GRID_SIZE maze ∧ 0 ≤ c.2 < Game.GRID_SIZE maze.


  (** An open cell: inside the grid with terrain [0]. *)
Definition free (c : cell) : Prop := in_bounds c ∧ maze_at maze c = Some 0.

  (** One move: to a 4-neighbour that is open. *)
Definition edge (a b : cell) : Prop := (∃ d, d ∈ offsets ∧ b = shift a d) ∧ free b.

  (** [route a p b]: the cells [p] lead from [a] (exclusive) to [b], one edge
      at a time; [length p] is the number of steps. *)
Fixpoint route (a : cell) (p : list cell) (b : cell) : Prop :=
    match p with
    | [] => a = b
    | c :: p' => edge a c ∧ route c p' b
    end.

Definition connected (a b : cell) : Prop := ∃ p, route a p b.

  (** [d] is the length of a shortest route, which is what a breadth-first
      search from [a] reports for [b]. *)
Definition shortest (a b : cell) (d : nat) : Prop :=
    (∃ p, route a p b ∧ length p = d) ∧ ∀ p, route a p b → (d ≤ length p)%nat.

  (** All cells inside the grid. *)
Definition cells : list cell :=
  grid_cells (Game.GRID_SIZE maze) (Game.GRID_SIZE maze).
End Graph.

#[global] Instance free_dec maze c : Decision (free maze c).
Proof. unfold free, in_bounds. apply _. Defined.

(** ** Breadth-first search, the reference for distances

    The repository has no breadth-first search of its own; the spec
    measures [astar] against "the true BFS shortest-path length on the same
    4-connected graph".  This reference search, written from those words,
    visits the graph level by level and reports the level at which the
    goal appears. *)
Definition open_neighbors (maze : grid) (c : cell) : list cell :=
  filter (free maze) (shift c <$> offsets).

Fixpoint bfs_loop (fuel : nat) (maze : grid) (goal : cell)
    (seen : gset cell) (frontier : list cell) (d : nat) : option nat :=
  if bool_decide (goal ∈ frontier) then Some d
  else
    match fuel with
    | O => None
    | S fuel' =>
        let next :=
          remove_dups (filter (λ n, n ∉ seen) (frontier ≫= open_neighbors maze)) in
        match next with
        | [] => None
        | _ => bfs_loop fuel' maze goal (seen ∪ list_to_set next) next (S d)
        end
    end.

Definition bfs (maze : grid) (start goal : cell) : option nat :=
  bfs_loop (S (length (cells maze))) maze goal {[start]} [start] 0.

(** Level [d] of the search from [start]: [seen] holds the cells within [d]
    steps, [frontier] those at exactly [d] steps. *)
Definition bfs_level (maze : grid) (start goal : cell) (d : nat)
    (seen : gset cell) (frontier : list cell) : Prop :=
  (∀ c, c ∈ seen ↔ ∃ p, route maze start p c ∧ (length p ≤ d)%nat) ∧
  (∀ c, c ∈ frontier ↔ shortest maze start c d) ∧
  (goal ∈ seen → goal ∈ frontier).

(** Number of moves of a path that lists every cell from the start on. *)
Definition steps (path : list cell) : nat := (length path - 1)%nat.

(** Scenario A: a 10 by 10 grid without walls. *)
Definition open10 : grid := replicate 10 (replicate 10 0).

(** What [astar] returns in Scenario A. *)
Definition scenario_a_path : list cell :=
  [(0, 0); (0, 1); (0, 2); (0, 3); (0, 4); (0, 5); (0, 6); (0, 7); (0, 8);
   (0, 9); (1, 9); (2, 9); (3, 9); (4, 9); (5, 9); (6, 9); (7, 9); (8, 9);
   (9, 9)].

(** Scenario B: a 3 by 3 grid whose middle column is a solid wall. *)
Definition walled3 : grid := [ [0; 1; 0]; [0; 1; 0]; [0; 1; 0] ].








(** ** Invariants of the search loop *)
Section SearchInvariant.
Variables (maze : grid) (start goal : cell).

  (** Larger than every score the search can assign. *)
Definition cap : Z := Z.of_nat (length maze * length maze) + 1.

Fixpoint weight (l : list cell) (g : gmap cell Z) : Z :=
    match l with
    | [] => 0
    | n :: l' => default cap (g !! n) + weight l' g
    end.

  (** Decreases at every iteration of the [while] loop. *)
Definition potential (s : Game.search) : Z :=
    Z.of_nat (length (Game.open_set s)) +
    weight (start :: cells maze) (Game.g_score s).

  (** [n] still has a queue entry no worse than its current score. *)
Definition pending (s : Game.search) (n : cell) (gn : Z) : Prop :=
    ∃ f, (f, n) ∈ Game.open_set s ∧ f ≤ gn + Game.heuristic n goal.

  (** The neighbours of [n] in the directions [ds] are within one step. *)
Definition covered (s : Game.search) (n : cell) (gn : Z)
      (ds : list (Z * Z)) : Prop :=
    ∀ d, d ∈ ds → free maze (shift n d) →
      ∃ gm, Game.g_score s !! shift n d = Some gm ∧ gm ≤ gn + 1.

Definition settled (s : Game.search) (n : cell) (gn : Z) : Prop :=
    n ≠ goal ∧ covered s n gn offsets.

Record wf (s : Game.search) : Prop := {
    wf_start_g : Game.g_score s !! start = Some 0;
    wf_start_p : Game.came_from s !! start = None;
    wf_parent : ∀ n p, Game.came_from s !! n = Some p →
      edge maze p n ∧
      ∃ gp gn, Game.g_score s !! p = Some gp ∧ Game.g_score s !! n = Some gn ∧
               gp + 1 ≤ gn;
    wf_score : ∀ n gn, Game.g_score s !! n = Some gn →
      0 ≤ gn ≤ Z.of_nat (size (Game.came_from s)) ∧
      (n = start ∨ is_Some (Game.came_from s !! n));
    wf_entry : ∀ f n, (f, n) ∈ Game.open_set s →
      ∃ gn, Game.g_score s !! n = Some gn ∧
            (n = start ∨ gn + Game.heuristic n goal ≤ f)
  }.

  (** Between two iterations of the [while] loop. *)
Definition inv (s : Game.search) : Prop :=
    wf s ∧
    ∀ n gn, Game.g_score s !! n = Some gn → pending s n gn ∨ settled s n gn.

  (** Inside the [for] loop over the neighbours of [c], after the
      directions [done]. *)
Definition mid (c : cell) (gc : Z) (done : list (Z * Z))
      (s : Game.search) : Prop :=
    wf s ∧
    (∀ n gn, Game.g_score s !! n = Some gn → n ≠ c →
       pending s n gn ∨ settled s n gn) ∧
    Game.g_score s !! c = Some gc ∧
    covered s c gc done.
(** What [astar] may hand back: nothing when the goal cannot be reached,
    otherwise a shortest route that lists the start first. *)
Definition astar_post (path : list cell) : Prop :=
  (path = [] ∧ ¬ connected maze start goal) ∨
  (∃ p, path = start :: p ∧ route maze start p goal ∧
        ∀ q, route maze start q goal → (length p ≤ length q)%nat).
End SearchInvariant.

(** Invariant of [a_star]: [start] never gets a predecessor.  It is closed
    by the first iteration, before which it is the only queued cell. *)
Definition rooted (start : cell) (s : Game7.search) : Prop :=
  Game7.came_from s !! start = None ∧
  (start ∈ Game7.closed_list s ∨ ∀ e, e ∈ Game7.open_list s → e.2 = start).

(** * Further code of the repository *)

(** ** [Game.py]: the agent that walks the planned path *)
Module GameNPC.

(** [class NPCState], three string constants. *)
Inductive NPCState := IDLE | MOVING | GOAL_REACHED.

Record NPC := mkNPC {
  position : cell;
  goal : cell;
  path : list cell;
  state : NPCState
}.

(** [NPC.__init__], on the module-level maze. *)
Definition new (maze : grid) (start goal : cell) : result NPC :=
  match Game.astar maze start goal with
  | Return path =>
      Return {| position := start; goal := goal; path := path;
                state := match path with [] => IDLE | _ :: _ => MOVING end |}
  | Raise e => Raise e
  | Timeout => Timeout
  end.

(** [NPC.update] *)
Definition update (self : NPC) : NPC :=
  match state self with
  | MOVING =>
      let self :=
        match path self with
        | next :: rest =>
            {| position := next; goal := goal self; path := rest;
               state := state self |}
        | [] => self
        end in
      match path self with
      | [] => {| position := position self; goal := goal self;
                 path := path self; state := GOAL_REACHED |}
      | _ :: _ => self
      end
  | _ => self
  end.

(** [ticks] calls of [update], as the main loop makes them. *)
Definition run (ticks : nat) (self : NPC) : NPC := Nat.iter ticks update self.

End GameNPC.

(** ** [Game5.py]: the agent with a movement cadence *)
Module Game5.

Inductive NPCState := IDLE | MOVING | GOAL_REACHED.

(** [astar] of [Game5.py]: the loop of [Game.astar], returning the path
    together with [len(path)]. *)
Definition astar (maze : grid) (start goal : cell) : result (list cell * Z) :=
  match Game.astar maze start goal with
  | Return path => Return (path, Z.of_nat (length path))
  | Raise e => Raise e
  | Timeout => Timeout
  end.

(** The [FSM] object is its one field [state]. *)
Record NPC := mkNPC {
  position : cell;
  goal : cell;
  path : list cell;
  path_length : Z;
  fsm : NPCState;
  speed : Z;
  frame_counter : Z;
  nodes_traveled : Z
}.

(** [NPC.__init__] *)
Definition new (maze : grid) (start goal : cell) (speed : Z) : result NPC :=
  match astar maze start goal with
  | Return (path, path_length) =>
      Return {| position := start; goal := goal; path := path;
                path_length := path_length;
                fsm := match path with [] => IDLE | _ :: _ => MOVING end;
                speed := speed; frame_counter := 0; nodes_traveled := 0 |}
  | Raise e => Raise e
  | Timeout => Timeout
  end.

(** [NPC.update] *)
Definition update (self : NPC) : NPC :=
  let frame_counter := frame_counter self + 1 in
  match fsm self with
  | MOVING =>
      if bool_decide (speed self ≤ frame_counter) then
        let '(position, path, nodes_traveled) :=
          match path self with
          | next :: rest => (next, rest, nodes_traveled self + 1)
          | [] => (position self, path self, nodes_traveled self)
          end in
        {| position := position; goal := goal self; path := path;
           path_length := path_length self;
           fsm := match path with [] => GOAL_REACHED | _ :: _ => fsm self end;
           speed := speed self; frame_counter := 0;
           nodes_traveled := nodes_traveled |}
      else
        {| position := position self; goal := goal self; path := path self;
           path_length := path_length self; fsm := fsm self;
           speed := speed self; frame_counter := frame_counter;
           nodes_traveled := nodes_traveled self |}
  | _ =>
      {| position := position self; goal := goal self; path := path self;
         path_length := path_length self; fsm := fsm self;
         speed := speed self; frame_counter := frame_counter;
         nodes_traveled := nodes_traveled self |}
  end.

(** [ticks] calls of [update], as the main loop makes them. *)
Definition run (ticks : nat) (self : NPC) : NPC := Nat.iter ticks update self.

End Game5.

(** ** [game10.py], [lrtastar.py]: the barriers

    [class Barrier] is the same in both modules but for the columns a
    barrier is drawn from: 10 to 12 in [game10.py], 0 to [GRID_WIDTH - 1]
    in [lrtastar.py] (whose [frame_counter] attribute is never read). *)
Module Barrier.

(** [random.randint(a, b)].  The generator is a sequence [draws] of
    integers and a count [i] of the draws made so far; a draw is reduced to
    the range, so every value of the range can come out.  Python raises
    [ValueError] on an empty range. *)
Definition randint (draws : nat → Z) (i : nat) (a b : Z) : exn + Z :=
  if bool_decide (a ≤ b) then inr (a + draws i `mod` (b - a + 1))
  else inl ValueError.

Record Barrier := mkBarrier {
  barriers : list cell;
  initial_spawned : bool
}.

(** [Barrier.__init__] *)
Definition new : Barrier := {| barriers := []; initial_spawned := false |}.

Section World.
Variables lane_lo lane_hi : Z.
Variable GRID_HEIGHT : Z.
Variable draws : nat → Z.

(** [for _ in range(n): self.barriers.append((randint(..), randint(..)))];
    the column is drawn before the row. *)
Fixpoint initial_spawn (n i : nat) (barriers : list cell) :
    exn + nat * list cell :=
  match n with
  | O => inr (i, barriers)
  | S n' =>
      match randint draws i lane_lo lane_hi with
      | inl e => inl e
      | inr x =>
          match randint draws (S i) 0 (GRID_HEIGHT - 1) with
          | inl e => inl e
          | inr y => initial_spawn n' (S (S i)) (barriers ++ [(x, y)])
          end
      end
  end.

(** The loop [for x, y in self.barriers] of [update].  [spawn_barrier]
    appends to the very list the loop walks, so the loop also visits the
    barrier it has just spawned: [todo] is what is left to visit.  The loop
    need not end (with one row every visit spawns again), hence the fuel. *)
Fixpoint sweep (fuel : nat) (maze : grid) (i : nat) (todo new_barriers : list cell) :
    result (grid * nat * list cell) :=
  match fuel with
  | O => Timeout
  | S fuel' =>
      match todo with
      | [] => Return (maze, i, new_barriers)
      | (x, y) :: rest =>
          match Lrtastar.maze_set maze (x, y) 0 with
          | None => Raise IndexError
          | Some maze' =>
              if bool_decide (y + 1 < GRID_HEIGHT) then
                sweep fuel' maze' i rest (new_barriers ++ [(x, y + 1)])
              else
                match randint draws i lane_lo lane_hi with
                | inl e => Raise e
                | inr x' => sweep fuel' maze' (S i) (rest ++ [(x', 0)]) new_barriers
                end
          end
      end
  end.

(** [Barrier.update]: the maze, the draws made and the barriers after the
    call. *)
Definition update (fuel : nat) (maze : grid) (i : nat) (self : Barrier) :
    result (grid * nat * Barrier) :=
  match (if initial_spawned self then inr (i, barriers self)
         else initial_spawn 4 i (barriers self)) with
  | inl e => Raise e
  | inr (i1, spawned) =>
      match sweep fuel maze i1 spawned [] with
      | Return (maze', i2, new_barriers) =>
          Return (maze', i2, {| barriers := new_barriers; initial_spawned := true |})
      | Raise e => Raise e
      | Timeout => Timeout
      end
  end.

(** [ticks] calls of [update], one after the other. *)
Fixpoint run (fuel ticks : nat) (maze : grid) (i : nat) (self : Barrier) :
    result (grid * nat * Barrier) :=
  match ticks with
  | O => Return (maze, i, self)
  | S k =>
      match run fuel k maze i self with
      | Return (maze', i', self') => update fuel maze' i' self'
      | r => r
      end
  end.

(** *** Vocabulary for the properties of the barriers *)

(** The barriers above the bottom row, one row further down. *)
Definition moved_down (bs : list cell) : list cell :=
  (λ c, (c.1, c.2 + 1)) <$> filter (λ c, c.2 + 1 < GRID_HEIGHT) bs.

(** The barriers in the bottom row. *)
Definition at_bottom (bs : list cell) : list cell :=
  filter (λ c, ¬ c.2 + 1 < GRID_HEIGHT) bs.

(** [n] barriers on row 1, in the columns of draws [i], [i + 1], ... *)
Definition respawned (i n : nat) : list cell :=
  (λ j, (lane_lo + draws j `mod` (lane_hi - lane_lo + 1), 1)) <$> seq i n.

(** Visits the loop makes: one for each barrier and one more for each
    barrier in the bottom row. *)
Definition visits (bs : list cell) : nat := length bs + length (at_bottom bs).
End World.

(** Two barriers on the road of [game10.py], the first in the bottom row. *)
Definition convoy : list cell := [(10, 19); (11, 5)].

End Barrier.

(** ** [game10.py]: [restart_game] *)
Module Game10Restart.

(** The maze [restart_game] builds: [1] everywhere, then [0] in columns 10
    to 12 of every row. *)
Definition fresh_maze (GRID_WIDTH GRID_HEIGHT : Z) : exn + grid :=
  foldl (λ acc c,
           match acc with
           | inl e => inl e
           | inr maze =>
               match Lrtastar.maze_set maze c 0 with
               | None => inl IndexError
               | Some maze' => inr maze'
               end
           end)
        (inr (replicate (Z.to_nat GRID_HEIGHT) (replicate (Z.to_nat GRID_WIDTH) 1)))
        (y ← seqZ 0 GRID_HEIGHT; x ← seqZ 10 3; [(x, y)]).

(** [restart_game(npc, barriers)]: the new module-level maze, the draws
    made, the agent and the barriers.  The agent's [cell_costs] is not
    among the attributes it assigns. *)
Definition restart_game (GRID_WIDTH GRID_HEIGHT : Z) (draws : nat → Z) (i : nat)
    (npc : Game10.NPC) (barriers : Barrier.Barrier) :
    exn + grid * nat * Game10.NPC * Barrier.Barrier :=
  match fresh_maze GRID_WIDTH GRID_HEIGHT with
  | inl e => inl e
  | inr maze =>
      match Barrier.randint draws i 10 12 with
      | inl e => inl e
      | inr x =>
          let position := (x, GRID_HEIGHT - 1) in
          match Barrier.randint draws (S i) 10 12 with
          | inl e => inl e
          | inr gx =>
              inr (maze, S (S i),
                   {| Game10.position := position;
                      Game10.previous_position := None;
                      Game10.goal := (gx, 0);
                      Game10.path := [position];
                      Game10.visited := [];
                      Game10.fsm := Game10.MOVING;
                      Game10.cell_costs := Game10.cell_costs npc |},
                   {| Barrier.barriers := []; Barrier.initial_spawned := false |})
          end
      end
  end.

End Game10Restart.

(** ** [game10.py]: the loop of [main]

    One turn of [while running], without the drawing and the event queue,
    which change none of the variables below; [running] stays true. *)
Module Game10Main.

Definition FPS : Z := 10.
Definition GRID_WIDTH : Z := 20.
Definition GRID_HEIGHT : Z := 20.

Definition msg_collision : string := "Collision detected! Restarting game...".
Definition msg_goal : string := "Goal reached! Restarting game...".

(** The locals of [main], the module-level [maze] and the number of random
    draws made so far. *)
Record world := mkWorld {
  frame_counter : Z;
  collision_count : Z;
  Success_count : Z;
  maze : grid;
  drawn : nat;
  npc : Game10.NPC;
  barriers : Barrier.Barrier
}.

Section Run.
Variable draws : nat → Z.
(** Bound on the turns of the loop of [Barrier.update]. *)
Variable fuel : nat.

(** The state when the loop is entered. *)
Definition start_world : exn + world :=
  match Barrier.randint draws 0 10 12 with
  | inl e => inl e
  | inr x =>
      match Barrier.randint draws 1 10 12 with
      | inl e => inl e
      | inr gx =>
          inr {| frame_counter := 0; collision_count := 0; Success_count := 0;
                 maze := Game10.road; drawn := 2;
                 npc := Game10.new (x, GRID_HEIGHT - 1) (gx, 0);
                 barriers := Barrier.new |}
      end
  end.

(** [if frame_counter % FPS == 0: barriers.update(); npc.update(barriers)] *)
Definition tick (frame_counter : Z) (w : world) :
    result (grid * nat * Barrier.Barrier * Game10.NPC * list string) :=
  if bool_decide (frame_counter `mod` FPS = 0) then
    match Barrier.update 10 12 GRID_HEIGHT draws fuel (maze w) (drawn w) (barriers w) with
    | Return (maze', i', barriers') =>
        match Game10.update GRID_WIDTH GRID_HEIGHT maze' (npc w)
                (Barrier.barriers barriers') with
        | inl e => Raise e
        | inr (npc', out) => Return (maze', i', barriers', npc', out)
        end
    | Raise e => Raise e
    | Timeout => Timeout
    end
  else Return (maze w, drawn w, barriers w, npc w, []).

(** The body of the loop: the world after it and what it printed. *)
Definition frame (w : world) : result (world * list string) :=
  let frame_counter := frame_counter w + 1 in
  match tick frame_counter w with
  | Raise e => Raise e
  | Timeout => Timeout
  | Return (maze1, i1, barriers1, npc1, out1) =>
      match
        (if Game10.check_collision (Barrier.barriers barriers1)
              (Game10.position npc1) (Game10.previous_position npc1)
         then
           match Game10Restart.restart_game GRID_WIDTH GRID_HEIGHT draws i1
                   npc1 barriers1 with
           | inl e => inl e
           | inr (maze', i', npc', barriers') =>
               inr (maze', i', npc', barriers', collision_count w + 1, [msg_collision])
           end
         else inr (maze1, i1, npc1, barriers1, collision_count w, []))
      with
      | inl e => Raise e
      | inr (maze2, i2, npc2, barriers2, collision_count, out2) =>
          match
            (if match Game10.fsm npc2 with Game10.GOAL_REACHED => true | _ => false end
             then
               match Game10Restart.restart_game GRID_WIDTH GRID_HEIGHT draws i2
                       npc2 barriers2 with
               | inl e => inl e
               | inr (maze', i', npc', barriers') =>
                   inr (maze', i', npc', barriers', Success_count w + 1, [msg_goal])
               end
             else inr (maze2, i2, npc2, barriers2, Success_count w, []))
          with
          | inl e => Raise e
          | inr (maze3, i3, npc3, barriers3, Success_count, out3) =>
              Return ({| frame_counter := frame_counter;
                         collision_count := collision_count;
                         Success_count := Success_count;
                         maze := maze3; drawn := i3; npc := npc3;
                         barriers := barriers3 |},
                      out1 ++ out2 ++ out3)
          end
      end
  end.

(** [n] turns of the loop. *)
Fixpoint frames (n : nat) (w : world) : result world :=
  match n with
  | O => Return w
  | S k =>
      match frames k w with
      | Return w' =>
          match frame w' with
          | Return (w'', _) => Return w''
          | Raise e => Raise e
          | Timeout => Timeout
          end
      | r => r
      end
  end.
End Run.

(** What holds between two turns of the loop. *)
Definition sound (w : world) : Prop :=
  maze w = Game10.road ∧
  Game10.fsm (npc w) = Game10.MOVING ∧
  last (Game10.path (npc w)) = Some (Game10.position (npc w)) ∧
  (∀ c, c ∈ Game10.path (npc w) → is_open GRID_WIDTH GRID_HEIGHT Game10.road c) ∧
  (∀ c, c ∈ Barrier.barriers (barriers w) → 10 ≤ c.1 ≤ 12 ∧ 1 ≤ c.2 < GRID_HEIGHT) ∧
  ((Barrier.initial_spawned (barriers w) = true ∧
    length (Barrier.barriers (barriers w)) = 4%nat) ∨
   (Barrier.initial_spawned (barriers w) = false ∧
    Barrier.barriers (barriers w) = [])) ∧
  Game10.check_collision (Barrier.barriers (barriers w))
    (Game10.position (npc w)) (Game10.previous_position (npc w)) = false ∧
  0 ≤ collision_count w ∧ 0 ≤ Success_count w ∧
  FPS * (collision_count w + Success_count w) ≤ frame_counter w.

End Game10Main.

(** ** [Game4.py]: the agent that plans again when its path is used up *)
Module Game4.

(** [class NPC], which has no state machine. *)
Record NPC := mkNPC {
  position : cell;
  goal : cell;
  path : list cell;
  speed : Z;
  frame_counter : Z
}.

(** [NPC.__init__]; [astar] has the body of [Game.py]. *)
Definition new (maze : grid) (start goal : cell) (speed : Z) : result NPC :=
  match Game.astar maze start goal with
  | Return path =>
      Return {| position := start; goal := goal; path := path; speed := speed;
                frame_counter := 0 |}
  | Raise e => Raise e
  | Timeout => Timeout
  end.

(** [get_random_goal]: [while True] with a draw in every turn, for at most
    [fuel] turns; returns the cell and the number of draws made. *)
Fixpoint get_random_goal (maze : grid) (draws : nat → Z) (fuel i : nat) :
    result (cell * nat) :=
  match fuel with
  | O => Timeout
  | S fuel' =>
      match Barrier.randint draws i 1 (Game.GRID_SIZE maze - 2) with
      | inl e => Raise e
      | inr x =>
          match maze_at maze (x, 0) with
          | None => Raise IndexError
          | Some v =>
              if bool_decide (v = 0) then Return ((x, 0), S i)
              else get_random_goal maze draws fuel' (S i)
          end
      end
  end.

(** [NPC.update]: the agent and the number of draws made. *)
Definition update (maze : grid) (draws : nat → Z) (fuel i : nat) (self : NPC) :
    result (NPC * nat) :=
  let self :=
    match path self with
    | next_position :: rest =>
        if bool_decide (speed self ≤ frame_counter self + 1) then
          {| position := next_position; path := rest; frame_counter := 0;
             goal := goal self; speed := speed self |}
        else
          {| frame_counter := frame_counter self + 1; position := position self;
             path := path self; goal := goal self; speed := speed self |}
    | [] =>
        {| frame_counter := frame_counter self + 1; position := position self;
           path := path self; goal := goal self; speed := speed self |}
    end in
  match path self with
  | [] =>
      match get_random_goal maze draws fuel i with
      | Return (new_goal, i') =>
          let position := goal self in
          match Game.astar maze position new_goal with
          | Return path =>
              Return ({| position := position; goal := new_goal; path := path;
                         speed := speed self; frame_counter := frame_counter self |},
                      i')
          | Raise e => Raise e
          | Timeout => Timeout
          end
      | Raise e => Raise e
      | Timeout => Timeout
      end
  | _ :: _ => Return (self, i)
  end.

End Game4.

(** ** [Game7.py], [Game8.py]: the agent that follows [a_star] *)
Module Game7NPC.

Inductive NPCState := IDLE | MOVING | GOAL_REACHED.

Record NPC := mkNPC {
  position : cell;
  goal : cell;
  path : list cell;
  fsm : NPCState;
  speed : Z;
  frame_counter : Z
}.

Section World.
Variable GRID_SIZE : Z.
Variable maze : grid.

(** The two nested loops of [validate_goal], over the cells in the order
    they are visited: [maze[j][i]] is read before [j == 0] is tested. *)
Fixpoint scan (cells : list cell) : exn + option cell :=
  match cells with
  | [] => inr None
  | (i, j) :: rest =>
      match maze_at maze (i, j) with
      | None => inl IndexError
      | Some v =>
          if bool_decide (v = 0) && bool_decide (j = 0) then inr (Some (i, j))
          else scan rest
      end
  end.

(** [NPC.validate_goal] *)
Definition validate_goal (goal : cell) : exn + cell :=
  match maze_at maze goal with
  | None => inl IndexError
  | Some v =>
      if bool_decide (v ≠ 0) then
        match scan (grid_cells GRID_SIZE GRID_SIZE) with
        | inl e => inl e
        | inr (Some c) => inr c
        | inr None => inr goal
        end
      else inr goal
  end.

(** [NPC.__init__]; [speed] is the constant the method assigns, 30 in
    [Game7.py] and 25 in [Game8.py]. *)
Definition new (fuel : nat) (speed : Z) (start goal : cell) : result NPC :=
  match validate_goal goal with
  | inl e => Raise e
  | inr goal =>
      match Game7.a_star GRID_SIZE maze fuel start goal with
      | Return path =>
          Return {| position := start; goal := goal; path := path; fsm := MOVING;
                    speed := speed; frame_counter := 0 |}
      | Raise e => Raise e
      | Timeout => Timeout
      end
  end.
End World.

(** [NPC.update] *)
Definition update (self : NPC) : NPC :=
  match fsm self, path self with
  | MOVING, next_position :: rest =>
      let frame_counter := frame_counter self + 1 in
      if bool_decide (speed self ≤ frame_counter) then
        {| frame_counter := 0; position := next_position; path := rest;
           fsm := match rest with [] => GOAL_REACHED | _ => fsm self end;
           goal := goal self; speed := speed self |}
      else
        {| frame_counter := frame_counter; position := position self;
           path := path self; fsm := fsm self; goal := goal self;
           speed := speed self |}
  | _, _ => self
  end.

(** [ticks] calls of [update]. *)
Definition run (ticks : nat) (self : NPC) : NPC := Nat.iter ticks update self.

End Game7NPC.

(** ** [Game6.py]: the agent that walks straight to its goal *)
Module Game6.

(** One turn of the loop of [calculate_path]: the cell after [(x, y)]. *)
Definition toward (goal : cell) (c : cell) : cell :=
  let '(x, y) := c in
  if bool_decide (x < goal.1) then (x + 1, y)
  else if bool_decide (x > goal.1) then (x - 1, y)
  else if bool_decide (y < goal.2) then (x, y + 1)
  else if bool_decide (y > goal.2) then (x, y - 1)
  else (x, y).

(** [while path[-1] != goal: ...], for at most [fuel] turns. *)
Fixpoint walk (fuel : nat) (goal : cell) (path : list cell) : result (list cell) :=
  match fuel with
  | O => Timeout
  | S fuel' =>
      match py_get path (-1) with
      | None => Raise IndexError
      | Some c =>
          if bool_decide (c ≠ goal) then walk fuel' goal (path ++ [toward goal c])
          else Return path
      end
  end.

(** [NPC.calculate_path(start, goal)] *)
Definition calculate_path (fuel : nat) (start goal : cell) : result (list cell) :=
  walk fuel goal [start].

(** A start in the bottom row and a goal in the top row, as [get_start] and
    [get_goal] can draw them on the module's maze. *)
Definition bottom_start : cell := (2, 9).
Definition top_goal : cell := (5, 0).

(** The module-level [maze] as the file writes it: road [0], barriers [1],
    blocked cells [2]. *)
Definition maze : grid :=
  [ [2; 2; 0; 0; 0; 0; 0; 0; 2; 2];
    [2; 2; 0; 1; 0; 0; 0; 0; 2; 2];
    [2; 2; 0; 0; 0; 0; 0; 0; 2; 2];
    [2; 2; 0; 0; 1; 0; 0; 0; 2; 2];
    [2; 2; 0; 0; 0; 0; 0; 0; 2; 2];
    [2; 2; 0; 0; 1; 0; 0; 0; 2; 2];
    [2; 2; 0; 0; 0; 0; 0; 0; 2; 2];
    [2; 2; 1; 0; 0; 0; 0; 0; 2; 2];
    [2; 2; 0; 0; 1; 0; 0; 0; 2; 2];
    [2; 2; 0; 0; 0; 0; 0; 0; 2; 2] ].

(** Another goal [get_goal] can draw: the straight path to it from
    [bottom_start] runs up column 4, where row 8 holds a barrier. *)
Definition barred_goal : cell := (4, 0).

Inductive NPCState := IDLE | MOVING | GOAL_REACHED.

(** What [NPC.update] can raise: the module's own [CollisionException], or
    an exception of Python. *)
Inductive error := CollisionException | Python (e : exn).

(** [class NPC]; [fsm] is the state of its [FSM] object. *)
Record NPC := mkNPC {
  position : cell;
  goal : cell;
  path : list cell;
  fsm : NPCState;
  speed : Z;
  frame_counter : Z
}.

(** [NPC.__init__], with the fuel of [calculate_path]. *)
Definition new (fuel : nat) (start goal : cell) (speed : Z) : result NPC :=
  match calculate_path fuel start goal with
  | Return path =>
      Return {| position := start; goal := goal; path := path;
                fsm := match path with [] => IDLE | _ => MOVING end;
                speed := speed; frame_counter := 0 |}
  | Raise e => Raise e
  | Timeout => Timeout
  end.

(** [NPC.update], reading the module-level [maze] as it is at that call. *)
Definition update (maze : grid) (self : NPC) : error + NPC :=
  let frame_counter := frame_counter self + 1 in
  match fsm self with
  | MOVING =>
      if bool_decide (speed self ≤ frame_counter) then
        match path self with
        | next_position :: rest =>
            match maze_at maze next_position with
            | None => inl (Python IndexError)
            | Some v =>
                if bool_decide (v = 1) then inl CollisionException
                else
                  inr {| position := next_position; path := rest;
                         fsm := match rest with [] => GOAL_REACHED | _ => MOVING end;
                         frame_counter := 0; goal := goal self; speed := speed self |}
            end
        | [] =>
            inr {| position := position self; path := []; fsm := GOAL_REACHED;
                   frame_counter := 0; goal := goal self; speed := speed self |}
        end
      else
        inr {| frame_counter := frame_counter; position := position self;
               path := path self; fsm := fsm self; goal := goal self;
               speed := speed self |}
  | _ =>
      inr {| frame_counter := frame_counter; position := position self;
             path := path self; fsm := fsm self; goal := goal self;
             speed := speed self |}
  end.

(** [ticks] calls of [update]; [mazes k] is the maze at call [k], which
    [MovingBarriers.update] may have changed since the call before. *)
Fixpoint run (mazes : nat → grid) (ticks : nat) (self : NPC) : error + NPC :=
  match ticks with
  | O => inr self
  | S k =>
      match run mazes k self with
      | inl e => inl e
      | inr self' => update (mazes k) self'
      end
  end.

(** The call of [update] that takes the [q]-th cell of the path, for an
    agent of speed [s]. *)
Definition step_call (s q : nat) : nat := q * s + (s - 1).

(** At its call the [q]-th cell [c] of the path is inside the maze and not
    a barrier. *)
Definition passable (mazes : nat → grid) (s q : nat) (c : cell) : Prop :=
  ∃ v, maze_at (mazes (step_call s q)) c = Some v ∧ v ≠ 1.

End Game6.

(** ** Vocabulary for the paths of the incremental planners *)

(** Consecutive cells of a path are 4-neighbours. *)
Fixpoint linked (l : list cell) : Prop :=
  match l with
  | a :: (b :: _) as rest => (∃ d, d ∈ offsets ∧ b = shift a d) ∧ linked rest
  | _ => True
  end.


(** What an episode of [game10.py] keeps true between ticks: the path is a
    duplicate-free chain of Open cells that ends under the agent, every
    cell of it has been stood on, and the learned costs mark exactly the
    cells the agent has moved onto. *)
Definition episode (w h : Z) (maze : grid) (start : cell)
    (self : Game10.NPC) : Prop :=
  last (Game10.path self) = Some (Game10.position self) ∧
  NoDup (Game10.path self) ∧
  linked (Game10.path self) ∧
  (∀ c, c ∈ Game10.path self → is_open w h maze c) ∧
  (∀ c, c ∈ Game10.path self →
        c ∈ Game10.visited self ++ [Game10.position self]) ∧
  start ∈ Game10.visited self ++ [Game10.position self] ∧
  (∀ c, Game10.cell_costs self !! c =
        if decide (c ≠ start ∧ c ∈ Game10.visited self ++ [Game10.position self])
        then Some 1 else None).

(** * Proofs *)

(** ** Priority queue *)

Lemma entry_leb_fst a b : entry_leb a b = true → a.1 ≤ b.1.
Proof.
  unfold entry_leb. intros H.
  apply orb_true_iff in H as [H|H]; [lia|].
  apply andb_true_iff in H as [H _]. lia.
Qed.

Lemma heappop_spec h m r :
  heappop h = Some (m, r) →
  m ∈ h ∧ (∀ e, e ∈ h → e = m ∨ e ∈ r) ∧ (∀ e, e ∈ r → e ∈ h) ∧
  (∀ e, e ∈ h → m.1 ≤ e.1) ∧ length h = S (length r).
Proof.
  revert m r. induction h as [|e h IH]; intros m r; simpl; [done|].
  destruct (heappop h) as [[m' r']|] eqn:Hpop.
  - destruct (IH _ _ eq_refl) as (Hin & Hsplit & Hsub & Hmin & Hlen).
    destruct (entry_leb e m') eqn:Hle; intros [= <- <-].
    + split_and!; [by left| |by right| |done].
      * intros x [->|Hx]%elem_of_cons; [by left|by right].
      * intros x [->|Hx]%elem_of_cons; [lia|].
        apply entry_leb_fst in Hle. specialize (Hmin _ Hx). lia.
    + split_and!; [by right| | | |simpl; lia].
      * intros x [->|Hx]%elem_of_cons; [right; by left|].
        destruct (Hsplit _ Hx); [by left|right; by right].
      * intros x [->|Hx]%elem_of_cons; [by left|right; by apply Hsub].
      * intros x [->|Hx]%elem_of_cons; [|by apply Hmin].
        unfold entry_leb in Hle. lia.
  - intros [= <- <-].
    assert (h = []) as ->.
    { destruct h as [|e' h]; [done|]. simpl in Hpop.
      destruct (heappop h) as [[m' r']|]; [|done].
      by destruct (entry_leb e' m'). }
    split_and!; [by left| | |by intros x ->%list_elem_of_singleton|done].
    + intros x Hx. by left; apply list_elem_of_singleton.
    + intros x Hx. by apply elem_of_nil in Hx.
Qed.

Lemma heappop_None h : heappop h = None → h = [].
Proof.
  destruct h as [|e h]; [done|]. simpl.
  destruct (heappop h) as [[m r]|]; [|done].
  by destruct (entry_leb e m).
Qed.

(** ** Grid and graph facts *)

Lemma elem_of_offsets d :
  d ∈ offsets ↔ d = (-1, 0) ∨ d = (1, 0) ∨ d = (0, -1) ∨ d = (0, 1).
Proof.
  unfold offsets. rewrite !elem_of_cons, elem_of_nil. tauto.
Qed.

Lemma shift_ne c d : d ∈ offsets → shift c d ≠ c.
Proof.
  destruct c as [x y]. rewrite elem_of_offsets.
  intros [-> | [-> | [-> | ->]]]; unfold shift; simpl; intros [=]; lia.
Qed.

(** One move changes the Manhattan distance to any cell by at most one:
    the heuristic never overestimates. *)
Lemma manhattan_step a b d :
  d ∈ offsets → manhattan a b ≤ 1 + manhattan (shift a d) b.
Proof.
  destruct a as [x y], b as [u v]. rewrite elem_of_offsets.
  intros [-> | [-> | [-> | ->]]]; unfold manhattan, shift; simpl; lia.
Qed.

Lemma manhattan_nonneg a b : 0 ≤ manhattan a b.
Proof. unfold manhattan. lia. Qed.

Lemma manhattan_same a : manhattan a a = 0.
Proof. unfold manhattan. lia. Qed.

Lemma manhattan_route maze a p b :
  route maze a p b → manhattan a b ≤ Z.of_nat (length p).
Proof.
  revert a. induction p as [|c p IH]; intros a; simpl.
  - intros ->. rewrite manhattan_same. lia.
  - intros [[(d & Hd & ->) _] Hr]. specialize (IH _ Hr).
    pose proof (manhattan_step a b d Hd). lia.
Qed.

Lemma route_snoc maze a p b c :
  route maze a p b → edge maze b c → route maze a (p ++ [c]) c.
Proof.
  revert a. induction p as [|x p IH]; intros a; simpl.
  - intros -> He. done.
  - intros [He Hr] Hbc. split; [done|]. by apply IH.
Qed.

Lemma route_last maze a p b :
  route maze a p b → last (a :: p) = Some b.
Proof.
  revert a. induction p as [|x p IH]; intros a; simpl.
  - by intros ->.
  - intros [_ Hr]. apply IH in Hr. by destruct p.
Qed.

Lemma elem_of_grid_cells w h c :
  c ∈ grid_cells w h ↔ 0 ≤ c.1 < w ∧ 0 ≤ c.2 < h.
Proof.
  unfold grid_cells. destruct c as [x y]. simpl.
  rewrite list_elem_of_bind. split.
  - intros (x' & Hy & Hx). apply elem_of_seqZ in Hx.
    apply list_elem_of_bind in Hy as (y' & Hin & Hy).
    apply elem_of_seqZ in Hy. apply list_elem_of_singleton in Hin as [= -> ->]. lia.
  - intros [Hx Hy]. exists x. split; [|apply elem_of_seqZ; lia].
    apply list_elem_of_bind. exists y. split; [apply list_elem_of_singleton; done|].
    apply elem_of_seqZ. lia.
Qed.

Lemma length_grid_cells w h :
  length (grid_cells w h) = (Z.to_nat w * Z.to_nat h)%nat.
Proof.
  unfold grid_cells.
  assert (Hpairs : ∀ (l k : list Z),
    length (x ← l; y ← k; [(x, y)]) = (length l * length k)%nat).
  { intros l k. induction l as [|x l IH]; [done|].
    change (length ((y ← k; [(x, y)]) ++ (x ← l; y ← k; [(x, y)]))
            = (length (x :: l) * length k)%nat).
    rewrite length_app, IH. simpl. f_equal.
    clear. induction k as [|y k IH]; [done|].
    change (length ((x, y) :: (y ← k; [(x, y)])) = length (y :: k)).
    simpl. by rewrite IH. }
  by rewrite Hpairs, !length_seqZ.
Qed.

Lemma elem_of_cells maze c : c ∈ cells maze ↔ in_bounds maze c.
Proof. apply elem_of_grid_cells. Qed.

Lemma length_cells maze : length (cells maze) = (length maze * length maze)%nat.
Proof.
  unfold cells, Game.GRID_SIZE. rewrite length_grid_cells. lia.
Qed.

Lemma square_lookup maze c :
  square maze → in_bounds maze c → is_Some (maze_at maze c).
Proof.
  unfold square, in_bounds, maze_at, Game.GRID_SIZE, py_get.
  intros Hsq [Hx Hy].
  rewrite bool_decide_eq_true_2 by lia.
  destruct (lookup_lt_is_Some_2 maze (Z.to_nat c.2)) as [row Hrow]; [lia|].
  rewrite Hrow. simpl.
  rewrite Forall_forall in Hsq.
  assert (Hlen : length row = length maze).
  { apply Hsq. eapply list_elem_of_lookup_2. done. }
  rewrite bool_decide_eq_true_2 by lia.
  apply lookup_lt_is_Some_2. lia.
Qed.

(** ** The search loop of [astar] *)

Lemma size_le_length (m : gmap cell cell) (l : list cell) :
  (∀ n, is_Some (m !! n) → n ∈ l) → (size m ≤ length l)%nat.
Proof.
  intros Hsub. rewrite <- size_dom.
  transitivity (size (list_to_set l : gset cell)).
  - apply subseteq_size. intros n Hn. apply elem_of_list_to_set, Hsub.
    by apply elem_of_dom.
  - clear. induction l as [|x l IH].
    + rewrite list_to_set_nil, size_empty. done.
    + rewrite list_to_set_cons, size_union_alt, size_singleton. simpl.
      assert (size (list_to_set l ∖ {[x]} : gset cell) ≤ size (list_to_set l : gset cell))%nat.
      { apply subseteq_size. apply subseteq_difference_l. done. }
      lia.
Qed.

Lemma weight_nonneg maze l g :
  (∀ n v, g !! n = Some v → 0 ≤ v) → 0 ≤ weight maze l g.
Proof.
  intros Hg. induction l as [|n l IH]; simpl; [done|].
  destruct (g !! n) as [v|] eqn:Hn; simpl.
  - specialize (Hg _ _ Hn). lia.
  - unfold cap. lia.
Qed.

Lemma weight_insert_le maze l g n v :
  v ≤ default (cap maze) (g !! n) → weight maze l (<[n := v]> g) ≤ weight maze l g.
Proof.
  intros Hv. induction l as [|m l IH]; simpl; [done|].
  rewrite lookup_insert. case_decide; subst; simpl; lia.
Qed.

Lemma weight_insert_lt maze l g n v :
  n ∈ l → v < default (cap maze) (g !! n) →
  weight maze l (<[n := v]> g) < weight maze l g.
Proof.
  intros Hin Hv. induction l as [|m l IH]; simpl; [by apply elem_of_nil in Hin|].
  rewrite lookup_insert. apply elem_of_cons in Hin as [->|Hin].
  - rewrite decide_True by done. simpl.
    pose proof (weight_insert_le maze l g m v). lia.
  - specialize (IH Hin). case_decide; subst; simpl; lia.
Qed.

Section SearchProofs.
Variables (maze : grid) (start goal : cell).
Hypothesis Hsq : square maze.

Local Abbreviation Wf := (wf maze start goal).
Local Abbreviation Mid := (mid maze start goal).
Local Abbreviation Inv := (inv maze start goal).
Local Abbreviation Pot := (potential maze start).

Lemma free_in_cells n : free maze n → n ∈ cells maze.
  Proof. intros [Hb _]. by apply elem_of_cells. Qed.

Lemma wf_parent_keys s :
    Wf s → ∀ n, is_Some (Game.came_from s !! n) → n ∈ cells maze.
  Proof.
    intros Hwf n [p Hp]. destruct (wf_parent _ _ _ _ Hwf _ _ Hp) as [[_ Hf] _].
    by apply free_in_cells.
  Qed.

Lemma improve_mid c gc done s d :
    d ∈ offsets → Mid c gc done s → free maze (shift c d) →
    (Game.g_score s !! shift c d = None ∨
     ∃ gn, Game.g_score s !! shift c d = Some gn ∧ gc + 1 < gn) →
    Mid c gc (d :: done) (Game.improve goal c (shift c d) (gc + 1) s) ∧
    Pot (Game.improve goal c (shift c d) (gc + 1) s) ≤ Pot s.
  Proof.
    intros Hd (Hwf & Hprog & Hc & Hcov) Hfree Hbetter.
    pose proof (shift_ne c d Hd) as Hnc.
    set (n' := shift c d) in *.
    destruct (wf_score _ _ _ _ Hwf _ _ Hc) as [Hgc _].
    assert (Hns : n' ≠ start).
    { intros E. rewrite E, (wf_start_g _ _ _ _ Hwf) in Hbetter.
      destruct Hbetter as [?|(gn & [= <-] & ?)]; [done|lia]. }
    assert (Hold : gc + 1 < default (cap maze) (Game.g_score s !! n') ∧
              0 ≤ gc + 1 ≤ Z.of_nat (size (<[n' := c]> (Game.came_from s)))).
    { destruct Hbetter as [Hnone|(gn & Hgn & Hlt)].
      - assert (Hp : Game.came_from s !! n' = None).
        { destruct (Game.came_from s !! n') as [p|] eqn:Hp; [|done].
          destruct (wf_parent _ _ _ _ Hwf _ _ Hp) as (_ & gp & gn & _ & Hgn & _).
          congruence. }
        rewrite Hnone. simpl.
        pose proof (size_le_length (<[n' := c]> (Game.came_from s)) (cells maze)) as Hsz.
        rewrite map_size_insert_None in * by done.
        rewrite length_cells in Hsz. unfold cap.
        assert (S (size (Game.came_from s)) ≤ length maze * length maze)%nat; [|lia].
        apply Hsz. intros n [p Hn]. rewrite lookup_insert in Hn.
        case_decide; subst; [by apply free_in_cells|].
        apply (wf_parent_keys _ Hwf). eauto.
      - rewrite Hgn. simpl. split; [lia|].
        destruct (wf_score _ _ _ _ Hwf _ _ Hgn) as [Hb [?|Hp]]; [done|].
        rewrite map_size_insert_Some by done. lia. }
    destruct Hold as [Hold Hnew].
    assert (Hmono : ∀ m gm, Game.g_score s !! m = Some gm →
              ∃ gm', <[n' := gc + 1]> (Game.g_score s) !! m = Some gm' ∧ gm' ≤ gm).
    { intros m gm Hm. rewrite lookup_insert. case_decide; subst.
      - rewrite Hm in Hold. simpl in Hold. eexists. split; [done|lia].
      - eauto with lia. }
    split.
    - split_and!.
      + (* wf *)
        split; simpl.
        * rewrite lookup_insert_ne by done. apply Hwf.
        * rewrite lookup_insert_ne by done. apply Hwf.
        * intros n p. rewrite lookup_insert. case_decide as Hn.
          -- intros [= <-]. subst n. split; [split; eauto|].
             exists gc, (gc + 1). rewrite lookup_insert_ne by done.
             rewrite lookup_insert_eq. split_and!; [done|done|lia].
          -- intros Hp.
             destruct (wf_parent _ _ _ _ Hwf _ _ Hp) as (He & gp & gn & Hgp & Hgn & Hle).
             split; [done|]. destruct (Hmono _ _ Hgp) as (gp' & Hgp' & ?).
             exists gp', gn.
             split_and!; [done|by rewrite lookup_insert_ne|lia].
        * intros n gn. rewrite lookup_insert. case_decide as Hn.
          -- intros [= <-]. subst n. split; [done|]. right.
             rewrite lookup_insert_eq. eauto.
          -- intros Hgn.
             destruct (wf_score _ _ _ _ Hwf _ _ Hgn) as [Hb Hp]. split.
             ++ pose proof (map_size_insert n' c (Game.came_from s)).
                destruct (Game.came_from s !! n'); unfold id in *; lia.
             ++ destruct Hp as [?|Hp]; [by left|right].
                rewrite lookup_insert_ne by done. done.
        * intros f n. unfold heappush. rewrite elem_of_cons.
          intros [[= -> ->]|Hin].
          -- exists (gc + 1). rewrite lookup_insert_eq. split; [done|right; lia].
          -- destruct (wf_entry _ _ _ _ Hwf _ _ Hin) as (gn & Hgn & Hf).
             destruct (Hmono _ _ Hgn) as (gn' & Hgn' & ?).
             exists gn'. split; [done|]. destruct Hf; [by left|right; lia].
      + (* progress of the other cells *)
        intros n gn Hgn Hn. simpl in Hgn. rewrite lookup_insert in Hgn.
        case_decide as Hnn.
        * injection Hgn as <-. subst n. left. exists (gc + 1 + Game.heuristic n' goal).
          simpl. unfold heappush. split; [apply elem_of_cons; by left|lia].
        * destruct (Hprog _ _ Hgn Hn) as [(f & Hin & Hf)|[Hng Hcv]].
          -- left. exists f. simpl. unfold heappush. split; [|done].
             apply elem_of_cons. by right.
          -- right. split; [done|]. intros d' Hd' Hfr.
             destruct (Hcv _ Hd' Hfr) as (gm & Hgm & Hle). simpl.
             destruct (Hmono _ _ Hgm) as (gm' & Hgm' & ?).
             exists gm'. split; [done|lia].
      + simpl. by rewrite lookup_insert_ne.
      + intros d' Hd' Hfr. simpl. apply elem_of_cons in Hd' as [->|Hd'].
        * exists (gc + 1). fold n'. rewrite lookup_insert_eq. split; [done|lia].
        * destruct (Hcov _ Hd' Hfr) as (gm & Hgm & Hle).
          destruct (Hmono _ _ Hgm) as (gm' & Hgm' & ?).
          exists gm'. split; [done|lia].
    - unfold potential. simpl.
      pose proof (weight_insert_lt maze (cells maze) (Game.g_score s) n' (gc + 1)
                    (free_in_cells _ Hfree) Hold).
      rewrite lookup_insert_ne by done.
      lia.
  Qed.
Lemma mid_skip c gc done s d :
  Mid c gc done s →
  (free maze (shift c d) →
   ∃ gm, Game.g_score s !! shift c d = Some gm ∧ gm ≤ gc + 1) →
  Mid c gc (d :: done) s.
Proof.
  intros (Hwf & Hprog & Hc & Hcov) Hd. split_and!; [done..|].
  intros d' [->|Hd']%elem_of_cons Hfr; [by apply Hd|by apply Hcov].
Qed.

Lemma relax_mid c gc done s d :
  d ∈ offsets → Mid c gc done s →
  ∃ s', Game.relax maze goal c s d = inr s' ∧ Mid c gc (d :: done) s' ∧
        Pot s' ≤ Pot s.
Proof.
  intros Hd Hmid. pose proof Hmid as (Hwf & Hprog & Hc & Hcov).
  unfold Game.relax. set (n' := shift c d).
  case_bool_decide as Hx; [case_bool_decide as Hy|].
  - destruct (square_lookup maze n' Hsq (conj Hx Hy)) as [v Hv]. rewrite Hv.
    case_bool_decide as Hv0.
    + subst v. assert (Hfree : free maze n') by (split; [split|]; done).
      rewrite Hc. destruct (Game.g_score s !! n') as [gn|] eqn:Hgn.
      * case_bool_decide as Hlt.
        -- eexists. split; [done|]. apply improve_mid; eauto.
        -- exists s. split; [done|]. split; [|lia].
           apply mid_skip; [done|]. intros _. exists gn. split; [done|lia].
      * eexists. split; [done|]. apply improve_mid; eauto.
    + exists s. split; [done|]. split; [|lia].
      apply mid_skip; [done|]. intros [_ Hfr]. fold n' in Hfr. congruence.
  - exists s. split; [done|]. split; [|lia].
    apply mid_skip; [done|]. intros [[_ ?] _]. done.
  - exists s. split; [done|]. split; [|lia].
    apply mid_skip; [done|]. intros [[? _] _]. done.
Qed.

Lemma expand_mid c gc ds : ∀ done s,
  (∀ d, d ∈ ds → d ∈ offsets) → Mid c gc done s →
  ∃ s', Game.expand maze goal c ds s = inr s' ∧ Mid c gc (ds ++ done) s' ∧
        Pot s' ≤ Pot s.
Proof.
  induction ds as [|d ds IH]; intros done s Hds Hmid; simpl.
  - exists s. split; [done|]. split; [done|lia].
  - destruct (relax_mid c gc done s d) as (s1 & -> & Hmid1 & Hpot1);
      [apply Hds; by left|done|].
    destruct (IH (d :: done) s1) as (s2 & -> & Hmid2 & Hpot2);
      [intros; apply Hds; by right|done|].
    exists s2. split; [done|]. split; [|lia].
    destruct Hmid2 as (Hwf & Hprog & Hc & Hcov). split_and!; [done..|].
    intros d' Hd'. apply Hcov.
    rewrite elem_of_app, elem_of_cons. rewrite elem_of_cons, elem_of_app in Hd'. tauto.
Qed.

(** The chain of predecessors of a scored cell leads back to [start]. *)
Lemma reconstruct_route s : Wf s → ∀ fuel n gn acc,
  Game.g_score s !! n = Some gn → gn ≤ Z.of_nat fuel →
  ∃ chain, Game.reconstruct fuel (Game.came_from s) n acc = Some (acc ++ chain) ∧
           route maze start (reverse chain) n ∧ Z.of_nat (length chain) ≤ gn.
Proof.
  intros Hwf. induction fuel as [|fuel IH]; intros n gn acc Hgn Hfuel.
  - destruct (wf_score _ _ _ _ Hwf _ _ Hgn) as [Hb Hp].
    assert (gn = 0) as -> by lia.
    destruct (Game.came_from s !! n) as [p|] eqn:Hpn.
    + destruct (wf_parent _ _ _ _ Hwf _ _ Hpn) as (_ & gp & gn' & Hgp & Hgn' & Hle).
      destruct (wf_score _ _ _ _ Hwf _ _ Hgp) as [? _].
      assert (gn' = 0) by congruence. lia.
    + destruct Hp as [->|[? ?]]; [|done]. exists []. simpl. rewrite Hpn.
      rewrite app_nil_r. done.
  - simpl. destruct (Game.came_from s !! n) as [p|] eqn:Hpn.
    + destruct (wf_parent _ _ _ _ Hwf _ _ Hpn) as (He & gp & gn' & Hgp & Hgn' & Hle).
      assert (gn' = gn) as -> by congruence.
      destruct (IH p gp (acc ++ [n]) Hgp) as (chain & Hrec & Hroute & Hlen); [lia|].
      exists (n :: chain). rewrite Hrec, <- app_assoc. split; [done|].
      rewrite reverse_cons. split; [by eapply route_snoc|].
      simpl. lia.
    + destruct (wf_score _ _ _ _ Hwf _ _ Hgn) as [Hb [->|[? ?]]]; [|congruence].
      exists []. rewrite app_nil_r. split; [done|]. simpl.
      rewrite (wf_start_g _ _ _ _ Hwf) in Hgn. split; [done|]. injection Hgn as <-. done.
Qed.
(** Along any route to the goal, either the goal already has a score within
    the route's length, or the queue holds an entry that small. *)
Lemma frontier_bound s : Inv s → ∀ q a ga,
  route maze a q goal → Game.g_score s !! a = Some ga →
  (∃ gg, Game.g_score s !! goal = Some gg ∧ gg ≤ ga + Z.of_nat (length q)) ∨
  (∃ f n, (f, n) ∈ Game.open_set s ∧ f ≤ ga + Z.of_nat (length q)).
Proof.
  intros [Hwf Hprog]. induction q as [|c q IH]; intros a ga Hr Ha.
  - simpl in Hr. subst a. left. exists ga. split; [done|lia].
  - destruct (Hprog _ _ Ha) as [(f & Hin & Hf)|[Hng Hcov]].
    + right. exists f, a. split; [done|].
      pose proof (manhattan_route _ _ _ _ Hr). unfold Game.heuristic in Hf. lia.
    + destruct Hr as [[(d & Hd & ->) Hfree] Hr].
      destruct (Hcov d Hd Hfree) as (gm & Hgm & Hle).
      destruct (IH _ _ Hr Hgm) as [(gg & Hgg & ?)|(f & n & Hin & ?)].
      * left. exists gg. split; [done|]. simpl length. lia.
      * right. exists f, n. split; [done|]. simpl length. lia.
Qed.

Lemma exhausted s :
  Inv s → Game.open_set s = [] → ¬ connected maze start goal.
Proof.
  intros Hinv Hempty [q Hq]. pose proof Hinv as [Hwf Hprog].
  destruct (frontier_bound s Hinv q start 0 Hq (wf_start_g _ _ _ _ Hwf))
    as [(gg & Hgg & _)|(f & n & Hin & _)].
  - destruct (Hprog _ _ Hgg) as [(f & Hin & _)|[Hne _]]; [|done].
    rewrite Hempty in Hin. by apply elem_of_nil in Hin.
  - rewrite Hempty in Hin. by apply elem_of_nil in Hin.
Qed.

Lemma inv_potential_nonneg s : Wf s → 0 ≤ Pot s.
Proof.
  intros Hwf. unfold potential.
  pose proof (weight_nonneg maze (start :: cells maze) (Game.g_score s)) as Hw.
  assert (0 ≤ weight maze (start :: cells maze) (Game.g_score s)); [|lia].
  apply Hw. intros n v Hn. by destruct (wf_score _ _ _ _ Hwf _ _ Hn) as [[? _] _].
Qed.

Lemma search_loop_unfold fuel s :
  Game.search_loop (S fuel) maze start goal s =
  match heappop (Game.open_set s) with
  | None => Return []
  | Some ((_, current), rest) =>
      let s := {| Game.open_set := rest; Game.came_from := Game.came_from s;
                  Game.g_score := Game.g_score s; Game.f_score := Game.f_score s |} in
      if bool_decide (current = goal) then
        match Game.reconstruct (size (Game.came_from s)) (Game.came_from s) current [] with
        | None => Timeout
        | Some path => Return (reverse (path ++ [start]))
        end
      else
        match Game.expand maze goal current offsets s with
        | inl e => Raise e
        | inr s' => Game.search_loop fuel maze start goal s'
        end
  end.
Proof. reflexivity. Qed.

Lemma search_loop_correct fuel : ∀ s,
  Inv s → Pot s < Z.of_nat fuel →
  ∃ path, Game.search_loop fuel maze start goal s = Return path ∧
          astar_post maze start goal path.
Proof.
  induction fuel as [|fuel IH]; intros s Hinv Hpot.
  { pose proof (inv_potential_nonneg s (proj1 Hinv)). lia. }
  pose proof Hinv as [Hwf Hprog]. rewrite search_loop_unfold.
  destruct (heappop (Game.open_set s)) as [[[f c] rest]|] eqn:Hpop.
  2:{ apply heappop_None in Hpop. exists []. split; [done|]. left.
      split; [done|]. by apply exhausted with s. }
  apply heappop_spec in Hpop as (Hin & Hsplit & Hsub & Hmin & Hlen).
  destruct (wf_entry _ _ _ _ Hwf _ _ Hin) as (gc & Hgc & Hf).
  cbv zeta. cbn [Game.came_from Game.g_score Game.f_score Game.open_set].
  set (s1 := {| Game.open_set := rest; Game.came_from := Game.came_from s;
                Game.g_score := Game.g_score s; Game.f_score := Game.f_score s |}).
  assert (Hwf1 : Wf s1).
  { split; simpl; try apply Hwf. intros f' n Hn. apply (wf_entry _ _ _ _ Hwf).
    by apply Hsub. }
  case_bool_decide as Hgoal.
  - subst c. destruct (wf_score _ _ _ _ Hwf _ _ Hgc) as [Hb _].
    destruct (reconstruct_route s1 Hwf1 (size (Game.came_from s)) goal gc [] Hgc)
      as (chain & Hrec & Hroute & Hlen'); [lia|].
    cbn [s1 Game.came_from] in Hrec. rewrite Hrec. eexists. split; [done|]. right.
    exists (reverse chain). rewrite reverse_app. split; [done|]. split; [done|].
    intros q Hq. rewrite length_reverse.
    assert (gc ≤ Z.of_nat (length q)); [|lia].
    destruct (frontier_bound s Hinv q start 0 Hq (wf_start_g _ _ _ _ Hwf))
      as [(gg & Hgg & ?)|(f' & n & Hin' & ?)].
    + assert (gg = gc) by congruence. lia.
    + specialize (Hmin _ Hin'). simpl in Hmin.
      destruct Hf as [Hs|Hf].
      * rewrite Hs, (wf_start_g _ _ _ _ Hwf) in Hgc. injection Hgc as <-. lia.
      * unfold Game.heuristic in Hf. rewrite manhattan_same in Hf. lia.
  - assert (Hmid : Mid c gc [] s1).
    { split_and!; [done| |done|].
      - intros n gn Hn Hnc. destruct (Hprog _ _ Hn) as [(f' & Hin' & Hf')|Hset].
        + left. exists f'. split; [|done]. simpl.
          destruct (Hsplit _ Hin') as [[= -> ->]|?]; done.
        + right. done.
      - intros d Hd. by apply elem_of_nil in Hd. }
    destruct (expand_mid c gc offsets [] s1) as (s2 & -> & Hmid2 & Hpot2); [done..|].
    apply IH.
    + destruct Hmid2 as (Hwf2 & Hprog2 & Hc2 & Hcov2). split; [done|].
      intros n gn Hn. destruct (decide (n = c)) as [->|Hnc]; [|by apply Hprog2].
      right. assert (gn = gc) as -> by congruence. split; [done|].
      intros d Hd. apply Hcov2. rewrite elem_of_app. by left.
    + unfold potential in *. cbn [s1 Game.open_set Game.g_score] in Hpot2.
      rewrite Hlen in Hpot. lia.
Qed.

Lemma weight_le_cap g l :
  (∀ n v, g !! n = Some v → v ≤ cap maze) →
  weight maze l g ≤ Z.of_nat (length l) * cap maze.
Proof.
  intros Hg. induction l as [|n l IH]; simpl length; simpl weight; [lia|].
  destruct (g !! n) as [v|] eqn:Hn; simpl.
  - specialize (Hg _ _ Hn). lia.
  - lia.
Qed.

Lemma init_inv : Inv (Game.init start goal).
Proof.
  split; [split|]; simpl.
  - apply lookup_singleton_eq.
  - apply lookup_empty.
  - intros n p. by rewrite lookup_empty.
  - intros n gn [<- <-]%lookup_singleton_Some. split; [|by left].
    rewrite map_size_empty. lia.
  - intros f n [[= -> ->]|Hin%elem_of_nil]%elem_of_cons; [|done].
    exists 0. rewrite lookup_singleton_eq. split; [done|by left].
  - intros n gn [<- <-]%lookup_singleton_Some. left. exists 0. split.
    + simpl. unfold heappush. apply elem_of_cons. by left.
    + pose proof (manhattan_nonneg start goal). unfold Game.heuristic. lia.
Qed.

Lemma init_potential : Pot (Game.init start goal) < Z.of_nat (Game.budget maze).
Proof.
  unfold potential, Game.budget. simpl.
  rewrite lookup_singleton_eq. simpl.
  pose proof (weight_le_cap {[start := 0]} (cells maze)) as Hw.
  rewrite length_cells in Hw. unfold cap in *.
  assert (weight maze (cells maze) {[start := 0]}
          ≤ Z.of_nat (length maze * length maze)
            * (Z.of_nat (length maze * length maze) + 1)).
  { apply Hw. intros n v [<- <-]%lookup_singleton_Some. lia. }
  lia.
Qed.

Lemma astar_correct :
  ∃ path, Game.astar maze start goal = Return path ∧ astar_post maze start goal path.
Proof. apply search_loop_correct; [apply init_inv|apply init_potential]. Qed.
End SearchProofs.

(** ** Breadth-first search computes the shortest distance *)

Section BfsProofs.
Variable maze : grid.
Variables start goal : cell.

Lemma elem_of_open_neighbors a c : c ∈ open_neighbors maze a ↔ edge maze a c.
Proof.
  unfold open_neighbors, edge. rewrite list_elem_of_filter, list_elem_of_fmap.
  split.
  - intros [Hf (d & -> & Hd)]. split; [eauto|done].
  - intros [(d & Hd & ->) Hf]. split; [done|eauto].
Qed.

Lemma route_snoc_inv a p c b :
  route maze a (p ++ [c]) b → b = c ∧ ∃ x, route maze a p x ∧ edge maze x c.
Proof.
  revert a. induction p as [|y p IH]; intros a; simpl.
  - intros [He <-]. split; [done|]. by exists a.
  - intros [He Hr]. destruct (IH _ Hr) as (-> & x & Hx & Hxc).
    split; [done|]. exists x. done.
Qed.

Lemma shortest_unique a b d d' :
  shortest maze a b d → shortest maze a b d' → d = d'.
Proof.
  intros [(p & Hp & <-) Hmin] [(p' & Hp' & <-) Hmin'].
  specialize (Hmin _ Hp'). specialize (Hmin' _ Hp). lia.
Qed.

(** A route that leaves a set of cells crosses its border somewhere. *)
Lemma route_crossing (seen : gset cell) q : ∀ a b,
  route maze a q b → a ∈ seen → b ∉ seen →
  ∃ x y, x ∈ seen ∧ (y ∉ seen) ∧ edge maze x y.
Proof.
  induction q as [|c q IH]; intros a b; simpl.
  - intros <- Ha Hb. done.
  - intros [He Hr] Ha Hb. destruct (decide (c ∈ seen)) as [Hc|Hc].
    + by apply (IH c b).
    + by exists a, c.
Qed.

Lemma bfs_level_init : bfs_level maze start goal 0 {[start]} [start].
Proof.
  split_and!.
  - intros c. rewrite elem_of_singleton. split.
    + intros ->. exists []. done.
    + intros (p & Hp & Hlen). destruct p; [done|simpl in Hlen; lia].
  - intros c. rewrite list_elem_of_singleton. split.
    + intros ->. split; [by exists []|]. intros; lia.
    + intros [(p & Hp & Hlen) _]. by destruct p.
  - rewrite elem_of_singleton, list_elem_of_singleton. done.
Qed.

Lemma bfs_level_next d seen frontier :
  bfs_level maze start goal d seen frontier → ∀ c,
  c ∈ remove_dups (filter (λ n, n ∉ seen) (frontier ≫= open_neighbors maze)) ↔
  shortest maze start c (S d).
Proof.
  intros (Hseen & Hfront & _) c.
  rewrite elem_of_remove_dups, list_elem_of_filter, list_elem_of_bind.
  split.
  - intros [Hc (a & Hac%elem_of_open_neighbors & Ha%Hfront)].
    destruct Ha as [(p & Hp & Hlen) _]. split.
    + exists (p ++ [c]). split; [by eapply route_snoc|].
      rewrite length_app. simpl. lia.
    + intros q Hq. destruct (decide (length q ≤ d)%nat) as [Hle|]; [|lia].
      destruct Hc. apply Hseen. by exists q.
  - intros [(p & Hp & Hlen) Hmin].
    destruct p as [|x p _] using rev_ind; [done|].
    rewrite length_app in Hlen. simpl in Hlen.
    apply route_snoc_inv in Hp as (-> & b & Hb & Hbc). split.
    + intros (q & Hq & Hle)%Hseen. specialize (Hmin _ Hq). lia.
    + exists b. split; [by apply elem_of_open_neighbors|].
      apply Hfront. split; [exists p; split; [done|lia]|].
      intros q Hq. pose proof (route_snoc _ _ _ _ _ Hq Hbc) as Hqc.
      apply Hmin in Hqc. rewrite length_app in Hqc. simpl in Hqc. lia.
Qed.

Lemma bfs_level_step d seen frontier :
  bfs_level maze start goal d seen frontier → goal ∉ frontier →
  let next := remove_dups (filter (λ n, n ∉ seen) (frontier ≫= open_neighbors maze)) in
  bfs_level maze start goal (S d) (seen ∪ list_to_set next) next.
Proof.
  intros Hlv Hgoal next. pose proof (bfs_level_next _ _ _ Hlv) as Hnext.
  destruct Hlv as (Hseen & Hfront & Hg). fold next in Hnext.
  split_and!.
  - intros c. rewrite elem_of_union, elem_of_list_to_set, Hnext, Hseen. split.
    + intros [(p & Hp & Hle)|[(p & Hp & Hle) _]]; exists p; split; (done || lia).
    + intros (p & Hp & Hle). destruct (decide (c ∈ seen)) as [Hc|Hc].
      * left. by apply Hseen.
      * right. split.
        -- exists p. split; [done|].
           destruct (decide (length p ≤ d)%nat); [|lia].
           destruct Hc. apply Hseen. by exists p.
        -- intros q Hq. destruct (decide (length q ≤ d)%nat); [|lia].
           destruct Hc. apply Hseen. by exists q.
  - done.
  - rewrite elem_of_union, elem_of_list_to_set. intros [Hin|Hin]; [|done].
    destruct Hgoal. by apply Hg.
Qed.

(** The cells a search can see: the start and the cells of the grid. *)
Lemma bfs_level_universe d seen frontier :
  bfs_level maze start goal d seen frontier →
  seen ⊆ list_to_set (start :: cells maze).
Proof.
  intros (Hseen & _) c (p & Hp & _)%Hseen.
  apply elem_of_list_to_set.
  destruct p as [|x p _] using rev_ind.
  - simpl in Hp. subst. by left.
  - apply route_snoc_inv in Hp as (-> & b & _ & _ & [Hb _]).
    right. by apply elem_of_cells.
Qed.

Lemma size_list_to_set_le (l : list cell) :
  (size (list_to_set l : gset cell) ≤ length l)%nat.
Proof.
  induction l as [|x l IH].
  - rewrite list_to_set_nil, size_empty. done.
  - rewrite list_to_set_cons, size_union_alt, size_singleton. simpl.
    assert (size (list_to_set l ∖ {[x]} : gset cell) ≤ size (list_to_set l : gset cell))%nat.
    { apply subseteq_size. apply subseteq_difference_l. done. }
    lia.
Qed.

Lemma bfs_loop_correct fuel : ∀ d seen frontier,
  bfs_level maze start goal d seen frontier →
  (S (length (cells maze)) < fuel + size seen)%nat →
  match bfs_loop fuel maze goal seen frontier d with
  | Some k => shortest maze start goal k
  | None => ¬ connected maze start goal
  end.
Proof.
  induction fuel as [|fuel IH]; intros d seen frontier Hlv Hfuel.
  { pose proof (subseteq_size _ _ (bfs_level_universe _ _ _ Hlv)) as Hsz.
    pose proof (size_list_to_set_le (start :: cells maze)) as Hle.
    cbn [length] in Hle. lia. }
  simpl. case_bool_decide as Hgoal.
  { by apply Hlv. }
  pose proof (bfs_level_step _ _ _ Hlv Hgoal) as Hstep.
  pose proof (bfs_level_next _ _ _ Hlv) as Hnext.
  cbv zeta in Hstep.
  destruct (remove_dups _) as [|n next] eqn:Hrd.
  - intros [q Hq]. destruct Hlv as (Hseen & Hfront & Hg).
    assert (Hstart : start ∈ seen).
    { apply Hseen. exists []. split; [done|simpl; lia]. }
    assert (Hgs : goal ∉ seen) by (intros ?; by apply Hgoal, Hg).
    destruct (route_crossing seen q start goal Hq Hstart Hgs)
      as (x & y & Hx & Hy & Hxy).
    assert (Hys : shortest maze start y (S d)).
    { apply Hseen in Hx as (p & Hp & Hle). split.
      - assert (length p = d) as Hpd.
        { destruct (decide (length p = d)) as [|Hne]; [done|]. destruct Hy.
          apply Hseen. exists (p ++ [y]). split; [by eapply route_snoc|].
          rewrite length_app. simpl. lia. }
        exists (p ++ [y]). split; [by eapply route_snoc|].
        rewrite length_app. simpl. lia.
      - intros r Hr. destruct (decide (length r ≤ d)%nat); [|lia].
        destruct Hy. apply Hseen. by exists r. }
    apply Hnext in Hys. by apply elem_of_nil in Hys.
  - apply IH; [done|].
    assert (S (size seen) ≤ size (seen ∪ list_to_set (n :: next)))%nat; [|lia].
    assert (Hn : n ∉ seen).
    { assert (Hin : n ∈ n :: next) by by left.
      rewrite <- Hrd in Hin.
      apply elem_of_remove_dups, list_elem_of_filter in Hin as [? _]. done. }
    transitivity (size ({[n]} ∪ seen)).
    + rewrite size_union by (apply disjoint_singleton_l; done).
      rewrite size_singleton. lia.
    + apply subseteq_size. intros c [->%elem_of_singleton|Hc]%elem_of_union.
      * apply elem_of_union. right. apply elem_of_list_to_set. by left.
      * apply elem_of_union. by left.
Qed.

(** [bfs] reports the length of a shortest route, and [None] exactly when
    there is no route. *)
Lemma bfs_spec :
  (∀ k, bfs maze start goal = Some k ↔ shortest maze start goal k) ∧
  (bfs maze start goal = None ↔ ¬ connected maze start goal).
Proof.
  pose proof (bfs_loop_correct (S (length (cells maze))) 0 {[start]} [start]
                bfs_level_init) as Hbfs.
  rewrite size_singleton in Hbfs. specialize (Hbfs ltac:(lia)).
  fold (bfs maze start goal) in Hbfs.
  destruct (bfs maze start goal) as [k|] eqn:Hk.
  - split.
    + intros k'. split; [by intros [= <-]|].
      intros Hk'. f_equal. by eapply shortest_unique.
    + split; [done|]. intros Hno. destruct Hno, Hbfs as [(p & Hp & _) _].
      by exists p.
  - split; [|done]. intros k. split; [done|].
    intros [(p & Hp & _) _]. destruct Hbfs. by exists p.
Qed.
End BfsProofs.

(** ** Mazes that are not square

    [astar] asks for the cell [(x, y)] only after [0 <= x < len(maze)] and
    [0 <= y < len(maze)].  It therefore runs on any maze as on a maze that
    agrees with it on these cells, until it asks for a cell that a short
    row does not have. *)

Section Simulation.
Variables maze maze' : grid.
Hypothesis Hlen : length maze' = length maze.
Hypothesis Hagree : ∀ c, in_bounds maze c →
  maze_at maze c = None ∨ maze_at maze' c = maze_at maze c.

Local Abbreviation Gap := (∃ c, in_bounds maze c ∧ maze_at maze c = None).




End Simulation.









(** ** Static search: optimality and the not-found result *)






(** ** Python helpers *)

Lemma py_get_last {A} (l : list A) : l ≠ [] → py_get l (-1) = last l.
Proof.
  intros Hl. unfold py_get.
  rewrite bool_decide_eq_false_2 by lia.
  destruct l as [|x l]; [done|].
  rewrite bool_decide_eq_true_2 by (simpl; lia).
  rewrite last_lookup. f_equal. simpl. lia.
Qed.

Lemma py_min_fold {A} (key : A → Z) (l : list A) : ∀ best,
  let n := foldl (λ best y, if bool_decide (key y < key best) then y else best) best l in
  (n = best ∧ ∀ m, m ∈ l → key best ≤ key m) ∨
  (∃ before after, l = before ++ n :: after ∧ key n < key best ∧
     (∀ m, m ∈ before → key n < key m) ∧ (∀ m, m ∈ after → key n ≤ key m)).
Proof.
  induction l as [|y l IH]; intros best; simpl.
  - left. split; [done|]. intros m Hm. by apply elem_of_nil in Hm.
  - case_bool_decide as Hlt.
    + destruct (IH y) as [[Heq Hall]|(before & after & Hl & Hn & Hb & Ha)].
      * right. exists [], l. rewrite Heq. split_and!; [done|done| |done].
        intros m Hm. by apply elem_of_nil in Hm.
      * right. exists (y :: before), after. rewrite Hl at 1.
        split_and!; [done|lia| |done].
        intros m [->|Hm]%elem_of_cons; [done|by apply Hb].
    + destruct (IH best) as [[Heq Hall]|(before & after & Hl & Hn & Hb & Ha)].
      * left. split; [done|].
        intros m [->|Hm]%elem_of_cons; [lia|by apply Hall].
      * right. exists (y :: before), after. rewrite Hl at 1.
        split_and!; [done|done| |done].
        intros m [->|Hm]%elem_of_cons; [lia|by apply Hb].
Qed.

(** [min] with a key returns the first element whose key is least. *)
Lemma py_min_spec {A} (key : A → Z) (l : list A) n :
  py_min key l = Some n →
  ∃ before after, l = before ++ n :: after ∧
    (∀ m, m ∈ before → key n < key m) ∧ (∀ m, m ∈ after → key n ≤ key m).
Proof.
  destruct l as [|x l]; [done|]. simpl. intros [= <-].
  destruct (py_min_fold key l x) as [[Heq Hall]|(before & after & Hl & Hn & Hb & Ha)].
  - exists [], l. rewrite Heq. split_and!; [done| |done].
    intros m Hm. by apply elem_of_nil in Hm.
  - exists (x :: before), after. rewrite Hl at 1. split_and!; [done| |done].
    intros m [->|Hm]%elem_of_cons; [done|by apply Hb].
Qed.

Lemma py_min_elem {A} (key : A → Z) (l : list A) n :
  py_min key l = Some n → n ∈ l.
Proof.
  intros (before & after & -> & _)%py_min_spec.
  apply elem_of_app. right. by left.
Qed.

Lemma py_min_None {A} (key : A → Z) (l : list A) :
  py_min key l = None ↔ l = [].
Proof. by destruct l. Qed.

(** ** The incremental planner of [game10.py] *)

Section PlannerProofs.
Variables GRID_WIDTH GRID_HEIGHT : Z.
Variable maze : grid.
Hypothesis Hrect : rect GRID_WIDTH GRID_HEIGHT maze.

Local Abbreviation Open := (is_open GRID_WIDTH GRID_HEIGHT maze).
Local Abbreviation Viable := (Game10.viable GRID_WIDTH GRID_HEIGHT maze).
Local Abbreviation Update := (Game10.update GRID_WIDTH GRID_HEIGHT maze).
Local Abbreviation Tick := (Game10.tick GRID_WIDTH GRID_HEIGHT maze).
Local Abbreviation Run := (Game10.run GRID_WIDTH GRID_HEIGHT maze).

Lemma rect_lookup c :
  0 ≤ c.1 < GRID_WIDTH → 0 ≤ c.2 < GRID_HEIGHT → is_Some (maze_at maze c).
Proof.
  destruct Hrect as [Hh Hw]. unfold maze_at, py_get. intros Hx Hy.
  rewrite bool_decide_eq_true_2 by lia.
  destruct (lookup_lt_is_Some_2 maze (Z.to_nat c.2)) as [row Hrow]; [lia|].
  rewrite Hrow. simpl.
  rewrite Forall_forall in Hw.
  assert (Hlen : Z.of_nat (length row) = GRID_WIDTH).
  { apply Hw. eapply list_elem_of_lookup_2. done. }
  rewrite bool_decide_eq_true_2 by lia.
  apply lookup_lt_is_Some_2. lia.
Qed.

Lemma probe_spec pos acc d :
  Game10.probe GRID_WIDTH GRID_HEIGHT maze pos acc d =
  inr (acc ++ filter Open [shift pos d]).
Proof.
  unfold Game10.probe. rewrite filter_cons, filter_nil.
  case_bool_decide as Hx; [case_bool_decide as Hy|].
  - destruct (rect_lookup (shift pos d) Hx Hy) as [v Hv]. rewrite Hv.
    case_bool_decide as Hv0.
    + subst v. rewrite decide_True; [done|]. by split.
    + rewrite decide_False; [by rewrite app_nil_r|].
      intros [_ Ho]. congruence.
  - rewrite decide_False; [by rewrite app_nil_r|]. intros [[_ ?] _]. done.
  - rewrite decide_False; [by rewrite app_nil_r|]. intros [[? _] _]. done.
Qed.

Lemma probe_all_spec pos ds : ∀ acc,
  Game10.probe_all GRID_WIDTH GRID_HEIGHT maze pos acc ds =
  inr (acc ++ filter Open (shift pos <$> ds)).
Proof.
  induction ds as [|d ds IH]; intros acc; cbn [Game10.probe_all].
  - by rewrite fmap_nil, filter_nil, app_nil_r.
  - rewrite probe_spec, IH, fmap_cons, !filter_cons, filter_nil.
    destruct (decide (Open (shift pos d)));
      by rewrite <- ?app_assoc, ?app_nil_r.
Qed.

Lemma get_neighbors_spec pos :
  Game10.get_neighbors GRID_WIDTH GRID_HEIGHT maze pos =
  inr (filter Open (shift pos <$> offsets)).
Proof. unfold Game10.get_neighbors. by rewrite probe_all_spec. Qed.

Lemma viable_open pos barriers n : n ∈ Viable pos barriers → Open n.
Proof.
  unfold Game10.viable. intros Hn.
  apply list_elem_of_filter in Hn as [_ Hn].
  by apply list_elem_of_filter in Hn as [? _].
Qed.

Lemma viable_adjacent pos barriers n :
  n ∈ Viable pos barriers → ∃ d, d ∈ offsets ∧ n = shift pos d.
Proof.
  unfold Game10.viable. intros Hn.
  apply list_elem_of_filter in Hn as [_ Hn].
  apply list_elem_of_filter in Hn as [_ Hn].
  apply list_elem_of_fmap in Hn as (d & -> & Hd). eauto.
Qed.

(** [backtrack] never fails: [path[-1]] is read only after a pop that
    leaves the path non-empty. *)
Lemma backtrack_spec self :
  ((1 < length (Game10.path self))%nat ∧
   ∃ p, last (removelast (Game10.path self)) = Some p ∧
        Game10.backtrack self =
        inr (Game10.retreated self (removelast (Game10.path self)) p, [])) ∨
  ((length (Game10.path self) ≤ 1)%nat ∧
   Game10.backtrack self = inr (self, [Game10.msg_stuck])).
Proof.
  unfold Game10.backtrack. case_bool_decide as Hlen.
  - left. split; [done|].
    assert (Hne : removelast (Game10.path self) ≠ []).
    { destruct (Game10.path self) as [|x [|y l]]; simpl in *; [lia|lia|done]. }
    rewrite py_get_last by done.
    destruct (last (removelast (Game10.path self))) as [p|] eqn:Hlast.
    + exists p. done.
    + apply last_None in Hlast. done.
  - right. split; [lia|done].
Qed.

(** Every call of [update] is one of the ticks, and raises nothing. *)
Lemma update_tick self barriers :
  ∃ self' out, Update self barriers = inr (self', out) ∧
               Tick self barriers self' out.
Proof.
  unfold Game10.update.
  destruct (Game10.fsm self) eqn:Hfsm;
    [eexists _, _; split; [done|]; apply Game10.tick_idle; congruence| |
     eexists _, _; split; [done|]; apply Game10.tick_idle; congruence].
  cbn [Game10.goal Game10.noted Game10.position].
  case_bool_decide as Hgoal.
  { eexists _, _. split; [done|]. by apply Game10.tick_goal. }
  rewrite get_neighbors_spec.
  fold (Viable (Game10.position self) barriers).
  change (λ n, Game10.heuristic (Game10.noted self) n (Game10.goal self))
    with (Game10.cost self).
  destruct (Viable (Game10.position self) barriers) as [|v vs] eqn:Hv.
  - destruct (backtrack_spec (Game10.noted self)) as [[Hlen (p & Hp & ->)]|[Hlen ->]];
      change (Game10.path (Game10.noted self)) with (Game10.path self) in *.
    + eexists _, _. split; [done|]. apply Game10.tick_back; try done. by left.
    + eexists _, _. split; [done|]. apply Game10.tick_stuck; try done. by left.
  - destruct (py_min (Game10.cost self) (v :: vs)) as [n|] eqn:Hmin; [|done].
    rewrite <- Hv in Hmin.
    cbn [Game10.visited Game10.noted]. case_bool_decide as Hvis.
    + destruct (backtrack_spec (Game10.noted self)) as [[Hlen (p & Hp & ->)]|[Hlen ->]];
        change (Game10.path (Game10.noted self)) with (Game10.path self) in *.
      * eexists _, _. split; [done|]. apply Game10.tick_back; try done.
        right. exists n. done.
      * eexists _, _. split; [done|]. apply Game10.tick_stuck; try done.
        right. exists n. done.
    + eexists _, _. split; [done|]. by apply Game10.tick_move.
Qed.

Lemma filter_length_le {A} (P Q : A → Prop) `{!∀ x, Decision (P x)}
    `{!∀ x, Decision (Q x)} (l : list A) :
  (∀ x, P x → Q x) → (length (filter P l) ≤ length (filter Q l))%nat.
Proof.
  intros HPQ. induction l as [|x l IH]; [done|].
  rewrite !filter_cons. destruct (decide (P x)) as [HP|HP].
  - rewrite decide_True by auto. simpl. lia.
  - destruct (decide (Q x)); simpl; lia.
Qed.

Lemma filter_length_lt {A} (P Q : A → Prop) `{!∀ x, Decision (P x)}
    `{!∀ x, Decision (Q x)} (l : list A) x :
  (∀ x, P x → Q x) → x ∈ l → Q x → ¬ P x →
  (length (filter P l) < length (filter Q l))%nat.
Proof.
  intros HPQ Hin HQ HP. induction l as [|y l IH]; [by apply elem_of_nil in Hin|].
  rewrite !filter_cons. apply elem_of_cons in Hin as [<-|Hin].
  - rewrite decide_False, decide_True by done. simpl.
    pose proof (filter_length_le P Q l HPQ). lia.
  - specialize (IH Hin). destruct (decide (P y)) as [HPy|HPy].
    + rewrite decide_True by auto. simpl. lia.
    + destruct (decide (Q y)); simpl; lia.
Qed.

Lemma open_in_open_cells c :
  Open c → c ∈ open_cells GRID_WIDTH GRID_HEIGHT maze.
Proof.
  intros Hc. unfold open_cells. apply list_elem_of_filter. split; [done|].
  apply elem_of_grid_cells. apply Hc.
Qed.

Local Abbreviation Effort := (Game10.effort GRID_WIDTH GRID_HEIGHT maze).

(** A tick of a moving agent ends the episode or lowers the effort. *)
Lemma tick_effort self barriers self' out :
  Tick self barriers self' out → Game10.fsm self = Game10.MOVING →
  (Game10.fsm self' = Game10.GOAL_REACHED ∨ Game10.stuck out) ∨
  (Game10.fsm self' = Game10.MOVING ∧ (Effort self' < Effort self)%nat).
Proof.
  intros Htick Hfsm.
  destruct Htick as [Hidle|_ Hgoal|n _ Hne Hmin Hfresh|reason p _ Hne Hblk Hlen Hp
                    |reason _ Hne Hblk Hlen].
  - done.
  - left. by left.
  - right. split; [done|]. unfold Game10.effort. simpl.
    rewrite length_app. simpl.
    assert (Hopen : Open n).
    { eapply viable_open, py_min_elem, Hmin. }
    pose proof (filter_length_lt
      (λ c, c ∉ (Game10.visited self ++ [Game10.position self]) ++ [n])
      (λ c, c ∉ Game10.visited self ++ [Game10.position self])
      (open_cells GRID_WIDTH GRID_HEIGHT maze) n) as Hlt.
    cbv beta in Hlt.
    assert (Hno : ¬ (n ∉ (Game10.visited self ++ [Game10.position self]) ++ [n])).
    { intros Hn. apply Hn. apply elem_of_app. right. by left. }
    specialize (Hlt ltac:(intros x Hx Hx'; apply Hx, elem_of_app; by left)
                    (open_in_open_cells _ Hopen) Hfresh Hno).
    lia.
  - right. split; [done|]. unfold Game10.effort. simpl.
    pose proof (filter_length_le
      (λ c, c ∉ (Game10.visited self ++ [Game10.position self]) ++ [p])
      (λ c, c ∉ Game10.visited self ++ [Game10.position self])
      (open_cells GRID_WIDTH GRID_HEIGHT maze)) as Hle.
    cbv beta in Hle.
    specialize (Hle ltac:(intros x Hx Hx'; apply Hx, elem_of_app; by left)).
    assert (length (removelast (Game10.path self)) = length (Game10.path self) - 1)%nat.
    { destruct (Game10.path self) as [|x l] using rev_ind; [done|].
      rewrite removelast_last, length_app. simpl. lia. }
    lia.
  - left. right. unfold Game10.stuck. apply elem_of_cons. right. by left.
Qed.

(** After [k] ticks either an earlier tick was terminal, or the agent is
    still moving and has used up [k] units of effort. *)
Lemma run_progress sched self0 k :
  Game10.fsm self0 = Game10.MOVING →
  (∃ j self log out, (1 ≤ j ≤ k)%nat ∧
     Run j sched self0 = inr (self, log ++ [out]) ∧
     (Game10.fsm self = Game10.GOAL_REACHED ∨ Game10.stuck out)) ∨
  (∃ self log, Run k sched self0 = inr (self, log) ∧
     Game10.fsm self = Game10.MOVING ∧ (Effort self + k ≤ Effort self0)%nat).
Proof.
  intros Hfsm0. induction k as [|k IH].
  - right. exists self0, []. split; [done|]. split; [done|lia].
  - destruct IH as [(j & self & log & out & Hj & Hrun & Hterm)|
                    (self & log & Hrun & Hfsm & Heff)].
    + left. exists j, self, log, out. split; [lia|done].
    + destruct (update_tick self (sched k)) as (self' & out & Hupd & Htick).
      assert (Hrun' : Run (S k) sched self0 = inr (self', log ++ [out])).
      { simpl. by rewrite Hrun, Hupd. }
      destruct (tick_effort _ _ _ _ Htick Hfsm) as [Hterm|[Hfsm' Hlt]].
      * left. exists (S k), self', log, out. split; [lia|done].
      * right. exists self', (log ++ [out]). split; [done|]. split; [done|lia].
Qed.
(** The planner of [game10.py] ends an episode within twice the number of
    Open cells, whatever the barriers do at each tick. *)
Lemma game10_terminates start goal sched :
  Open start →
  ∃ j self log out,
    (1 ≤ j ≤ 2 * length (open_cells GRID_WIDTH GRID_HEIGHT maze))%nat ∧
    Run j sched (Game10.new start goal) = inr (self, log ++ [out]) ∧
    (Game10.fsm self = Game10.GOAL_REACHED ∨ Game10.stuck out).
Proof.
  intros Hstart.
  set (cells := open_cells GRID_WIDTH GRID_HEIGHT maze).
  assert (Hinit : (Effort (Game10.new start goal) + 1 ≤ 2 * length cells)%nat).
  { unfold Game10.effort. simpl.
    pose proof (filter_length_lt (λ c, c ∉ [start]) (λ _, True) cells start) as Hlt.
    cbv beta in Hlt.
    specialize (Hlt ltac:(done) (open_in_open_cells _ Hstart) I
                    ltac:(intros Hn; apply Hn; by left)).
    assert (Hall : filter (λ _ : cell, True) cells = cells).
    { clear. induction cells as [|x l IH]; [done|].
      rewrite filter_cons, decide_True by done. by rewrite IH. }
    rewrite Hall in Hlt. fold cells. lia. }
  destruct (run_progress sched (Game10.new start goal)
              (Effort (Game10.new start goal)) eq_refl)
    as [(j & self & log & out & Hj & Hrun & Hterm)|(self & log & Hrun & Hfsm & Heff)].
  - exists j, self, log, out. split; [lia|done].
  - destruct (update_tick self (sched (Effort (Game10.new start goal))))
      as (self' & out & Hupd & Htick).
    exists (S (Effort (Game10.new start goal))), self', log, out.
    split; [lia|]. split; [simpl; by rewrite Hrun, Hupd|].
    destruct (tick_effort _ _ _ _ Htick Hfsm) as [Hterm|[_ Hlt]]; [done|lia].
Qed.

(** The cell [update] selects in [game10.py]: the first viable neighbour, in
    the order left, right, up, down, that minimises Manhattan distance to
    the goal plus learned cost.  The agent moves there and raises the cost
    of the cell by one, unless the cell was visited, in which case the tick
    backtracks. *)
Lemma game10_selects_first_minimum self barriers :
  Game10.fsm self = Game10.MOVING →
  Game10.position self ≠ Game10.goal self →
  Viable (Game10.position self) barriers ≠ [] →
  ∃ n before after,
    Viable (Game10.position self) barriers = before ++ n :: after ∧
    (∀ m, m ∈ before → Game10.cost self n < Game10.cost self m) ∧
    (∀ m, m ∈ after → Game10.cost self n ≤ Game10.cost self m) ∧
    (∃ d, d ∈ offsets ∧ n = shift (Game10.position self) d) ∧
    Open n ∧ (n ∉ barriers) ∧
    ∃ self' out, Update self barriers = inr (self', out) ∧
      Game10.visited self' = Game10.visited self ++ [Game10.position self] ∧
      Game10.fsm self' = Game10.MOVING ∧
      Game10.goal self' = Game10.goal self ∧
      (((n ∉ Game10.visited self ++ [Game10.position self]) ∧ out = [] ∧
        Game10.position self' = n ∧
        Game10.previous_position self' = Some (Game10.position self) ∧
        Game10.path self' = Game10.path self ++ [n] ∧
        Game10.cell_costs self' =
          <[n := default 0 (Game10.cell_costs self !! n) + 1]> (Game10.cell_costs self)) ∨
       ((n ∈ Game10.visited self ++ [Game10.position self]) ∧
        head out = Some (Game10.msg_revisiting n) ∧
        Game10.previous_position self' = Game10.previous_position self ∧
        Game10.cell_costs self' = Game10.cell_costs self ∧
        (Game10.path self' = removelast (Game10.path self) ∨
         Game10.path self' = Game10.path self))).
Proof.
  intros Hfsm Hne Hviable.
  destruct (py_min (Game10.cost self) (Viable (Game10.position self) barriers))
    as [n|] eqn:Hmin; [|by apply py_min_None in Hmin].
  destruct (py_min_spec _ _ _ Hmin) as (before & after & Hsplit & Hb & Ha).
  pose proof (py_min_elem _ _ _ Hmin) as Hin.
  exists n, before, after. split_and!; [done|done|done| | | |].
  { eapply viable_adjacent, Hin. }
  { eapply viable_open, Hin. }
  { unfold Game10.viable in Hin. by apply list_elem_of_filter in Hin as [? _]. }
  destruct (update_tick self barriers) as (self' & out & Hupd & Htick).
  exists self', out. split; [done|].
  assert (Hsel : ∀ reason, Game10.blocked GRID_WIDTH GRID_HEIGHT maze
            (Game10.noted self) barriers reason →
            (n ∈ Game10.visited self ++ [Game10.position self]) ∧
            reason = Game10.msg_revisiting n).
  { intros reason [[Hnil _]|(n' & Hmin' & Hvis & ->)]; [done|].
    cbn [Game10.noted Game10.position] in Hmin'.
    change (Game10.cost (Game10.noted self)) with (Game10.cost self) in Hmin'.
    rewrite Hmin in Hmin'. by injection Hmin' as <-. }
  destruct Htick as [Hidle|_ Hgoal|n' _ _ Hmin' Hfresh|reason p _ _ Hblk Hlen Hp
                    |reason _ _ Hblk Hlen]; [done|done| | |].
  - rewrite Hmin in Hmin'. injection Hmin' as <-.
    split_and!; [done|done|done|]. left. done.
  - destruct (Hsel _ Hblk) as [Hvis ->].
    split_and!; [done|done|done|]. right. split_and!; [done|done|done|done|by left].
  - destruct (Hsel _ Hblk) as [Hvis ->].
    split_and!; [done|done|done|]. right. split_and!; [done|done|done|done|by right].
Qed.

(** With no viable neighbour the planner of [game10.py] pops the last cell
    off a path of more than one cell and stands on the new last cell; on a
    path of one cell it prints Stuck and stays. *)
Lemma game10_backtracks_or_prints_stuck self barriers :
  Game10.fsm self = Game10.MOVING →
  Game10.position self ≠ Game10.goal self →
  Viable (Game10.position self) barriers = [] →
  ∃ self' out, Update self barriers = inr (self', out) ∧
    Game10.visited self' = Game10.visited self ++ [Game10.position self] ∧
    Game10.fsm self' = Game10.MOVING ∧
    Game10.goal self' = Game10.goal self ∧
    Game10.previous_position self' = Game10.previous_position self ∧
    Game10.cell_costs self' = Game10.cell_costs self ∧
    (((1 < length (Game10.path self))%nat ∧
      out = [Game10.msg_no_neighbors (Game10.position self)] ∧
      (∃ c, Game10.path self = Game10.path self' ++ [c]) ∧
      last (Game10.path self') = Some (Game10.position self')) ∨
     ((length (Game10.path self) ≤ 1)%nat ∧
      out = [Game10.msg_no_neighbors (Game10.position self); Game10.msg_stuck] ∧
      Game10.path self' = Game10.path self ∧
      Game10.position self' = Game10.position self)).
Proof.
  intros Hfsm Hne Hnil.
  destruct (update_tick self barriers) as (self' & out & Hupd & Htick).
  exists self', out. split; [done|].
  assert (Hreason : ∀ reason, Game10.blocked GRID_WIDTH GRID_HEIGHT maze
            (Game10.noted self) barriers reason →
            reason = Game10.msg_no_neighbors (Game10.position self)).
  { intros reason [[_ ->]|(n & Hmin & _)]; [done|].
    simpl in Hmin. rewrite Hnil in Hmin. done. }
  destruct Htick as [Hidle|_ Hgoal|n' _ _ Hmin' Hfresh|reason p _ _ Hblk Hlen Hp
                    |reason _ _ Hblk Hlen]; [done|done| | |].
  - rewrite Hnil in Hmin'. done.
  - rewrite (Hreason _ Hblk).
    split_and!; [done|done|done|done|done|]. left.
    split_and!; [done|done| |done].
    cbn [Game10.path Game10.retreated].
    destruct (Game10.path self) as [|c l _] using rev_ind; [simpl in Hlen; lia|].
    exists c. by rewrite removelast_last.
  - rewrite (Hreason _ Hblk).
    split_and!; [done|done|done|done|done|]. right. done.
Qed.

Lemma tick_path self barriers self' out start :
  Tick self barriers self' out →
  head (Game10.path self) = Some start →
  last (Game10.path self) = Some (Game10.position self) →
  head (Game10.path self') = Some start ∧
  last (Game10.path self') = Some (Game10.position self') ∧
  (Game10.path self' = Game10.path self ∨
   Game10.path self' = Game10.path self ++ [Game10.position self'] ∨
   ((1 < length (Game10.path self))%nat ∧
    Game10.path self' = removelast (Game10.path self))).
Proof.
  intros Htick Hhead Hlast.
  destruct Htick as [Hidle|_ Hgoal|n _ Hne Hmin Hfresh|reason p _ Hne Hblk Hlen Hp
                    |reason _ Hne Hblk Hlen]; simpl.
  - split_and!; [done|done|by left].
  - split_and!; [done|done|by left].
  - split_and!; [|by rewrite last_snoc|right; by left].
    destruct (Game10.path self); [done|]. done.
  - split_and!; [|done|right; right; done].
    destruct (Game10.path self) as [|x [|y l]]; simpl in *; [lia|lia|done].
  - split_and!; [done|done|by left].
Qed.

(** In [game10.py] the path always starts with the start cell and ends
    with the agent's position. *)
Lemma game10_path_keeps_start start goal sched k :
  ∃ self log, Run k sched (Game10.new start goal) = inr (self, log) ∧
    head (Game10.path self) = Some start ∧
    last (Game10.path self) = Some (Game10.position self) ∧
    ∀ barriers, ∃ self' out, Update self barriers = inr (self', out) ∧
      (Game10.path self' = Game10.path self ∨
       Game10.path self' = Game10.path self ++ [Game10.position self'] ∨
       ((1 < length (Game10.path self))%nat ∧
        Game10.path self' = removelast (Game10.path self))).
Proof.
  assert (Hrun : ∃ self log, Run k sched (Game10.new start goal) = inr (self, log) ∧
    head (Game10.path self) = Some start ∧
    last (Game10.path self) = Some (Game10.position self)).
  { induction k as [|k (self & log & Hrun & Hhead & Hlast)].
    - exists (Game10.new start goal), []. done.
    - destruct (update_tick self (sched k)) as (self' & out & Hupd & Htick).
      exists self', (log ++ [out]). simpl. rewrite Hrun, Hupd. split; [done|].
      destruct (tick_path _ _ _ _ _ Htick Hhead Hlast) as (? & ? & _). done. }
  destruct Hrun as (self & log & Hrun & Hhead & Hlast).
  exists self, log. split_and!; [done..|].
  intros barriers.
  destruct (update_tick self barriers) as (self' & out & Hupd & Htick).
  exists self', out. split; [done|].
  by destruct (tick_path _ _ _ _ _ Htick Hhead Hlast) as (_ & _ & ?).
Qed.

(** X7. In [game10.py] one call of [update] moves the agent at most one
    cell: it stays where it is, steps to a 4-neighbour, or goes back to the
    previous element of its path. *)
Lemma game10_single_step self barriers self' out :
  Update self barriers = inr (self', out) →
  last (Game10.path self) = Some (Game10.position self) →
  Game10.single_step (Game10.position self) (Game10.path self)
    (Game10.position self').
Proof.
  intros Hupd Hlast.
  destruct (update_tick self barriers) as (self'' & out' & Hupd' & Htick).
  assert (self'' = self') as -> by congruence. clear Hupd Hupd'.
  destruct Htick as [Hidle|_ Hgoal|n _ Hne Hmin Hfresh|reason p _ Hne Hblk Hlen Hp
                    |reason _ Hne Hblk Hlen]; simpl.
  - by left.
  - by left.
  - right. left. eapply viable_adjacent, py_min_elem, Hmin.
  - right. right.
    destruct (Game10.path self) as [|x l _] using rev_ind; [done|].
    rewrite last_snoc in Hlast. injection Hlast as ->.
    rewrite removelast_last in Hp.
    destruct l as [|y l _] using rev_ind; [done|].
    rewrite last_snoc in Hp. injection Hp as ->.
    exists l. by rewrite <- app_assoc.
  - by left.
Qed.
End PlannerProofs.

(** ** The incremental planner of [lrtastar.py] *)

Section LrtaProofs.
Variables GRID_WIDTH GRID_HEIGHT : Z.

Local Abbreviation InGrid c := (0 ≤ c.1 < GRID_WIDTH ∧ 0 ≤ c.2 < GRID_HEIGHT).

Lemma lrta_rect_lookup maze c :
  rect GRID_WIDTH GRID_HEIGHT maze → InGrid c →
  ∃ row v, maze !! Z.to_nat c.2 = Some row ∧ row !! Z.to_nat c.1 = Some v ∧
           maze_at maze c = Some v.
Proof.
  intros [Hh Hw] [Hx Hy]. unfold maze_at, py_get.
  rewrite bool_decide_eq_true_2 by lia.
  destruct (lookup_lt_is_Some_2 maze (Z.to_nat c.2)) as [row Hrow]; [lia|].
  rewrite Hrow. simpl. rewrite Forall_forall in Hw.
  assert (Hlen : Z.of_nat (length row) = GRID_WIDTH).
  { apply Hw. eapply list_elem_of_lookup_2. done. }
  rewrite bool_decide_eq_true_2 by lia.
  destruct (lookup_lt_is_Some_2 row (Z.to_nat c.1)) as [v Hv]; [lia|].
  exists row, v. done.
Qed.

(** Assigning to a cell inside the grid succeeds, keeps the shape of the
    maze and changes that cell only. *)
Lemma maze_set_spec maze c v :
  rect GRID_WIDTH GRID_HEIGHT maze → InGrid c →
  ∃ maze', Lrtastar.maze_set maze c v = Some maze' ∧
    rect GRID_WIDTH GRID_HEIGHT maze' ∧
    maze_at maze' c = Some v ∧
    ∀ c', InGrid c' → c' ≠ c → maze_at maze' c' = maze_at maze c'.
Proof.
  intros Hrect Hc.
  destruct (lrta_rect_lookup maze c Hrect Hc) as (row & v0 & Hrow & Hv0 & _).
  destruct Hrect as [Hh Hw]. destruct Hc as [Hx Hy].
  assert (Hlen : Z.of_nat (length row) = GRID_WIDTH).
  { rewrite Forall_forall in Hw. apply Hw. eapply list_elem_of_lookup_2. done. }
  unfold Lrtastar.maze_set, py_get, Lrtastar.py_set.
  rewrite (bool_decide_eq_true_2 (0 ≤ c.2)) by lia. rewrite Hrow. simpl.
  rewrite (bool_decide_eq_true_2 (0 ≤ c.1)) by lia.
  rewrite (bool_decide_eq_true_2 (c.1 < _)) by lia. simpl.
  rewrite (bool_decide_eq_true_2 (c.2 < _)) by lia.
  eexists. split; [done|]. split_and!.
  - split; [by rewrite length_insert|].
    apply Forall_insert; [done|]. by rewrite length_insert.
  - unfold maze_at, py_get. rewrite bool_decide_eq_true_2 by lia.
    rewrite list_lookup_insert_eq by lia. simpl.
    rewrite bool_decide_eq_true_2 by lia. simpl.
    rewrite list_lookup_insert_eq by lia. done.
  - intros c' [Hx' Hy'] Hne. unfold maze_at, py_get.
    rewrite !(bool_decide_eq_true_2 (0 ≤ c'.2)) by lia.
    destruct (decide (Z.to_nat c'.2 = Z.to_nat c.2)) as [Heq|Hneq].
    + rewrite Heq, list_lookup_insert_eq, Hrow by lia. simpl.
      rewrite !(bool_decide_eq_true_2 (0 ≤ c'.1)) by lia.
      rewrite list_lookup_insert_ne; [done|].
      intros Heq'. apply Hne. destruct c, c'. simpl in *. f_equal; lia.
    + by rewrite list_lookup_insert_ne.
Qed.

Lemma lrta_probe_all_spec maze pos ds :
  rect GRID_WIDTH GRID_HEIGHT maze → ∀ acc,
  Lrtastar.probe_all GRID_WIDTH GRID_HEIGHT maze pos acc ds =
  inr (acc ++ filter (is_open GRID_WIDTH GRID_HEIGHT maze) (shift pos <$> ds)).
Proof.
  intros Hrect. induction ds as [|d ds IH]; intros acc; cbn [Lrtastar.probe_all].
  - by rewrite fmap_nil, filter_nil, app_nil_r.
  - assert (Lrtastar.probe GRID_WIDTH GRID_HEIGHT maze pos acc d =
            inr (acc ++ filter (is_open GRID_WIDTH GRID_HEIGHT maze) [shift pos d]))
      as ->.
    { unfold Lrtastar.probe. rewrite filter_cons, filter_nil.
      case_bool_decide as Hx; [case_bool_decide as Hy|].
      - destruct (lrta_rect_lookup maze (shift pos d) Hrect (conj Hx Hy))
          as (row & v & _ & _ & Hv). rewrite Hv.
        case_bool_decide as Hv0.
        + subst v. rewrite decide_True; [done|]. by split.
        + rewrite decide_False; [by rewrite app_nil_r|].
          intros [_ Ho]. congruence.
      - rewrite decide_False; [by rewrite app_nil_r|]. intros [[_ ?] _]. done.
      - rewrite decide_False; [by rewrite app_nil_r|]. intros [[? _] _]. done. }
    rewrite IH, fmap_cons, !filter_cons, filter_nil.
    destruct (decide (is_open GRID_WIDTH GRID_HEIGHT maze (shift pos d)));
      by rewrite <- ?app_assoc, ?app_nil_r.
Qed.

Lemma lrta_backtrack_spec self :
  ((1 < length (Lrtastar.path self))%nat ∧
   ∃ p, last (removelast (Lrtastar.path self)) = Some p ∧
        Lrtastar.backtrack self =
        inr (Lrtastar.retreated self (removelast (Lrtastar.path self)) p, [])) ∨
  ((length (Lrtastar.path self) ≤ 1)%nat ∧
   Lrtastar.backtrack self = inr (self, [Lrtastar.msg_stuck])).
Proof.
  unfold Lrtastar.backtrack. case_bool_decide as Hlen.
  - left. split; [done|].
    assert (Hne : removelast (Lrtastar.path self) ≠ []).
    { destruct (Lrtastar.path self) as [|x [|y l]]; simpl in *; [lia|lia|done]. }
    rewrite py_get_last by done.
    destruct (last (removelast (Lrtastar.path self))) as [p|] eqn:Hlast.
    + exists p. done.
    + apply last_None in Hlast. done.
  - right. split; [lia|done].
Qed.
Local Abbreviation Steady := (Lrtastar.steady GRID_WIDTH GRID_HEIGHT).
Local Abbreviation LEffort := (Lrtastar.effort GRID_WIDTH GRID_HEIGHT).

Lemma steady_position maze0 maze self :
  Steady maze0 maze self → InGrid (Lrtastar.position self).
Proof.
  intros (_ & Hlast & Hpath & _). apply Hpath.
  destruct (Lrtastar.path self) as [|x l _] using rev_ind; [done|].
  rewrite last_snoc in Hlast. injection Hlast as <-.
  apply elem_of_app. right. by left.
Qed.

Lemma removelast_elem {A} (l : list A) x : x ∈ removelast l → x ∈ l.
Proof.
  destruct l as [|y l _] using rev_ind; [done|].
  rewrite removelast_last. intros Hx. apply elem_of_app. by left.
Qed.

Lemma length_removelast {A} (l : list A) :
  length (removelast l) = (length l - 1)%nat.
Proof.
  destruct l as [|y l _] using rev_ind; [done|].
  rewrite removelast_last, length_app. simpl. lia.
Qed.

Lemma steady_frame maze0 maze maze' self self' :
  Steady maze0 maze self →
  (∀ c, InGrid c → c ≠ Lrtastar.position self → maze_at maze' c = maze_at maze c) →
  (∀ c, c ∈ Lrtastar.visited self ++ [Lrtastar.position self] →
        c ∈ Lrtastar.visited self' ++ [Lrtastar.position self']) →
  ∀ c, 0 ≤ c.1 < GRID_WIDTH → 0 ≤ c.2 < GRID_HEIGHT →
       c ∉ Lrtastar.visited self' ++ [Lrtastar.position self'] →
       maze_at maze' c = maze_at maze0 c.
Proof.
  intros (_ & _ & _ & Hframe) Hsame Hsub c Hx Hy Hc.
  assert (Hc' : c ∉ Lrtastar.visited self ++ [Lrtastar.position self]).
  { intros ?. by apply Hc, Hsub. }
  rewrite Hsame; [by apply Hframe|done|].
  intros ->. apply Hc', elem_of_app. right. by left.
Qed.

(** One tick of a moving agent: [update] raises nothing and keeps the agent
    steady; the tick reaches the goal, prints Stuck, or leaves less effort.
    The path keeps its first cell throughout. *)
Lemma lrta_step maze0 maze self :
  Steady maze0 maze self → Lrtastar.fsm self = Lrtastar.MOVING →
  ∃ maze' self' out,
    Lrtastar.update GRID_WIDTH GRID_HEIGHT maze self = inr (maze', self', out) ∧
    head (Lrtastar.path self') = head (Lrtastar.path self) ∧
    (Lrtastar.path self' = Lrtastar.path self ∨
     Lrtastar.path self' = Lrtastar.path self ++ [Lrtastar.position self'] ∨
     ((1 < length (Lrtastar.path self))%nat ∧
      Lrtastar.path self' = removelast (Lrtastar.path self))) ∧
    Steady maze0 maze' self' ∧
    ((Lrtastar.fsm self' = Lrtastar.GOAL_REACHED ∨ Lrtastar.stuck out) ∨
     (Lrtastar.fsm self' = Lrtastar.MOVING ∧
      (LEffort maze0 self' < LEffort maze0 self)%nat)).
Proof.
  intros Hsteady Hfsm. pose proof (steady_position _ _ _ Hsteady) as Hpos.
  pose proof Hsteady as (Hrect & Hlast & Hpath & Hframe).
  unfold Lrtastar.update. rewrite Hfsm.
  cbn [Lrtastar.goal Lrtastar.position Lrtastar.visited Lrtastar.noted].
  assert (Hgrow : ∀ c p,
    c ∈ Lrtastar.visited self ++ [Lrtastar.position self] →
    c ∈ (Lrtastar.visited self ++ [Lrtastar.position self]) ++ [p]).
  { intros c p Hc. apply elem_of_app. by left. }
  case_bool_decide as Hgoal.
  { eexists _, _, _. split; [done|]. split_and!; [done|by left| |left; by left].
    split_and!; [done|done|done|].
    eapply (steady_frame maze0 maze maze self); [done|done|].
    intros c. apply Hgrow. }
  unfold Lrtastar.get_neighbors. rewrite lrta_probe_all_spec by done.
  rewrite app_nil_l.
  assert (Hback : ∀ maze' reason,
    rect GRID_WIDTH GRID_HEIGHT maze' →
    (∀ c, InGrid c → c ≠ Lrtastar.position self → maze_at maze' c = maze_at maze c) →
    ∃ self' out,
      match Lrtastar.backtrack (Lrtastar.noted self) with
      | inl e => inl e
      | inr (self', out) => inr (maze', self', reason :: out)
      end = inr (maze', self', out) ∧
      head (Lrtastar.path self') = head (Lrtastar.path self) ∧
      (Lrtastar.path self' = Lrtastar.path self ∨
       Lrtastar.path self' = Lrtastar.path self ++ [Lrtastar.position self'] ∨
       ((1 < length (Lrtastar.path self))%nat ∧
        Lrtastar.path self' = removelast (Lrtastar.path self))) ∧
      Steady maze0 maze' self' ∧
      ((Lrtastar.fsm self' = Lrtastar.GOAL_REACHED ∨ Lrtastar.stuck out) ∨
       (Lrtastar.fsm self' = Lrtastar.MOVING ∧
        (LEffort maze0 self' < LEffort maze0 self)%nat))).
  { intros maze' reason Hrect' Hsame.
    destruct (lrta_backtrack_spec (Lrtastar.noted self))
      as [[Hlen (p & Hp & ->)]|[Hlen ->]];
      cbn [Lrtastar.path Lrtastar.noted] in *.
    - eexists _, _. split; [done|]. cbn [Lrtastar.retreated Lrtastar.path
        Lrtastar.position Lrtastar.fsm Lrtastar.visited Lrtastar.noted].
      split_and!; [|right; right; done| |].
      { destruct (Lrtastar.path self) as [|x [|y l]]; simpl in *; [lia|lia|done]. }
      + split_and!; [done|done| |].
        * intros c Hc. by apply Hpath, removelast_elem.
        * eapply (steady_frame maze0 maze maze' self); [done|done|].
          intros c. apply Hgrow.
      + right. split; [done|].
        unfold Lrtastar.effort. cbn [Lrtastar.retreated Lrtastar.visited
          Lrtastar.position Lrtastar.path Lrtastar.noted].
        pose proof (filter_length_le
          (λ c, c ∉ (Lrtastar.visited self ++ [Lrtastar.position self]) ++ [p])
          (λ c, c ∉ Lrtastar.visited self ++ [Lrtastar.position self])
          (open_cells GRID_WIDTH GRID_HEIGHT maze0)) as Hle.
        cbv beta in Hle.
        specialize (Hle ltac:(intros x Hx Hx'; apply Hx, elem_of_app; by left)).
        rewrite length_removelast. lia.
    - eexists _, _. split; [done|]. split_and!; [done|by left| |].
      + split_and!; [done|done|done|].
        eapply (steady_frame maze0 maze maze' self); [done|done|].
        intros c. apply Hgrow.
      + left. right. unfold Lrtastar.stuck. apply elem_of_cons. right. by left. }
  destruct (filter _ _) as [|v vs] eqn:Hnbrs.
  { destruct (Hback maze (Lrtastar.msg_no_neighbors (Lrtastar.position self)))
      as (self' & out & Heq & H'); [done|done|].
    exists maze, self', out. done. }
  destruct (py_min _ (v :: vs)) as [n|] eqn:Hmin; [|done].
  rewrite <- Hnbrs in Hmin.
  unfold Lrtastar.update_heuristic. cbn [Lrtastar.goal Lrtastar.noted].
  destruct (maze_set_spec maze (Lrtastar.position self)
              (Z.min (Lrtastar.heuristic (Lrtastar.position self) (Lrtastar.goal self))
                     (Lrtastar.heuristic n (Lrtastar.goal self))) Hrect Hpos)
    as (maze' & -> & Hrect' & _ & Hsame).
  case_bool_decide as Hvis.
  { destruct (Hback maze' (Lrtastar.msg_revisiting n))
      as (self' & out & Heq & H'); [done|done|].
    exists maze', self', out. done. }
  apply py_min_elem, list_elem_of_filter in Hmin as [Hopen _].
  eexists _, _, _. split; [done|].
  cbn [Lrtastar.path Lrtastar.position Lrtastar.fsm Lrtastar.moved Lrtastar.noted].
  split_and!; [|right; by left| |].
  { destruct (Lrtastar.path self); [done|]. done. }
  - split_and!; [done|apply last_snoc| |].
    + intros c [Hc|Hc]%elem_of_app; [by apply Hpath|].
      apply list_elem_of_singleton in Hc as ->. apply Hopen.
    + eapply (steady_frame maze0 maze maze' self); [done|done|].
      intros c. apply Hgrow.
  - right. split; [done|]. unfold Lrtastar.effort.
    cbn [Lrtastar.visited Lrtastar.position Lrtastar.path Lrtastar.moved Lrtastar.noted].
    rewrite length_app. simpl.
    assert (Hopen0 : is_open GRID_WIDTH GRID_HEIGHT maze0 n).
    { destruct Hopen as [[Hx Hy] Hv]. split; [done|].
      rewrite <- (Hframe n Hx Hy Hvis). done. }
    pose proof (filter_length_lt
      (λ c, c ∉ (Lrtastar.visited self ++ [Lrtastar.position self]) ++ [n])
      (λ c, c ∉ Lrtastar.visited self ++ [Lrtastar.position self])
      (open_cells GRID_WIDTH GRID_HEIGHT maze0) n) as Hlt.
    cbv beta in Hlt.
    assert (Hno : ¬ (n ∉ (Lrtastar.visited self ++ [Lrtastar.position self]) ++ [n])).
    { intros Hn. apply Hn. apply elem_of_app. right. by left. }
    assert (Hin : n ∈ open_cells GRID_WIDTH GRID_HEIGHT maze0).
    { apply list_elem_of_filter. split; [done|].
      apply elem_of_grid_cells. apply Hopen0. }
    specialize (Hlt ltac:(intros x Hx Hx'; apply Hx, elem_of_app; by left)
                    Hin Hvis Hno).
    lia.
Qed.

Local Abbreviation LRun := (Lrtastar.run GRID_WIDTH GRID_HEIGHT).

Lemma lrta_new_steady maze0 start goal :
  rect GRID_WIDTH GRID_HEIGHT maze0 → InGrid start →
  Steady maze0 maze0 (Lrtastar.new start goal).
Proof.
  intros Hrect Hstart. split_and!; [done|done| |done].
  intros c Hc. by apply list_elem_of_singleton in Hc as ->.
Qed.

Lemma lrta_run_progress maze0 self0 k :
  Steady maze0 maze0 self0 → Lrtastar.fsm self0 = Lrtastar.MOVING →
  (∃ j maze self log out, (1 ≤ j ≤ k)%nat ∧
     LRun j maze0 self0 = inr (maze, self, log ++ [out]) ∧
     (Lrtastar.fsm self = Lrtastar.GOAL_REACHED ∨ Lrtastar.stuck out)) ∨
  (∃ maze self log, LRun k maze0 self0 = inr (maze, self, log) ∧
     Lrtastar.fsm self = Lrtastar.MOVING ∧ Steady maze0 maze self ∧
     (LEffort maze0 self + k ≤ LEffort maze0 self0)%nat).
Proof.
  intros Hsteady0 Hfsm0. induction k as [|k IH].
  - right. exists maze0, self0, []. split; [done|]. split_and!; [done|done|lia].
  - destruct IH as [(j & maze & self & log & out & Hj & Hrun & Hterm)|
                    (maze & self & log & Hrun & Hfsm & Hsteady & Heff)].
    + left. exists j, maze, self, log, out. split; [lia|done].
    + destruct (lrta_step maze0 maze self Hsteady Hfsm)
        as (maze' & self' & out & Hupd & _ & _ & Hsteady' & Hcase).
      assert (Hrun' : LRun (S k) maze0 self0 = inr (maze', self', log ++ [out])).
      { simpl. by rewrite Hrun, Hupd. }
      destruct Hcase as [Hterm|[Hfsm' Hlt]].
      * left. exists (S k), maze', self', log, out. split; [lia|done].
      * right. exists maze', self', (log ++ [out]).
        split; [done|]. split_and!; [done|done|lia].
Qed.

(** The planner of [lrtastar.py] ends an episode within twice the number of
    cells that were Open when it began. *)
Lemma lrta_terminates maze0 start goal :
  rect GRID_WIDTH GRID_HEIGHT maze0 →
  is_open GRID_WIDTH GRID_HEIGHT maze0 start →
  ∃ j maze self log out,
    (1 ≤ j ≤ 2 * length (open_cells GRID_WIDTH GRID_HEIGHT maze0))%nat ∧
    LRun j maze0 (Lrtastar.new start goal) = inr (maze, self, log ++ [out]) ∧
    (Lrtastar.fsm self = Lrtastar.GOAL_REACHED ∨ Lrtastar.stuck out).
Proof.
  intros Hrect Hstart.
  set (cells := open_cells GRID_WIDTH GRID_HEIGHT maze0).
  assert (Hinit : (LEffort maze0 (Lrtastar.new start goal) + 1 ≤ 2 * length cells)%nat).
  { unfold Lrtastar.effort. simpl.
    pose proof (filter_length_lt (λ c, c ∉ [start]) (λ _, True) cells start) as Hlt.
    cbv beta in Hlt.
    assert (Hin : start ∈ cells).
    { apply list_elem_of_filter. split; [done|]. apply elem_of_grid_cells, Hstart. }
    specialize (Hlt ltac:(done) Hin I ltac:(intros Hn; apply Hn; by left)).
    assert (Hall : filter (λ _ : cell, True) cells = cells).
    { clear. induction cells as [|x l IH]; [done|].
      rewrite filter_cons, decide_True by done. by rewrite IH. }
    rewrite Hall in Hlt. fold cells. lia. }
  pose proof (lrta_new_steady maze0 start goal Hrect (proj1 Hstart)) as Hsteady0.
  destruct (lrta_run_progress maze0 (Lrtastar.new start goal)
              (LEffort maze0 (Lrtastar.new start goal)) Hsteady0 eq_refl)
    as [(j & maze & self & log & out & Hj & Hrun & Hterm)|
        (maze & self & log & Hrun & Hfsm & Hsteady & Heff)].
  - exists j, maze, self, log, out. split; [lia|done].
  - destruct (lrta_step maze0 maze self Hsteady Hfsm)
      as (maze' & self' & out & Hupd & _ & _ & _ & Hcase).
    exists (S (LEffort maze0 (Lrtastar.new start goal))), maze', self', log, out.
    split; [lia|]. split; [simpl; by rewrite Hrun, Hupd|].
    destruct Hcase as [Hterm|[_ Hlt]]; [done|lia].
Qed.

(** Any call of [update] on a steady agent: nothing is raised, the agent
    stays steady and the path keeps its first cell. *)
Lemma lrta_update_steady maze0 maze self :
  Steady maze0 maze self →
  ∃ maze' self' out,
    Lrtastar.update GRID_WIDTH GRID_HEIGHT maze self = inr (maze', self', out) ∧
    head (Lrtastar.path self') = head (Lrtastar.path self) ∧
    (Lrtastar.path self' = Lrtastar.path self ∨
     Lrtastar.path self' = Lrtastar.path self ++ [Lrtastar.position self'] ∨
     ((1 < length (Lrtastar.path self))%nat ∧
      Lrtastar.path self' = removelast (Lrtastar.path self))) ∧
    Steady maze0 maze' self'.
Proof.
  intros Hsteady. destruct (Lrtastar.fsm self) eqn:Hfsm.
  - exists maze, self, []. unfold Lrtastar.update. rewrite Hfsm.
    split_and!; [done|done|by left|done].
  - destruct (lrta_step maze0 maze self Hsteady Hfsm)
      as (maze' & self' & out & Hupd & Hhead & Hshape & Hsteady' & _).
    exists maze', self', out. done.
  - exists maze, self, []. unfold Lrtastar.update. rewrite Hfsm.
    split_and!; [done|done|by left|done].
Qed.

Lemma lrta_path_keeps_start maze0 start goal k :
  rect GRID_WIDTH GRID_HEIGHT maze0 → InGrid start →
  ∃ maze self log,
    LRun k maze0 (Lrtastar.new start goal) = inr (maze, self, log) ∧
    head (Lrtastar.path self) = Some start ∧
    last (Lrtastar.path self) = Some (Lrtastar.position self) ∧
    ∃ maze' self' out,
      Lrtastar.update GRID_WIDTH GRID_HEIGHT maze self = inr (maze', self', out) ∧
      (Lrtastar.path self' = Lrtastar.path self ∨
       Lrtastar.path self' = Lrtastar.path self ++ [Lrtastar.position self'] ∨
       ((1 < length (Lrtastar.path self))%nat ∧
        Lrtastar.path self' = removelast (Lrtastar.path self))).
Proof.
  intros Hrect Hstart.
  assert (Hrun : ∃ maze self log,
    LRun k maze0 (Lrtastar.new start goal) = inr (maze, self, log) ∧
    head (Lrtastar.path self) = Some start ∧ Steady maze0 maze self).
  { induction k as [|k (maze & self & log & Hrun & Hhead & Hsteady)].
    - exists maze0, (Lrtastar.new start goal), []. split_and!; [done|done|].
      by apply lrta_new_steady.
    - destruct (lrta_update_steady maze0 maze self Hsteady)
        as (maze' & self' & out & Hupd & Hhead' & _ & Hsteady').
      exists maze', self', (log ++ [out]). simpl. rewrite Hrun, Hupd.
      split_and!; [done|congruence|done]. }
  destruct Hrun as (maze & self & log & Hrun & Hhead & Hsteady).
  exists maze, self, log. split_and!; [done|done|apply Hsteady|].
  destruct (lrta_update_steady maze0 maze self Hsteady)
    as (maze' & self' & out & Hupd & _ & Hshape & _).
  exists maze', self', out. done.
Qed.
(** The cell [update] selects in [lrtastar.py]: the first open neighbour
    inside the grid, in the order left, right, up, down, that minimises
    Manhattan distance to the goal.  No cost map and no barrier list takes
    part.  The cell the agent stands on is overwritten first; then the
    agent moves, unless the selected cell was visited, in which case the
    tick backtracks. *)
Lemma lrta_selects_first_minimum maze self :
  rect GRID_WIDTH GRID_HEIGHT maze → InGrid (Lrtastar.position self) →
  Lrtastar.fsm self = Lrtastar.MOVING →
  Lrtastar.position self ≠ Lrtastar.goal self →
  filter (is_open GRID_WIDTH GRID_HEIGHT maze)
    (shift (Lrtastar.position self) <$> offsets) ≠ [] →
  ∃ n before after,
    filter (is_open GRID_WIDTH GRID_HEIGHT maze)
      (shift (Lrtastar.position self) <$> offsets) = before ++ n :: after ∧
    (∀ m, m ∈ before →
          manhattan n (Lrtastar.goal self) < manhattan m (Lrtastar.goal self)) ∧
    (∀ m, m ∈ after →
          manhattan n (Lrtastar.goal self) ≤ manhattan m (Lrtastar.goal self)) ∧
    (∃ d, d ∈ offsets ∧ n = shift (Lrtastar.position self) d) ∧
    is_open GRID_WIDTH GRID_HEIGHT maze n ∧
    ∃ maze' self' out,
      Lrtastar.update GRID_WIDTH GRID_HEIGHT maze self = inr (maze', self', out) ∧
      Lrtastar.maze_set maze (Lrtastar.position self)
        (Z.min (manhattan (Lrtastar.position self) (Lrtastar.goal self))
               (manhattan n (Lrtastar.goal self))) = Some maze' ∧
      Lrtastar.visited self' = Lrtastar.visited self ++ [Lrtastar.position self] ∧
      Lrtastar.fsm self' = Lrtastar.MOVING ∧
      Lrtastar.goal self' = Lrtastar.goal self ∧
      (((n ∉ Lrtastar.visited self ++ [Lrtastar.position self]) ∧ out = [] ∧
        Lrtastar.position self' = n ∧
        Lrtastar.previous_position self' = Some (Lrtastar.position self) ∧
        Lrtastar.path self' = Lrtastar.path self ++ [n]) ∨
       ((n ∈ Lrtastar.visited self ++ [Lrtastar.position self]) ∧
        head out = Some (Lrtastar.msg_revisiting n) ∧
        Lrtastar.previous_position self' = Lrtastar.previous_position self ∧
        (Lrtastar.path self' = removelast (Lrtastar.path self) ∨
         Lrtastar.path self' = Lrtastar.path self))).
Proof.
  intros Hrect Hpos Hfsm Hne Hnbrs.
  set (nbrs := filter (is_open GRID_WIDTH GRID_HEIGHT maze)
                 (shift (Lrtastar.position self) <$> offsets)) in *.
  destruct (py_min (λ n, manhattan n (Lrtastar.goal self)) nbrs)
    as [n|] eqn:Hmin; [|by apply py_min_None in Hmin].
  destruct (py_min_spec _ _ _ Hmin) as (before & after & Hsplit & Hb & Ha).
  pose proof (py_min_elem _ _ _ Hmin) as Hin.
  apply list_elem_of_filter in Hin as [Hopen Hadj].
  apply list_elem_of_fmap in Hadj as (d & -> & Hd).
  exists (shift (Lrtastar.position self) d), before, after.
  split_and!; [done|done|done|by exists d|done|].
  unfold Lrtastar.update. rewrite Hfsm.
  cbn [Lrtastar.goal Lrtastar.position Lrtastar.visited Lrtastar.noted].
  rewrite bool_decide_eq_false_2 by done.
  unfold Lrtastar.get_neighbors. rewrite lrta_probe_all_spec by done.
  rewrite app_nil_l. fold nbrs.
  destruct nbrs as [|v vs] eqn:Hv; [done|].
  unfold Lrtastar.heuristic at 1. rewrite Hmin.
  unfold Lrtastar.update_heuristic, Lrtastar.heuristic.
  cbn [Lrtastar.goal Lrtastar.noted].
  destruct (maze_set_spec maze (Lrtastar.position self)
              (Z.min (manhattan (Lrtastar.position self) (Lrtastar.goal self))
                     (manhattan (shift (Lrtastar.position self) d) (Lrtastar.goal self)))
              Hrect Hpos)
    as (maze' & Hset & _).
  rewrite Hset.
  case_bool_decide as Hvis.
  - destruct (lrta_backtrack_spec (Lrtastar.noted self))
      as [[Hlen (p & Hp & ->)]|[Hlen ->]]; cbn [Lrtastar.path Lrtastar.noted] in *.
    + eexists _, _, _. split; [done|]. split_and!; [done|done|done|done|].
      right. split_and!; [done|done|done|by left].
    + eexists _, _, _. split; [done|]. split_and!; [done|done|done|done|].
      right. split_and!; [done|done|done|by right].
  - eexists _, _, _. split; [done|]. split_and!; [done|done|done|done|].
    left. done.
Qed.

(** With no open neighbour the planner of [lrtastar.py] pops the last cell
    off a path of more than one cell and stands on the new last cell; on a
    path of one cell it prints Stuck and stays.  The maze is left alone. *)
Lemma lrta_backtracks_or_prints_stuck maze self :
  rect GRID_WIDTH GRID_HEIGHT maze →
  Lrtastar.fsm self = Lrtastar.MOVING →
  Lrtastar.position self ≠ Lrtastar.goal self →
  filter (is_open GRID_WIDTH GRID_HEIGHT maze)
    (shift (Lrtastar.position self) <$> offsets) = [] →
  ∃ self' out,
    Lrtastar.update GRID_WIDTH GRID_HEIGHT maze self = inr (maze, self', out) ∧
    Lrtastar.visited self' = Lrtastar.visited self ++ [Lrtastar.position self] ∧
    Lrtastar.fsm self' = Lrtastar.MOVING ∧
    Lrtastar.goal self' = Lrtastar.goal self ∧
    Lrtastar.previous_position self' = Lrtastar.previous_position self ∧
    (((1 < length (Lrtastar.path self))%nat ∧
      out = [Lrtastar.msg_no_neighbors (Lrtastar.position self)] ∧
      (∃ c, Lrtastar.path self = Lrtastar.path self' ++ [c]) ∧
      last (Lrtastar.path self') = Some (Lrtastar.position self')) ∨
     ((length (Lrtastar.path self) ≤ 1)%nat ∧
      out = [Lrtastar.msg_no_neighbors (Lrtastar.position self); Lrtastar.msg_stuck] ∧
      Lrtastar.path self' = Lrtastar.path self ∧
      Lrtastar.position self' = Lrtastar.position self)).
Proof.
  intros Hrect Hfsm Hne Hnil. unfold Lrtastar.update. rewrite Hfsm.
  cbn [Lrtastar.goal Lrtastar.position Lrtastar.noted].
  rewrite bool_decide_eq_false_2 by done.
  unfold Lrtastar.get_neighbors. rewrite lrta_probe_all_spec by done.
  rewrite app_nil_l, Hnil.
  destruct (lrta_backtrack_spec (Lrtastar.noted self))
    as [[Hlen (p & Hp & ->)]|[Hlen ->]]; cbn [Lrtastar.path Lrtastar.noted] in *.
  - eexists _, _. split; [done|]. split_and!; [done|done|done|done|].
    left. split_and!; [done|done| |done].
    cbn [Lrtastar.path Lrtastar.retreated].
    destruct (Lrtastar.path self) as [|c l _] using rev_ind; [simpl in Hlen; lia|].
    exists c. by rewrite removelast_last.
  - eexists _, _. split; [done|]. split_and!; [done|done|done|done|].
    right. done.
Qed.
End LrtaProofs.

(** ** The incremental planners: termination, backtracking, the path *)

(** C2. On a maze of [h] rows of [w] cells, an agent that starts on an Open
    cell reaches [GOAL_REACHED] or prints the Stuck message at some tick no
    later than twice the number of Open cells: in [game10.py] whatever the
    barriers do at each tick, in [lrtastar.py] counting the cells Open when
    the episode begins. *)
Theorem planner_terminates w h maze start goal :
  rect w h maze → is_open w h maze start →
  (∀ sched, ∃ j self log out,
     (1 ≤ j ≤ 2 * length (open_cells w h maze))%nat ∧
     Game10.run w h maze j sched (Game10.new start goal) = inr (self, log ++ [out]) ∧
     (Game10.fsm self = Game10.GOAL_REACHED ∨ Game10.stuck out)) ∧
  (∃ j maze' self log out,
     (1 ≤ j ≤ 2 * length (open_cells w h maze))%nat ∧
     Lrtastar.run w h j maze (Lrtastar.new start goal) = inr (maze', self, log ++ [out]) ∧
     (Lrtastar.fsm self = Lrtastar.GOAL_REACHED ∨ Lrtastar.stuck out)).
Proof.
  intros Hrect Hstart. split.
  - intros sched. by apply game10_terminates.
  - by apply lrta_terminates.
Qed.

(** C6, as the code has it.  On a tick of a moving agent that is not at its
    goal, [game10.py] selects among the viable neighbours (open, inside the
    grid, on no barrier), when there is one, the first in the order left,
    right, up, down that minimises Manhattan distance to the goal plus
    learned cost; the agent moves there and the cost of the cell goes up by
    one, unless the cell was visited, in which case the tick backtracks.
    [lrtastar.py], for an agent standing inside the grid, selects among the
    open neighbours inside the grid, with barriers on them or not, the
    first that minimises Manhattan distance alone, and writes the smaller
    of the two distances into the cell the agent stands on. *)
Theorem planner_selects_first_minimum w h maze :
  rect w h maze →
  (∀ self barriers,
     Game10.fsm self = Game10.MOVING →
     Game10.position self ≠ Game10.goal self →
     Game10.viable w h maze (Game10.position self) barriers ≠ [] →
     ∃ n before after,
       Game10.viable w h maze (Game10.position self) barriers = before ++ n :: after ∧
       (∀ m, m ∈ before → Game10.cost self n < Game10.cost self m) ∧
       (∀ m, m ∈ after → Game10.cost self n ≤ Game10.cost self m) ∧
       (∃ d, d ∈ offsets ∧ n = shift (Game10.position self) d) ∧
       is_open w h maze n ∧ (n ∉ barriers) ∧
       ∃ self' out, Game10.update w h maze self barriers = inr (self', out) ∧
         Game10.visited self' = Game10.visited self ++ [Game10.position self] ∧
         Game10.fsm self' = Game10.MOVING ∧
         Game10.goal self' = Game10.goal self ∧
         (((n ∉ Game10.visited self ++ [Game10.position self]) ∧ out = [] ∧
           Game10.position self' = n ∧
           Game10.previous_position self' = Some (Game10.position self) ∧
           Game10.path self' = Game10.path self ++ [n] ∧
           Game10.cell_costs self' =
             <[n := default 0 (Game10.cell_costs self !! n) + 1]>
               (Game10.cell_costs self)) ∨
          ((n ∈ Game10.visited self ++ [Game10.position self]) ∧
           head out = Some (Game10.msg_revisiting n) ∧
           Game10.previous_position self' = Game10.previous_position self ∧
           Game10.cell_costs self' = Game10.cell_costs self ∧
           (Game10.path self' = removelast (Game10.path self) ∨
            Game10.path self' = Game10.path self)))) ∧
  (∀ self,
     (0 ≤ (Lrtastar.position self).1 < w ∧ 0 ≤ (Lrtastar.position self).2 < h) →
     Lrtastar.fsm self = Lrtastar.MOVING →
     Lrtastar.position self ≠ Lrtastar.goal self →
     filter (is_open w h maze) (shift (Lrtastar.position self) <$> offsets) ≠ [] →
     ∃ n before after,
       filter (is_open w h maze) (shift (Lrtastar.position self) <$> offsets)
         = before ++ n :: after ∧
       (∀ m, m ∈ before →
             manhattan n (Lrtastar.goal self) < manhattan m (Lrtastar.goal self)) ∧
       (∀ m, m ∈ after →
             manhattan n (Lrtastar.goal self) ≤ manhattan m (Lrtastar.goal self)) ∧
       (∃ d, d ∈ offsets ∧ n = shift (Lrtastar.position self) d) ∧
       is_open w h maze n ∧
       ∃ maze' self' out,
         Lrtastar.update w h maze self = inr (maze', self', out) ∧
         Lrtastar.maze_set maze (Lrtastar.position self)
           (Z.min (manhattan (Lrtastar.position self) (Lrtastar.goal self))
                  (manhattan n (Lrtastar.goal self))) = Some maze' ∧
         Lrtastar.visited self' = Lrtastar.visited self ++ [Lrtastar.position self] ∧
         Lrtastar.fsm self' = Lrtastar.MOVING ∧
         Lrtastar.goal self' = Lrtastar.goal self ∧
         (((n ∉ Lrtastar.visited self ++ [Lrtastar.position self]) ∧ out = [] ∧
           Lrtastar.position self' = n ∧
           Lrtastar.previous_position self' = Some (Lrtastar.position self) ∧
           Lrtastar.path self' = Lrtastar.path self ++ [n]) ∨
          ((n ∈ Lrtastar.visited self ++ [Lrtastar.position self]) ∧
           head out = Some (Lrtastar.msg_revisiting n) ∧
           Lrtastar.previous_position self' = Lrtastar.previous_position self ∧
           (Lrtastar.path self' = removelast (Lrtastar.path self) ∨
            Lrtastar.path self' = Lrtastar.path self)))).
Proof.
  intros Hrect. split.
  - intros self barriers. by apply game10_selects_first_minimum.
  - intros self Hpos. by apply lrta_selects_first_minimum.
Qed.

(** C8, as the code has it.  On a tick of a moving agent that is not at its
    goal and finds no viable neighbour ([game10.py]: open, inside the grid,
    on no barrier; [lrtastar.py]: open, inside the grid), a path of more
    than one cell loses its last cell and the agent is put on the new last
    cell; a path of one cell makes [update] print the Stuck line and return
    nothing: the position, the path and the state [MOVING] stay as they
    were.  Either way the cell the agent stood on is appended to [visited];
    the goal, the previous position and the learned costs stay as they
    were. *)
Theorem planner_backtracks_or_prints_stuck w h maze :
  rect w h maze →
  (∀ self barriers,
     Game10.fsm self = Game10.MOVING →
     Game10.position self ≠ Game10.goal self →
     Game10.viable w h maze (Game10.position self) barriers = [] →
     ∃ self' out, Game10.update w h maze self barriers = inr (self', out) ∧
       Game10.visited self' = Game10.visited self ++ [Game10.position self] ∧
       Game10.fsm self' = Game10.MOVING ∧
       Game10.goal self' = Game10.goal self ∧
       Game10.previous_position self' = Game10.previous_position self ∧
       Game10.cell_costs self' = Game10.cell_costs self ∧
       (((1 < length (Game10.path self))%nat ∧
         out = [Game10.msg_no_neighbors (Game10.position self)] ∧
         (∃ c, Game10.path self = Game10.path self' ++ [c]) ∧
         last (Game10.path self') = Some (Game10.position self')) ∨
        ((length (Game10.path self) ≤ 1)%nat ∧
         out = [Game10.msg_no_neighbors (Game10.position self); Game10.msg_stuck] ∧
         Game10.path self' = Game10.path self ∧
         Game10.position self' = Game10.position self))) ∧
  (∀ self,
     Lrtastar.fsm self = Lrtastar.MOVING →
     Lrtastar.position self ≠ Lrtastar.goal self →
     filter (is_open w h maze) (shift (Lrtastar.position self) <$> offsets) = [] →
     ∃ self' out, Lrtastar.update w h maze self = inr (maze, self', out) ∧
       Lrtastar.visited self' = Lrtastar.visited self ++ [Lrtastar.position self] ∧
       Lrtastar.fsm self' = Lrtastar.MOVING ∧
       Lrtastar.goal self' = Lrtastar.goal self ∧
       Lrtastar.previous_position self' = Lrtastar.previous_position self ∧
       (((1 < length (Lrtastar.path self))%nat ∧
         out = [Lrtastar.msg_no_neighbors (Lrtastar.position self)] ∧
         (∃ c, Lrtastar.path self = Lrtastar.path self' ++ [c]) ∧
         last (Lrtastar.path self') = Some (Lrtastar.position self')) ∨
        ((length (Lrtastar.path self) ≤ 1)%nat ∧
         out = [Lrtastar.msg_no_neighbors (Lrtastar.position self); Lrtastar.msg_stuck] ∧
         Lrtastar.path self' = Lrtastar.path self ∧
         Lrtastar.position self' = Lrtastar.position self))).
Proof.
  intros Hrect. split.
  - intros self barriers. by apply game10_backtracks_or_prints_stuck.
  - intros self. by apply lrta_backtracks_or_prints_stuck.
Qed.

(** C10. From [NPC(start, goal)] on, after any number of ticks, [update] has
    raised nothing, the path is non-empty, starts with the start cell and
    ends with the agent's position; the next tick leaves the path alone,
    appends the new position, or pops one cell off a path longer than one.
    In [game10.py] this holds whatever the barriers do; in [lrtastar.py],
    which writes the maze at the agent's cell, for a start inside the
    grid. *)
Theorem planner_path_keeps_start w h maze start goal k :
  rect w h maze →
  (∀ sched, ∃ self log,
     Game10.run w h maze k sched (Game10.new start goal) = inr (self, log) ∧
     head (Game10.path self) = Some start ∧
     last (Game10.path self) = Some (Game10.position self) ∧
     ∀ barriers, ∃ self' out,
       Game10.update w h maze self barriers = inr (self', out) ∧
       (Game10.path self' = Game10.path self ∨
        Game10.path self' = Game10.path self ++ [Game10.position self'] ∨
        ((1 < length (Game10.path self))%nat ∧
         Game10.path self' = removelast (Game10.path self)))) ∧
  (0 ≤ start.1 < w ∧ 0 ≤ start.2 < h →
   ∃ maze' self log,
     Lrtastar.run w h k maze (Lrtastar.new start goal) = inr (maze', self, log) ∧
     head (Lrtastar.path self) = Some start ∧
     last (Lrtastar.path self) = Some (Lrtastar.position self) ∧
     ∃ maze'' self' out,
       Lrtastar.update w h maze' self = inr (maze'', self', out) ∧
       (Lrtastar.path self' = Lrtastar.path self ∨
        Lrtastar.path self' = Lrtastar.path self ++ [Lrtastar.position self'] ∨
        ((1 < length (Lrtastar.path self))%nat ∧
         Lrtastar.path self' = removelast (Lrtastar.path self)))).
Proof.
  intros Hrect. split.
  - intros sched. by apply game10_path_keeps_start.
  - intros Hstart. by apply lrta_path_keeps_start.
Qed.

(** ** Collision check *)

Lemma check_collision_spec barriers pos prev :
  Game10.check_collision barriers pos prev = true ↔
  ∃ x y, (x, y) ∈ barriers ∧
         ((x, y) = pos ∨ (pos = (x, y - 1) ∧ prev = Some (x, y))).
Proof.
  induction barriers as [|[x y] rest IH]; simpl.
  - split; [done|]. intros (x & y & Hin & _). by apply elem_of_nil in Hin.
  - case_bool_decide as Hdirect.
    { split; [|done]. intros _. exists x, y. split; [by left|by left]. }
    destruct (bool_decide (pos = (x, y - 1)) && bool_decide (prev = Some (x, y)))
      eqn:Hcross.
    { apply andb_true_iff in Hcross as [Hp%bool_decide_eq_true Hq%bool_decide_eq_true].
      split; [|done]. intros _. exists x, y. split; [by left|by right]. }
    rewrite IH. split.
    + intros (x' & y' & Hin & H'). exists x', y'. split; [by right|done].
    + intros (x' & y' & [[= -> ->]|Hin]%elem_of_cons & H'); [|by exists x', y'].
      destruct H' as [?|[-> ->]]; [done|].
      rewrite !bool_decide_eq_true_2 in Hcross by done. done.
Qed.

(** C4, as the code has it.  The crossing rule looks for a barrier that came
    down from [(x, y - 1)] to [(x, y)] while the agent went up from [(x, y)]
    to [(x, y - 1)]: an agent that moved from (5,6) to (5,5) collides with a
    barrier now at (5,6), wherever the other barriers are.  With the
    arguments of the scenario as written, agent at (5,6) coming from (5,5),
    the check is true only when a barrier stands on (5,6) itself. *)
Theorem collision_on_crossing barriers :
  ((5, 6) ∈ barriers →
   Game10.check_collision barriers (5, 5) (Some (5, 6)) = true) ∧
  (Game10.check_collision barriers (5, 6) (Some (5, 5)) = true ↔
   (5, 6) ∈ barriers).
Proof.
  split.
  - intros Hin. apply check_collision_spec. exists 5, 6. split; [done|].
    right. done.
  - rewrite check_collision_spec. split.
    + intros (x & y & Hin & [Heq|[Hpos Hprev]]).
      * by injection Heq as -> ->.
      * injection Hpos as Hx Hy. injection Hprev as Hx' Hy'. lia.
    + intros Hin. exists 5, 6. split; [done|by left].
Qed.

Lemma collision_on_crossing_witness :
  (5, 6) ∈ [(5, 6)] ∧ Game10.check_collision [(5, 6)] (5, 5) (Some (5, 6)) = true.
Proof.
  split; [by left|]. apply (collision_on_crossing [(5, 6)]). by left.
Defined.

(** C4 as stated fails: with the barrier now at (5,5), the agent at (5,6)
    and its previous position (5,5), the check answers false. *)
Lemma collision_scenario_c_false :
  Game10.check_collision [(5, 5)] (5, 6) (Some (5, 5)) = false.
Proof. reflexivity. Qed.

(** ** [lrtastar.py]: the agent's step writes the maze *)

(** C5 fails on [lrtastar.py].  On the module's own maze, the first tick of
    an agent at (1,19) with goal (1,0) stores 18 in the agent's cell, which
    was open (0) before: [update_heuristic] assigns into [maze]. *)
Theorem lrtastar_update_writes_maze :
  ∃ maze' self' out,
    Lrtastar.update 3 20 Lrtastar.lanes (Lrtastar.new (1, 19) (1, 0))
      = inr (maze', self', out) ∧
    maze_at Lrtastar.lanes (1, 19) = Some 0 ∧
    maze_at maze' (1, 19) = Some 18.
Proof. eexists _, _, _. split; [reflexivity|]. split; reflexivity. Qed.

(** ** [game11.py]: a tick can move the agent more than one cell *)

(** C7 fails on [game11.py].  In the pocket maze the first tick appends two
    cells to the path, and the third tick takes the agent from (0,1) to
    (2,0), which is neither a neighbour of (0,1) nor the previous element
    of the path. *)
Theorem game11_tick_jumps :
  ∃ self1 self2 self3 log out,
    Game11.update Game11.pocket (Game11.new (0, 0) (19, 19)) = inr (self1, []) ∧
    Game11.path self1 = [(0, 0); (1, 0); (0, 1)] ∧
    Game11.run Game11.pocket 2 (Game11.new (0, 0) (19, 19)) = inr (self2, log) ∧
    Game11.update Game11.pocket self2 = inr (self3, out) ∧
    Game11.position self2 = (0, 1) ∧
    Game11.path self2 = [(0, 0); (1, 0); (0, 1)] ∧
    Game11.position self3 = (2, 0) ∧
    ¬ Game10.single_step (Game11.position self2) (Game11.path self2)
        (Game11.position self3).
Proof.
  eexists _, _, _, _, _.
  split; [vm_compute; reflexivity|]. split; [reflexivity|].
  split; [vm_compute; reflexivity|]. split; [vm_compute; reflexivity|].
  split; [reflexivity|]. split; [reflexivity|]. split; [reflexivity|].
  cbn [Game11.position Game11.path].
  intros [Heq|[(d & Hd & Heq)|(rest & Heq)]].
  - discriminate.
  - apply elem_of_offsets in Hd as [-> | [-> | [-> | ->]]]; discriminate.
  - destruct rest as [|a [|b [|c rest]]]; simpl in Heq; try discriminate.
    destruct rest; discriminate.
Qed.

(** ** Shape of the paths the static searches return *)

Section ClosedListSearch.
Variable GRID_SIZE : Z.
Variable maze : grid.
Variables start goal : cell.

Lemma game7_relax_rooted current s n s' :
  Game7.came_from s !! start = None → start ∈ Game7.closed_list s →
  Game7.relax goal current s n = inr s' →
  Game7.came_from s' !! start = None ∧ start ∈ Game7.closed_list s'.
Proof.
  intros Hp Hc. unfold Game7.relax.
  case_bool_decide as Hn; [by intros [= <-]|].
  destruct (Game7.g_score s !! current) as [gc|]; [|done].
  assert (Hne : n ≠ start) by (intros ->; done).
  destruct (Game7.g_score s !! n) as [gn|]; [case_bool_decide|];
    intros [= <-]; simpl; by rewrite ?lookup_insert_ne.
Qed.

Lemma game7_expand_rooted current ns : ∀ s s',
  Game7.came_from s !! start = None → start ∈ Game7.closed_list s →
  Game7.expand goal current ns s = inr s' →
  Game7.came_from s' !! start = None ∧ start ∈ Game7.closed_list s'.
Proof.
  induction ns as [|n ns IH]; intros s s' Hp Hc; simpl.
  - by intros [= <-].
  - destruct (Game7.relax goal current s n) as [e|s1] eqn:Hrelax; [done|].
    destruct (game7_relax_rooted _ _ _ _ Hp Hc Hrelax). by apply IH.
Qed.

Lemma game7_reconstruct_shape P fuel : ∀ c acc l,
  Game7.reconstruct fuel P c acc = Some l →
  ∃ chain, l = acc ++ chain ∧ (∀ x, x ∈ chain → is_Some (P !! x)) ∧
           (chain ≠ [] → head chain = Some c).
Proof.
  induction fuel as [|fuel IH]; intros c acc l; simpl.
  - destruct (P !! c); [done|]. intros [= <-]. exists [].
    rewrite app_nil_r. split_and!; [done| |done].
    intros x Hx. by apply elem_of_nil in Hx.
  - destruct (P !! c) as [prev|] eqn:Hc.
    + intros (chain & -> & Hkeys & _)%IH. exists (c :: chain).
      rewrite <- app_assoc. split_and!; [done| |done].
      intros x [->|Hx]%elem_of_cons; [eauto|by apply Hkeys].
    + intros [= <-]. exists []. rewrite app_nil_r. split_and!; [done| |done].
      intros x Hx. by apply elem_of_nil in Hx.
Qed.

Lemma game7_loop_shape fuel : ∀ s path,
  rooted start s →
  Game7.search_loop GRID_SIZE maze fuel goal s = Return path → path ≠ [] →
  (start ∉ path) ∧ last path = Some goal.
Proof.
  induction fuel as [|fuel IH]; intros s path [Hp Hroot]; [done|].
  cbn [Game7.search_loop].
  destruct (heappop (Game7.open_list s)) as [[[f c] rest]|] eqn:Hpop;
    [|by intros [= <-]].
  apply heappop_spec in Hpop as (Hin & _ & Hsub & _).
  case_bool_decide as Hgoal.
  - subst c.
    destruct (Game7.reconstruct _ _ goal []) as [l|] eqn:Hrec; [|done].
    apply game7_reconstruct_shape in Hrec as (chain & -> & Hkeys & Hhead).
    simpl. intros [= <-] Hne. split.
    + intros Hs. rewrite elem_of_reverse in Hs.
      destruct (Hkeys _ Hs) as [? ?]. congruence.
    + rewrite last_reverse. apply Hhead. intros ->. done.
  - destruct (Game7.get_neighbors GRID_SIZE maze c) as [e|ns]; [done|].
    destruct (Game7.expand goal c ns _) as [e|s'] eqn:Hexp; [done|].
    assert (Hclosed : start ∈ Game7.closed_list s ∪ {[c]}).
    { destruct Hroot as [?|Hall]; [apply elem_of_union; by left|].
      specialize (Hall _ Hin). simpl in Hall. subst c.
      apply elem_of_union. right. by apply elem_of_singleton. }
    apply game7_expand_rooted in Hexp as [Hp' Hc']; [|done..].
    apply IH. split; [done|by left].
Qed.

Lemma game7_a_star_shape fuel path :
  Game7.a_star GRID_SIZE maze fuel start goal = Return path → path ≠ [] →
  (start ∉ path) ∧ last path = Some goal.
Proof.
  apply game7_loop_shape. split; [done|]. right.
  intros e [->|He%elem_of_nil]%elem_of_cons; done.
Qed.
End ClosedListSearch.



Lemma open10_square : square open10.
Proof. unfold square, open10. by repeat constructor. Qed.


(** ** The results at concrete inputs *)

Lemma game_maze_square : square Game.maze.
Proof. unfold square, Game.maze. by repeat constructor. Qed.

Ltac solve_free :=
  split; [split; unfold Game.GRID_SIZE; simpl; lia|reflexivity].

Ltac solve_edge :=
  split;
  [first [ exists (-1, 0); split; [apply elem_of_offsets; tauto|reflexivity]
         | exists (1, 0); split; [apply elem_of_offsets; tauto|reflexivity]
         | exists (0, -1); split; [apply elem_of_offsets; tauto|reflexivity]
         | exists (0, 1); split; [apply elem_of_offsets; tauto|reflexivity] ]
  | solve_free ].

Lemma game_maze_connected : connected Game.maze (0, 0) (9, 9).
Proof.
  exists [(1, 0); (2, 0); (2, 1); (2, 2); (1, 2); (0, 2); (0, 3); (0, 4);
          (0, 5); (0, 6); (1, 6); (2, 6); (2, 7); (2, 8); (3, 8); (4, 8);
          (4, 7); (4, 6); (5, 6); (6, 6); (7, 6); (8, 6); (9, 6); (9, 7);
          (9, 8); (9, 9)].
  simpl. repeat (split; [solve_edge|]). reflexivity.
Qed.






Lemma road_rect : rect 20 20 Game10.road.
Proof. split; [reflexivity|]. unfold Game10.road. simpl. by repeat constructor. Qed.

Lemma road_start_open : is_open 20 20 Game10.road (11, 19).
Proof. split; [simpl; lia|reflexivity]. Qed.

Lemma planner_terminates_witness :
  rect 20 20 Game10.road ∧ is_open 20 20 Game10.road (11, 19) ∧
  (∀ sched, ∃ j self log out,
     (1 ≤ j ≤ 2 * length (open_cells 20 20 Game10.road))%nat ∧
     Game10.run 20 20 Game10.road j sched Game10.road_agent
       = inr (self, log ++ [out]) ∧
     (Game10.fsm self = Game10.GOAL_REACHED ∨ Game10.stuck out)) ∧
  (∃ j maze' self log out,
     (1 ≤ j ≤ 2 * length (open_cells 20 20 Game10.road))%nat ∧
     Lrtastar.run 20 20 j Game10.road (Lrtastar.new (11, 19) (11, 0))
       = inr (maze', self, log ++ [out]) ∧
     (Lrtastar.fsm self = Lrtastar.GOAL_REACHED ∨ Lrtastar.stuck out)).
Proof.
  split; [apply road_rect|]. split; [apply road_start_open|].
  apply (planner_terminates 20 20 Game10.road (11, 19) (11, 0)).
  - apply road_rect.
  - apply road_start_open.
Defined.

Lemma lanes_rect : rect 3 20 Lrtastar.lanes.
Proof. split; [reflexivity|]. unfold Lrtastar.lanes. simpl. by repeat constructor. Qed.

Lemma alley_rect : rect 1 3 Lrtastar.alley.
Proof. split; [reflexivity|]. by repeat constructor. Qed.

(** C6 as stated fails for [lrtastar.py]: with a barrier on the cell above
    the agent, the viable neighbours are the cells to its left and to its
    right and the first minimum among them is the left one, yet [update]
    steps up, onto the barrier. *)
Lemma lrtastar_steps_onto_barrier :
  Game10.viable 3 20 Lrtastar.lanes (1, 19) Lrtastar.oncoming = [(0, 19); (2, 19)] ∧
  py_min (λ n, manhattan n (1, 0))
    (Game10.viable 3 20 Lrtastar.lanes (1, 19) Lrtastar.oncoming) = Some (0, 19) ∧
  ∃ maze' self',
    Lrtastar.update 3 20 Lrtastar.lanes Lrtastar.lane_agent = inr (maze', self', []) ∧
    Lrtastar.position self' = (1, 18) ∧
    Lrtastar.position self' ∈ Lrtastar.oncoming ∧
    Lrtastar.position self' ∉
      Game10.viable 3 20 Lrtastar.lanes (1, 19) Lrtastar.oncoming.
Proof.
  split; [by vm_compute|]. split; [by vm_compute|].
  eexists _, _. split; [vm_compute; reflexivity|].
  split; [done|]. split; [by left|].
  intros Hin. vm_compute in Hin.
  apply elem_of_cons in Hin as [Hin|Hin]; [done|].
  apply elem_of_cons in Hin as [Hin|Hin]; [done|].
  by apply elem_of_nil in Hin.
Qed.

(** In [game10.py] a barrier stands above the agent and the cells to its
    left and right cost 21 each: the agent moves left.  In [lrtastar.py]
    the cells to the right of and above the agent are both at distance 1:
    the agent moves right. *)
Lemma planner_selects_first_minimum_witness :
  (rect 20 20 Game10.road ∧
   Game10.viable 20 20 Game10.road (11, 19) Game10.ahead = [(10, 19); (12, 19)] ∧
   Game10.cost Game10.returning_agent (10, 19) = 21 ∧
   Game10.cost Game10.returning_agent (12, 19) = 21 ∧
   Game10.cost Game10.returning_agent (11, 18) = 18 ∧
   ∃ self',
     Game10.update 20 20 Game10.road Game10.returning_agent Game10.ahead
       = inr (self', []) ∧
     Game10.position self' = (10, 19) ∧
     Game10.previous_position self' = Some (11, 19) ∧
     Game10.path self' = [(11, 19); (10, 19)] ∧
     Game10.visited self' = [(11, 19)] ∧
     Game10.cell_costs self' = <[(10, 19) := 2]> (Game10.cell_costs Game10.returning_agent)) ∧
  (rect 3 20 Lrtastar.lanes ∧
   filter (is_open 3 20 Lrtastar.lanes) (shift (0, 1) <$> offsets)
     = [(1, 1); (0, 0); (0, 2)] ∧
   manhattan (1, 1) (1, 0) = 1 ∧ manhattan (0, 0) (1, 0) = 1 ∧
   ∃ maze' self',
     Lrtastar.update 3 20 Lrtastar.lanes Lrtastar.corner_agent = inr (maze', self', []) ∧
     Lrtastar.maze_set Lrtastar.lanes (0, 1) 1 = Some maze' ∧
     Lrtastar.position self' = (1, 1) ∧
     Lrtastar.path self' = [(0, 1); (1, 1)]).
Proof.
  split.
  - assert (Hv : Game10.viable 20 20 Game10.road (11, 19) Game10.ahead
                 = [(10, 19); (12, 19)]) by (by vm_compute).
    split; [apply road_rect|]. split; [exact Hv|].
    split; [by vm_compute|]. split; [by vm_compute|]. split; [by vm_compute|].
    destruct (proj1 (planner_selects_first_minimum 20 20 Game10.road road_rect)
                Game10.returning_agent Game10.ahead)
      as (n & before & after & Hsplit & Hb & _ & _ & _ & _ & self' & out & Hupd
          & Hvis & _ & _ & Hcase).
    { reflexivity. }
    { done. }
    { change (Game10.position Game10.returning_agent) with ((11, 19) : cell).
      by rewrite Hv. }
    change (Game10.position Game10.returning_agent) with ((11, 19) : cell) in *.
    rewrite Hv in Hsplit.
    assert (Hn : n = (10, 19)).
    { destruct before as [|b0 [|b1 before]].
      - by injection Hsplit as <- _.
      - injection Hsplit as <- <- _.
        specialize (Hb (10, 19) ltac:(by left)). vm_compute in Hb. done.
      - injection Hsplit as _ _ Hnil. by destruct before. }
    subst n. exists self'.
    destruct Hcase as [(_ & -> & Hpos & Hprev & Hpath & Hcosts)|(Hin & _)].
    + split_and!; [done|done|done|done|done|]. rewrite Hcosts. done.
    + exfalso. cbn in Hin.
      apply elem_of_cons in Hin as [Hin|Hin]; [done|by apply elem_of_nil in Hin].
  - assert (Hv : filter (is_open 3 20 Lrtastar.lanes) (shift (0, 1) <$> offsets)
                 = [(1, 1); (0, 0); (0, 2)]) by (by vm_compute).
    split; [apply lanes_rect|]. split; [exact Hv|].
    split; [done|]. split; [done|].
    destruct (proj2 (planner_selects_first_minimum 3 20 Lrtastar.lanes lanes_rect)
                Lrtastar.corner_agent)
      as (n & before & after & Hsplit & Hb & _ & _ & _ & maze' & self' & out & Hupd
          & Hset & _ & _ & _ & Hcase).
    { simpl. lia. }
    { reflexivity. }
    { done. }
    { change (Lrtastar.position Lrtastar.corner_agent) with ((0, 1) : cell).
      by rewrite Hv. }
    change (Lrtastar.position Lrtastar.corner_agent) with ((0, 1) : cell) in *.
    change (Lrtastar.goal Lrtastar.corner_agent) with ((1, 0) : cell) in *.
    rewrite Hv in Hsplit.
    assert (Hn : n = (1, 1)).
    { destruct before as [|b0 [|b1 [|b2 before]]].
      - by injection Hsplit as <- _.
      - injection Hsplit as <- <- _.
        specialize (Hb (1, 1) ltac:(by left)). vm_compute in Hb. done.
      - injection Hsplit as <- _ <- _.
        specialize (Hb (1, 1) ltac:(by left)). vm_compute in Hb. done.
      - injection Hsplit as _ _ _ Hnil. by destruct before. }
    subst n. exists maze', self'.
    destruct Hcase as [(_ & -> & Hpos & _ & Hpath)|(Hin & _)].
    + split_and!; [done|exact Hset|done|done].
    + exfalso. cbn in Hin.
      apply elem_of_cons in Hin as [Hin|Hin]; [done|by apply elem_of_nil in Hin].
Defined.

(** C8 as stated fails: boxed in on its start cell, with a path of one
    element, the agent prints the Stuck line; nothing is returned and the
    state stays [MOVING]. *)
Lemma stuck_is_printed_not_returned :
  ∃ self' out,
    Game10.viable 20 20 Game10.road (11, 19) Game10.boxing = [] ∧
    length (Game10.path Game10.road_agent) = 1%nat ∧
    Game10.update 20 20 Game10.road Game10.road_agent
      Game10.boxing = inr (self', out) ∧
    out = ["No valid neighbors for (11, 19). Backtracking...";
           "No path to backtrack. Stuck!"]%string ∧
    Game10.fsm self' = Game10.MOVING ∧
    ¬ Game10.stuck_as_value self' out.
Proof.
  eexists _, _. split; [by vm_compute|]. split; [done|].
  split; [vm_compute; reflexivity|]. split; [done|]. split; [done|].
  intros [Hout _]. discriminate Hout.
Qed.

(** In [game10.py] an agent one move up the lane, with barriers all around,
    goes back to its start cell; boxed in on its start cell it prints Stuck
    and stays.  In [lrtastar.py] an agent one move up an alley, with a wall
    ahead and its own mark behind, goes back to its start cell. *)
Lemma planner_backtracks_or_prints_stuck_witness :
  (rect 20 20 Game10.road ∧
   Game10.viable 20 20 Game10.road (11, 18) Game10.caging = [] ∧
   Game10.path Game10.advanced_agent = [(11, 19); (11, 18)] ∧
   ∃ self',
     Game10.update 20 20 Game10.road Game10.advanced_agent Game10.caging
       = inr (self', [Game10.msg_no_neighbors (11, 18)]) ∧
     Game10.path self' = [(11, 19)] ∧
     Game10.position self' = (11, 19) ∧
     Game10.visited self' = [(11, 19); (11, 18)] ∧
     Game10.fsm self' = Game10.MOVING) ∧
  (Game10.viable 20 20 Game10.road (11, 19) Game10.boxing = [] ∧
   Game10.path Game10.road_agent = [(11, 19)] ∧
   ∃ self',
     Game10.update 20 20 Game10.road Game10.road_agent Game10.boxing
       = inr (self', [Game10.msg_no_neighbors (11, 19); Game10.msg_stuck]) ∧
     Game10.path self' = [(11, 19)] ∧
     Game10.position self' = (11, 19) ∧
     Game10.fsm self' = Game10.MOVING) ∧
  (rect 1 3 Lrtastar.alley ∧
   filter (is_open 1 3 Lrtastar.alley) (shift (0, 1) <$> offsets) = [] ∧
   Lrtastar.path Lrtastar.alley_agent = [(0, 2); (0, 1)] ∧
   ∃ self',
     Lrtastar.update 1 3 Lrtastar.alley Lrtastar.alley_agent
       = inr (Lrtastar.alley, self', [Lrtastar.msg_no_neighbors (0, 1)]) ∧
     Lrtastar.path self' = [(0, 2)] ∧
     Lrtastar.position self' = (0, 2) ∧
     Lrtastar.fsm self' = Lrtastar.MOVING).
Proof.
  split_and!.
  - apply road_rect.
  - by vm_compute.
  - done.
  - destruct (proj1 (planner_backtracks_or_prints_stuck 20 20 Game10.road road_rect)
                Game10.advanced_agent Game10.caging)
      as (self' & out & Hupd & Hvis & Hfsm & _ & _ & _ & Hcase).
    { reflexivity. }
    { done. }
    { by vm_compute. }
    exists self'.
    destruct Hcase as [(_ & -> & (c & Hpop) & Hlast)|(Hlen & _)];
      [|simpl in Hlen; lia].
    change (Game10.path Game10.advanced_agent)
      with ([(11, 19)] ++ [(11, 18)] : list cell) in Hpop.
    apply app_inj_tail in Hpop as [Hpath _].
    rewrite <- Hpath in Hlast. injection Hlast as Hpos.
    split_and!; [exact Hupd|done|done|exact Hvis|exact Hfsm].
  - by vm_compute.
  - done.
  - destruct (proj1 (planner_backtracks_or_prints_stuck 20 20 Game10.road road_rect)
                Game10.road_agent Game10.boxing)
      as (self' & out & Hupd & _ & Hfsm & _ & _ & _ & Hcase).
    { reflexivity. }
    { done. }
    { by vm_compute. }
    exists self'.
    destruct Hcase as [(Hlen & _)|(_ & -> & Hpath & Hpos)];
      [simpl in Hlen; lia|].
    split_and!; [exact Hupd|exact Hpath|exact Hpos|exact Hfsm].
  - apply alley_rect.
  - by vm_compute.
  - done.
  - destruct (proj2 (planner_backtracks_or_prints_stuck 1 3 Lrtastar.alley alley_rect)
                Lrtastar.alley_agent)
      as (self' & out & Hupd & _ & Hfsm & _ & _ & Hcase).
    { reflexivity. }
    { done. }
    { by vm_compute. }
    exists self'.
    destruct Hcase as [(_ & -> & (c & Hpop) & Hlast)|(Hlen & _)];
      [|simpl in Hlen; lia].
    change (Lrtastar.path Lrtastar.alley_agent)
      with ([(0, 2)] ++ [(0, 1)] : list cell) in Hpop.
    apply app_inj_tail in Hpop as [Hpath _].
    rewrite <- Hpath in Hlast. injection Hlast as Hpos.
    split_and!; [exact Hupd|done|done|exact Hfsm].
Defined.

Lemma planner_path_keeps_start_witness :
  rect 20 20 Game10.road ∧
  (∀ sched, ∃ self log,
     Game10.run 20 20 Game10.road 5 sched Game10.road_agent = inr (self, log) ∧
     head (Game10.path self) = Some (11, 19) ∧
     last (Game10.path self) = Some (Game10.position self) ∧
     ∀ barriers, ∃ self' out,
       Game10.update 20 20 Game10.road self barriers = inr (self', out) ∧
       (Game10.path self' = Game10.path self ∨
        Game10.path self' = Game10.path self ++ [Game10.position self'] ∨
        ((1 < length (Game10.path self))%nat ∧
         Game10.path self' = removelast (Game10.path self)))) ∧
  (0 ≤ 11 < 20 ∧ 0 ≤ 19 < 20) ∧
  ∃ maze' self log,
    Lrtastar.run 20 20 5 Game10.road (Lrtastar.new (11, 19) (11, 0))
      = inr (maze', self, log) ∧
    head (Lrtastar.path self) = Some (11, 19) ∧
    last (Lrtastar.path self) = Some (Lrtastar.position self) ∧
    ∃ maze'' self' out,
      Lrtastar.update 20 20 maze' self = inr (maze'', self', out) ∧
      (Lrtastar.path self' = Lrtastar.path self ∨
       Lrtastar.path self' = Lrtastar.path self ++ [Lrtastar.position self'] ∨
       ((1 < length (Lrtastar.path self))%nat ∧
        Lrtastar.path self' = removelast (Lrtastar.path self))).
Proof.
  split; [apply road_rect|].
  pose proof (planner_path_keeps_start 20 20 Game10.road (11, 19) (11, 0) 5
                road_rect) as [Hgame10 Hlrta].
  split; [exact Hgame10|]. split; [lia|].
  apply Hlrta. simpl. lia.
Defined.

(** * Further results *)

(** ** [Game.py]: the agent walks the planned path *)

Lemma game_npc_run_S k self :
  GameNPC.run (S k) self = GameNPC.update (GameNPC.run k self).
Proof. reflexivity. Qed.

Lemma game_npc_run pos goal l k :
  l ≠ [] →
  GameNPC.run k {| GameNPC.position := pos; GameNPC.goal := goal;
                   GameNPC.path := l; GameNPC.state := GameNPC.MOVING |} =
  {| GameNPC.position := default pos (last (take k l));
     GameNPC.goal := goal;
     GameNPC.path := drop k l;
     GameNPC.state := if decide (length l ≤ k)%nat then GameNPC.GOAL_REACHED
                      else GameNPC.MOVING |}.
Proof.
  intros Hl. induction k as [|k IH].
  - simpl. rewrite drop_0. destruct l; [done|].
    rewrite decide_False by (simpl; lia). done.
  - rewrite game_npc_run_S, IH.
    destruct (decide (length l ≤ k)%nat) as [Hle|Hlt].
    + unfold GameNPC.update. cbn [GameNPC.state].
      rewrite decide_True by lia.
      rewrite !take_ge, !drop_ge by lia. done.
    + assert (is_Some (l !! k)) as [x Hx] by (apply lookup_lt_is_Some; lia).
      unfold GameNPC.update. cbn [GameNPC.state GameNPC.path].
      rewrite (drop_S _ _ _ Hx). cbn [GameNPC.path GameNPC.position GameNPC.goal].
      rewrite (take_S_r _ _ _ Hx), last_snoc. simpl.
      destruct (drop (S k) l) as [|y rest] eqn:Hdrop.
      * rewrite decide_True; [done|].
        apply (f_equal length) in Hdrop. rewrite length_drop in Hdrop.
        simpl in Hdrop. lia.
      * rewrite decide_False; [done|].
        apply (f_equal length) in Hdrop. rewrite length_drop in Hdrop.
        simpl in Hdrop. lia.
Qed.

(** X1. On a square maze with a route from start to goal, the agent of
    [Game.py] is created [MOVING]; its [k]-th update puts it on the [k]-th
    cell of the shortest path [astar] planned, the first of which is the
    start itself, so it stands on the goal and turns [GOAL_REACHED] at
    update number distance + 1, and nothing changes after that. *)
Theorem game_npc_reaches_goal maze start goal :
  square maze → connected maze start goal →
  ∃ path npc,
    Game.astar maze start goal = Return path ∧
    GameNPC.new maze start goal = Return npc ∧
    bfs maze start goal = Some (steps path) ∧
    (∀ k, (1 ≤ k ≤ length path)%nat →
       path !! (k - 1)%nat = Some (GameNPC.position (GameNPC.run k npc))) ∧
    (∀ k, (k < length path)%nat →
       GameNPC.state (GameNPC.run k npc) = GameNPC.MOVING) ∧
    (∀ k, (length path ≤ k)%nat →
       GameNPC.run k npc =
       {| GameNPC.position := goal; GameNPC.goal := goal; GameNPC.path := [];
          GameNPC.state := GameNPC.GOAL_REACHED |}).
Proof.
  intros Hsq Hconn.
  destruct (astar_correct maze start goal Hsq) as (path & Hrun & Hpost).
  destruct Hpost as [[_ Hno]|(p & -> & Hroute & Hmin)]; [done|].
  unfold GameNPC.new. rewrite Hrun. eexists _, _. split; [done|]. split; [done|].
  assert (Hlast : last (start :: p) = Some goal) by by eapply route_last.
  split_and!.
  - apply bfs_spec. unfold shortest, steps. simpl. rewrite Nat.sub_0_r.
    split; [by exists p|done].
  - intros k [Hk1 Hk2]. rewrite game_npc_run by done. cbn [GameNPC.position].
    destruct k as [|k]; [lia|]. replace (S k - 1)%nat with k by lia.
    assert (is_Some ((start :: p) !! k)) as [x Hx] by (apply lookup_lt_is_Some; lia).
    rewrite (take_S_r _ _ _ Hx), last_snoc. done.
  - intros k Hk. rewrite game_npc_run by done. cbn [GameNPC.state].
    by rewrite decide_False by lia.
  - intros k Hk. rewrite game_npc_run by done.
    rewrite decide_True by done. rewrite take_ge, drop_ge by done.
    rewrite Hlast. done.
Qed.

Lemma game_npc_reaches_goal_witness :
  square Game.maze ∧ connected Game.maze (0, 0) (9, 9) ∧
  ∃ path npc,
    Game.astar Game.maze (0, 0) (9, 9) = Return path ∧
    GameNPC.new Game.maze (0, 0) (9, 9) = Return npc ∧
    bfs Game.maze (0, 0) (9, 9) = Some (steps path) ∧
    (∀ k, (1 ≤ k ≤ length path)%nat →
       path !! (k - 1)%nat = Some (GameNPC.position (GameNPC.run k npc))) ∧
    (∀ k, (k < length path)%nat →
       GameNPC.state (GameNPC.run k npc) = GameNPC.MOVING) ∧
    (∀ k, (length path ≤ k)%nat →
       GameNPC.run k npc =
       {| GameNPC.position := (9, 9); GameNPC.goal := (9, 9); GameNPC.path := [];
          GameNPC.state := GameNPC.GOAL_REACHED |}).
Proof.
  split; [apply game_maze_square|]. split; [apply game_maze_connected|].
  apply (game_npc_reaches_goal Game.maze (0, 0) (9, 9)).
  - apply game_maze_square.
  - apply game_maze_connected.
Defined.



(** ** [Game5.py]: the agent moves once every [speed] updates *)

Lemma game5_run_S k self :
  Game5.run (S k) self = Game5.update (Game5.run k self).
Proof. reflexivity. Qed.

Lemma game5_run_moving pos goal l len s n0 : ∀ t q r,
  (0 < s)%nat → t = (q * s + r)%nat → (r < s)%nat → (q < length l)%nat →
  Game5.run t
    {| Game5.position := pos; Game5.goal := goal; Game5.path := l;
       Game5.path_length := len; Game5.fsm := Game5.MOVING;
       Game5.speed := Z.of_nat s; Game5.frame_counter := 0;
       Game5.nodes_traveled := n0 |} =
  {| Game5.position := default pos (last (take q l)); Game5.goal := goal;
     Game5.path := drop q l; Game5.path_length := len;
     Game5.fsm := Game5.MOVING; Game5.speed := Z.of_nat s;
     Game5.frame_counter := Z.of_nat r;
     Game5.nodes_traveled := n0 + Z.of_nat q |}.
Proof.
  induction t as [|t IH]; intros q r Hs Ht Hr Hq.
  - assert (q = 0 ∧ r = 0)%nat as [-> ->] by nia.
    simpl. rewrite drop_0, Z.add_0_r. done.
  - rewrite game5_run_S. destruct r as [|r].
    + destruct q as [|q]; [lia|].
      rewrite (IH q (s - 1)%nat) by nia.
      assert (is_Some (l !! q)) as [x Hx] by (apply lookup_lt_is_Some; lia).
      unfold Game5.update. cbn [Game5.fsm Game5.frame_counter Game5.speed Game5.path].
      rewrite bool_decide_eq_true_2 by lia.
      rewrite (drop_S _ _ _ Hx), (take_S_r _ _ _ Hx), last_snoc. simpl.
      destruct (drop (S q) l) as [|y rest] eqn:Hdrop.
      * apply (f_equal length) in Hdrop. rewrite length_drop in Hdrop.
        simpl in Hdrop. lia.
      * f_equal. lia.
    + rewrite (IH q r) by lia.
      unfold Game5.update. cbn [Game5.fsm Game5.frame_counter Game5.speed].
      rewrite bool_decide_eq_false_2 by lia. f_equal. lia.
Qed.

Lemma game5_run_arrived pos goal len s fc n j :
  Game5.run j
    {| Game5.position := pos; Game5.goal := goal; Game5.path := [];
       Game5.path_length := len; Game5.fsm := Game5.GOAL_REACHED;
       Game5.speed := s; Game5.frame_counter := fc;
       Game5.nodes_traveled := n |} =
  {| Game5.position := pos; Game5.goal := goal; Game5.path := [];
     Game5.path_length := len; Game5.fsm := Game5.GOAL_REACHED;
     Game5.speed := s; Game5.frame_counter := fc + Z.of_nat j;
     Game5.nodes_traveled := n |}.
Proof.
  induction j as [|j IH].
  - simpl. by rewrite Z.add_0_r.
  - rewrite game5_run_S, IH. unfold Game5.update. simpl. f_equal. lia.
Qed.

Lemma game5_run_add j k self :
  Game5.run (j + k) self = Game5.run j (Game5.run k self).
Proof. unfold Game5.run. apply Nat.iter_add. Qed.

(** X3. The agent of [Game5.py], created with a speed of at least one on a
    square maze with a route from start to goal, holds its position for
    [speed - 1] updates and takes one cell of the planned path on every
    [speed]-th update, counting it in [nodes_traveled]; after
    [speed * len(path)] updates it stands on the goal in [GOAL_REACHED]
    with [nodes_traveled = path_length], and from then on only the frame
    counter changes, which is no longer reset. *)
Theorem game5_npc_cadence maze start goal s :
  square maze → connected maze start goal → (0 < s)%nat →
  ∃ path npc,
    Game.astar maze start goal = Return path ∧
    Game5.new maze start goal (Z.of_nat s) = Return npc ∧
    Game5.path_length npc = Z.of_nat (length path) ∧
    (∀ q r, (q < length path)%nat → (r < s)%nat →
       Game5.position (Game5.run (q * s + r) npc) = default start (last (take q path)) ∧
       Game5.path (Game5.run (q * s + r) npc) = drop q path ∧
       Game5.fsm (Game5.run (q * s + r) npc) = Game5.MOVING ∧
       Game5.nodes_traveled (Game5.run (q * s + r) npc) = Z.of_nat q ∧
       Game5.frame_counter (Game5.run (q * s + r) npc) = Z.of_nat r) ∧
    (∀ j,
       Game5.position (Game5.run (j + length path * s) npc) = goal ∧
       Game5.fsm (Game5.run (j + length path * s) npc) = Game5.GOAL_REACHED ∧
       Game5.nodes_traveled (Game5.run (j + length path * s) npc)
         = Game5.path_length npc ∧
       Game5.frame_counter (Game5.run (j + length path * s) npc) = Z.of_nat j).
Proof.
  intros Hsq Hconn Hs.
  destruct (astar_correct maze start goal Hsq) as (path & Hrun & Hpost).
  destruct Hpost as [[_ Hno]|(p & -> & Hroute & Hmin)]; [done|].
  assert (Hlast : last (start :: p) = Some goal) by by eapply route_last.
  unfold Game5.new, Game5.astar. rewrite Hrun.
  eexists _, _. split; [done|]. split; [done|]. split; [done|]. split.
  - intros q r Hq Hr.
    rewrite (game5_run_moving start goal (start :: p) _ s 0 _ q r) by done.
    cbn [Game5.position Game5.path Game5.fsm Game5.nodes_traveled Game5.frame_counter].
    split_and!; [done|done|done|lia|done].
  - intros j. rewrite game5_run_add.
    set (n := length (start :: p)).
    assert (Hstep : (n * s = S ((n - 1) * s + (s - 1)))%nat) by (unfold n; simpl; nia).
    rewrite Hstep, game5_run_S.
    rewrite (game5_run_moving start goal (start :: p) _ s 0 _ (n - 1) (s - 1))%nat
      by (unfold n; simpl; lia).
    assert (is_Some ((start :: p) !! (n - 1)%nat)) as [x Hx]
      by (apply lookup_lt_is_Some; unfold n; simpl; lia).
    assert (x = goal) as ->.
    { rewrite last_lookup in Hlast.
      replace (pred (length (start :: p))) with (n - 1)%nat in Hlast by (unfold n; lia).
      congruence. }
    unfold Game5.update. cbn [Game5.fsm Game5.frame_counter Game5.speed Game5.path].
    rewrite bool_decide_eq_true_2 by lia.
    rewrite (drop_S _ _ _ Hx).
    replace (drop (S (n - 1)) (start :: p)) with (@nil cell)
      by (symmetry; apply drop_ge; unfold n; simpl; lia).
    rewrite game5_run_arrived.
    cbn [Game5.position Game5.fsm Game5.nodes_traveled Game5.frame_counter
         Game5.path_length].
    split_and!; [done|done| |lia].
    unfold n. simpl length. lia.
Qed.

Lemma game5_npc_cadence_witness :
  square Game.maze ∧ connected Game.maze (0, 0) (9, 9) ∧ (0 < 10)%nat ∧
  ∃ path npc,
    Game.astar Game.maze (0, 0) (9, 9) = Return path ∧
    Game5.new Game.maze (0, 0) (9, 9) (Z.of_nat 10) = Return npc ∧
    Game5.path_length npc = Z.of_nat (length path) ∧
    (∀ q r, (q < length path)%nat → (r < 10)%nat →
       Game5.position (Game5.run (q * 10 + r) npc) = default (0, 0) (last (take q path)) ∧
       Game5.path (Game5.run (q * 10 + r) npc) = drop q path ∧
       Game5.fsm (Game5.run (q * 10 + r) npc) = Game5.MOVING ∧
       Game5.nodes_traveled (Game5.run (q * 10 + r) npc) = Z.of_nat q ∧
       Game5.frame_counter (Game5.run (q * 10 + r) npc) = Z.of_nat r) ∧
    (∀ j,
       Game5.position (Game5.run (j + length path * 10) npc) = (9, 9) ∧
       Game5.fsm (Game5.run (j + length path * 10) npc) = Game5.GOAL_REACHED ∧
       Game5.nodes_traveled (Game5.run (j + length path * 10) npc)
         = Game5.path_length npc ∧
       Game5.frame_counter (Game5.run (j + length path * 10) npc) = Z.of_nat j).
Proof.
  split; [apply game_maze_square|]. split; [apply game_maze_connected|].
  split; [lia|].
  apply (game5_npc_cadence Game.maze (0, 0) (9, 9) 10).
  - apply game_maze_square.
  - apply game_maze_connected.
  - lia.
Defined.

(** ** [astar]: exceptions and edge cases *)



(** X5. Asked for a route from a cell to itself, [astar] returns the
    one-cell path without reading the maze, so this holds for every maze,
    square or not, and for cells outside it; the [a_star] method of
    [Game7.py] returns the empty list, its value for "no path". *)
Theorem search_from_goal_to_itself maze c :
  Game.astar maze c c = Return [c] ∧
  ∀ GRID_SIZE fuel, Game7.a_star GRID_SIZE maze (S fuel) c c = Return [].
Proof.
  split.
  - unfold Game.astar, Game.budget. cbn [Nat.add]. rewrite search_loop_unfold.
    simpl. rewrite bool_decide_eq_true_2 by done.
    rewrite map_size_empty. simpl. rewrite lookup_empty. done.
  - intros G fuel. unfold Game7.a_star. simpl.
    rewrite bool_decide_eq_true_2 by done.
    rewrite map_size_empty. simpl. rewrite lookup_empty. done.
Qed.

Lemma route_end_free maze p : ∀ a b,
  route maze a p b → p ≠ [] → free maze b.
Proof.
  induction p as [|c p IH]; intros a b; [done|]. simpl.
  intros [[_ Hc] Hr] _. destruct p as [|c' p].
  - simpl in Hr. by subst.
  - by apply (IH c b).
Qed.



(** ** [game10.py]: what an episode keeps true *)

Lemma linked_snoc l a b :
  linked l → last l = Some a → (∃ d, d ∈ offsets ∧ b = shift a d) →
  linked (l ++ [b]).
Proof.
  induction l as [|x [|y l] IH]; intros Hl Hlast Hab; [done| |].
  - simpl in Hlast. injection Hlast as ->. simpl. done.
  - destruct Hl as [Hxy Hl]. split; [done|]. by apply IH.
Qed.

Lemma linked_app_l l k : linked (l ++ k) → linked l.
Proof.
  induction l as [|x [|y l] IH]; [done|done|].
  intros [Hxy Hl]. split; [done|]. by apply IH.
Qed.

Section EpisodeProofs.
Variables GRID_WIDTH GRID_HEIGHT : Z.
Variable maze : grid.
Hypothesis Hrect : rect GRID_WIDTH GRID_HEIGHT maze.
Variable start : cell.

Local Abbreviation Episode := (episode GRID_WIDTH GRID_HEIGHT maze start).

Lemma episode_new goal :
  is_open GRID_WIDTH GRID_HEIGHT maze start → Episode (Game10.new start goal).
Proof.
  intros Hopen. split_and!; simpl.
  - done.
  - apply NoDup_singleton.
  - done.
  - by intros c ->%list_elem_of_singleton.
  - done.
  - by left.
  - intros c. rewrite lookup_empty. case_decide as Hc; [|done].
    destruct Hc as [Hne ->%list_elem_of_singleton]. done.
Qed.

Lemma episode_tick self barriers self' out :
  Game10.tick GRID_WIDTH GRID_HEIGHT maze self barriers self' out →
  Episode self → Episode self'.
Proof.
  intros Htick (Hlast & Hnodup & Hlinked & Hopen & Hseen & Hstart & Hcost).
  assert (Hgrow : ∀ c p,
    c ∈ Game10.visited self ++ [Game10.position self] →
    c ∈ (Game10.visited self ++ [Game10.position self]) ++ [p]).
  { intros c p Hc. apply elem_of_app. by left. }
  assert (Hsame : ∀ p, p ∈ Game10.visited self ++ [Game10.position self] →
    ∀ c, (c ≠ start ∧ c ∈ Game10.visited self ++ [Game10.position self]) ↔
         (c ≠ start ∧ c ∈ (Game10.visited self ++ [Game10.position self]) ++ [p])).
  { intros p Hp c. rewrite (elem_of_app _ [p]), list_elem_of_singleton.
    split; [tauto|]. intros [? [?| ->]]; done. }
  assert (Hhere : Game10.position self
                    ∈ Game10.visited self ++ [Game10.position self]).
  { apply elem_of_app. right. by left. }
  destruct Htick as [Hidle|_ Hgoal|n _ Hne Hmin Hfresh|reason p _ Hne Hblk Hlen Hp
                    |reason _ Hne Hblk Hlen].
  - done.
  - split_and!; simpl; [done|done|done|done| | |].
    + intros c Hc. by apply Hgrow, Hseen.
    + by apply Hgrow.
    + intros c. rewrite Hcost. apply decide_ext, Hsame, Hhere.
  - pose proof (viable_open _ _ _ _ _ _ (py_min_elem _ _ _ Hmin)) as Hn.
    pose proof (viable_adjacent _ _ _ _ _ _ (py_min_elem _ _ _ Hmin)) as Hadj.
    split_and!; simpl.
    + apply last_snoc.
    + apply NoDup_app. split_and!; [done| |apply NoDup_singleton].
      intros c Hc ->%list_elem_of_singleton. by apply Hfresh, Hseen.
    + by eapply linked_snoc.
    + intros c [Hc| ->%list_elem_of_singleton]%elem_of_app; [by apply Hopen|done].
    + intros c [Hc|Hc]%elem_of_app.
      * by apply Hgrow, Hseen.
      * apply elem_of_app. by right.
    + by apply Hgrow.
    + intros c. rewrite lookup_insert. case_decide as Hc.
      * subst c. rewrite (Hcost n), decide_False by (intros [_ ?]; done). simpl.
        rewrite decide_True; [done|]. split.
        -- intros ->. done.
        -- apply elem_of_app. right. by left.
      * rewrite Hcost. apply decide_ext.
        rewrite (elem_of_app _ [n]), list_elem_of_singleton.
        split; [tauto|]. intros [? [?| ->]]; done.
  - assert (Hsplit : Game10.path self = removelast (Game10.path self)
                                          ++ [Game10.position self]).
    { destruct (Game10.path self) as [|x l _] using rev_ind; [done|].
      rewrite last_snoc in Hlast. injection Hlast as ->.
      by rewrite removelast_last. }
    assert (Hsub : ∀ c, c ∈ removelast (Game10.path self) → c ∈ Game10.path self).
    { intros c Hc. rewrite Hsplit. apply elem_of_app. by left. }
    assert (Hpin : p ∈ Game10.visited self ++ [Game10.position self]).
    { apply Hseen, Hsub. apply last_Some_elem_of. done. }
    split_and!; simpl.
    + done.
    + rewrite Hsplit in Hnodup. by apply NoDup_app in Hnodup as [? _].
    + rewrite Hsplit in Hlinked. by apply linked_app_l in Hlinked.
    + intros c Hc. by apply Hopen, Hsub.
    + intros c Hc. by apply Hgrow, Hseen, Hsub.
    + by apply Hgrow.
    + intros c. rewrite Hcost. apply decide_ext, Hsame, Hpin.
  - split_and!; simpl; [done|done|done|done| | |].
    + intros c Hc. by apply Hgrow, Hseen.
    + by apply Hgrow.
    + intros c. rewrite Hcost. apply decide_ext, Hsame, Hhere.
Qed.

Lemma episode_run goal sched k :
  is_open GRID_WIDTH GRID_HEIGHT maze start →
  ∃ self log,
    Game10.run GRID_WIDTH GRID_HEIGHT maze k sched (Game10.new start goal)
      = inr (self, log) ∧ Episode self.
Proof.
  intros Hopen. induction k as [|k (self & log & Hrun & Hep)].
  - exists (Game10.new start goal), []. split; [done|]. by apply episode_new.
  - destruct (update_tick _ _ _ Hrect self (sched k)) as (self' & out & Hupd & Htick).
    exists self', (log ++ [out]). simpl. rewrite Hrun, Hupd. split; [done|].
    by eapply episode_tick.
Qed.
End EpisodeProofs.

(** X8. In an episode of [game10.py] begun on an Open cell, after any number
    of ticks and whatever the barriers do, the path is a chain of distinct
    Open cells, each a 4-neighbour of the one before, from the start cell
    to the cell the agent stands on; so the agent never stands on a wall or
    outside the grid, and the path is never longer than the number of Open
    cells. *)
Theorem game10_path_is_simple_chain w h maze start goal sched k :
  rect w h maze → is_open w h maze start →
  ∃ self log,
    Game10.run w h maze k sched (Game10.new start goal) = inr (self, log) ∧
    head (Game10.path self) = Some start ∧
    last (Game10.path self) = Some (Game10.position self) ∧
    NoDup (Game10.path self) ∧ linked (Game10.path self) ∧
    (∀ c, c ∈ Game10.path self → is_open w h maze c) ∧
    is_open w h maze (Game10.position self) ∧
    (length (Game10.path self) ≤ length (open_cells w h maze))%nat.
Proof.
  intros Hrect Hopen.
  destruct (episode_run w h maze Hrect start goal sched k Hopen)
    as (self & log & Hrun & Hlast & Hnodup & Hlinked & Hall & _).
  destruct (game10_path_keeps_start w h maze Hrect start goal sched k)
    as (self' & log' & Hrun' & Hhead & _).
  assert (self' = self) as -> by congruence.
  exists self, log. split_and!; [done..| |].
  - apply Hall. by apply last_Some_elem_of.
  - apply submseteq_length, NoDup_submseteq; [done|].
    intros c Hc. apply list_elem_of_filter. split; [by apply Hall|].
    apply elem_of_grid_cells, Hall, Hc.
Qed.

Lemma game10_path_is_simple_chain_witness :
  rect 20 20 Game10.road ∧ is_open 20 20 Game10.road (11, 19) ∧
  ∃ self log,
    Game10.run 20 20 Game10.road 9 (λ _, Game10.boxing) Game10.road_agent
      = inr (self, log) ∧
    head (Game10.path self) = Some (11, 19) ∧
    last (Game10.path self) = Some (Game10.position self) ∧
    NoDup (Game10.path self) ∧ linked (Game10.path self) ∧
    (∀ c, c ∈ Game10.path self → is_open 20 20 Game10.road c) ∧
    is_open 20 20 Game10.road (Game10.position self) ∧
    (length (Game10.path self) ≤ length (open_cells 20 20 Game10.road))%nat.
Proof.
  split; [apply road_rect|]. split; [apply road_start_open|].
  apply (game10_path_is_simple_chain 20 20 Game10.road (11, 19) (11, 0)
           (λ _, Game10.boxing) 9).
  - apply road_rect.
  - apply road_start_open.
Defined.

(** X9. In an episode of [game10.py] begun on an Open cell, the learned
    costs are exactly the marks of the cells the agent has moved onto:
    such a cell has cost 1, every other cell, the start included, has no
    entry.  No cell is entered twice within one episode, so no cost
    exceeds 1 before a restart. *)
Theorem game10_costs_mark_entered_cells w h maze start goal sched k :
  rect w h maze → is_open w h maze start →
  ∃ self log,
    Game10.run w h maze k sched (Game10.new start goal) = inr (self, log) ∧
    ∀ c, Game10.cell_costs self !! c =
         if decide (c ≠ start ∧ c ∈ Game10.visited self ++ [Game10.position self])
         then Some 1 else None.
Proof.
  intros Hrect Hopen.
  destruct (episode_run w h maze Hrect start goal sched k Hopen)
    as (self & log & Hrun & Hep).
  exists self, log. split; [done|]. apply Hep.
Qed.

Lemma game10_costs_mark_entered_cells_witness :
  rect 20 20 Game10.road ∧ is_open 20 20 Game10.road (11, 19) ∧
  ∃ self log,
    Game10.run 20 20 Game10.road 9 (λ _, []) Game10.road_agent = inr (self, log) ∧
    ∀ c, Game10.cell_costs self !! c =
         if decide (c ≠ (11, 19) ∧ c ∈ Game10.visited self ++ [Game10.position self])
         then Some 1 else None.
Proof.
  split; [apply road_rect|]. split; [apply road_start_open|].
  apply (game10_costs_mark_entered_cells 20 20 Game10.road (11, 19) (11, 0)
           (λ _, []) 9).
  - apply road_rect.
  - apply road_start_open.
Defined.

Lemma game10_single_step_witness :
  rect 20 20 Game10.road ∧
  Game10.update 20 20 Game10.road Game10.road_agent [(10, 19)]
    = inr (Game10.moved (Game10.noted Game10.road_agent) (11, 18), []) ∧
  last (Game10.path Game10.road_agent) = Some (Game10.position Game10.road_agent) ∧
  Game10.single_step (11, 19) [(11, 19)] (11, 18).
Proof.
  split; [apply road_rect|]. split; [reflexivity|]. split; [reflexivity|].
  apply (game10_single_step 20 20 Game10.road road_rect Game10.road_agent
           [(10, 19)] (Game10.moved (Game10.noted Game10.road_agent) (11, 18)) []);
    reflexivity.
Defined.

(** ** [game10.py]: a tick followed by the collision check *)

(** X10. [main] calls [npc.update(barriers)] and then
    [barriers.check_collision(npc.position, npc.previous_position)] on the
    same barrier list.  After a tick that moved the agent, the check
    answers true exactly when a barrier stands on the cell the agent left
    and the agent went one row up: the agent never steps onto a barrier,
    so only the crossing branch can fire. *)
Theorem game10_move_collides_only_by_crossing w h maze self barriers self' out :
  rect w h maze →
  Game10.update w h maze self barriers = inr (self', out) →
  Game10.path self' = Game10.path self ++ [Game10.position self'] →
  Game10.check_collision barriers (Game10.position self')
    (Game10.previous_position self') = true ↔
  Game10.position self ∈ barriers ∧
  Game10.position self' = shift (Game10.position self) (0, -1).
Proof.
  intros Hrect Hupd Hpath.
  destruct (update_tick w h maze Hrect self barriers) as (self'' & out' & Hupd' & Htick).
  assert (self'' = self') as -> by congruence. clear Hupd Hupd'.
  assert (Hlen : length (Game10.path self') = S (length (Game10.path self))).
  { rewrite Hpath, length_app. simpl. lia. }
  destruct Htick as [Hidle|_ Hgoal|n _ Hne Hmin Hfresh|reason p _ Hne Hblk Hlen' Hp
                    |reason _ Hne Hblk Hlen']; simpl in Hlen; try lia.
  - clear Hlen Hpath. simpl. rewrite check_collision_spec.
    pose proof (py_min_elem _ _ _ Hmin) as Hn.
    assert (Hfree : n ∉ barriers).
    { unfold Game10.viable in Hn. by apply list_elem_of_filter in Hn as [? _]. }
    destruct (Game10.position self) as [px py] eqn:Hpos. split.
    + intros (x & y & Hin & [Hd|[-> Hprev]]).
      * subst n. done.
      * injection Hprev as -> ->. split; [done|]. unfold shift. simpl. f_equal; lia.
    + intros [Hin ->]. exists px, py. split; [done|]. right.
      split; [|done]. unfold shift. simpl. f_equal; lia.
  - rewrite length_removelast in Hlen. lia.
Qed.

Lemma game10_move_collides_only_by_crossing_witness :
  rect 20 20 Game10.road ∧
  Game10.update 20 20 Game10.road Game10.road_agent [(11, 19)]
    = inr (Game10.moved (Game10.noted Game10.road_agent) (11, 18), []) ∧
  (Game10.check_collision [(11, 19)] (11, 18) (Some (11, 19)) = true ↔
   (11, 19) ∈ [(11, 19)] ∧ (11, 18) = shift (11, 19) (0, -1)).
Proof.
  split; [apply road_rect|]. split; [reflexivity|].
  apply (game10_move_collides_only_by_crossing 20 20 Game10.road
           Game10.road_agent [(11, 19)]
           (Game10.moved (Game10.noted Game10.road_agent) (11, 18)) []);
    [apply road_rect|reflexivity|reflexivity].
Defined.

(** X11. In [game10.py] the state GOAL_REACHED is entered only by a tick
    that begins on the goal cell, and that tick does not move the agent;
    once the agent is not MOVING, further ticks change nothing and print
    nothing. *)
Theorem game10_goal_is_reached_on_the_goal w h maze self barriers self' out :
  Game10.update w h maze self barriers = inr (self', out) →
  Game10.fsm self' = Game10.GOAL_REACHED →
  ((Game10.fsm self = Game10.GOAL_REACHED ∧ self' = self) ∨
   (Game10.fsm self = Game10.MOVING ∧ Game10.position self = Game10.goal self ∧
    Game10.position self' = Game10.goal self)) ∧
  ∀ k sched, Game10.run w h maze k sched self'
               = inr (self', replicate k []).
Proof.
  intros Hupd Hgoal.
  assert (Hsink : ∀ s k sched, Game10.fsm s ≠ Game10.MOVING →
            Game10.run w h maze k sched s = inr (s, replicate k [])).
  { intros s k sched Hs. induction k as [|k IH]; [done|].
    rewrite replicate_S_end. simpl. rewrite IH. unfold Game10.update.
    by destruct (Game10.fsm s). }
  split; [|intros; apply Hsink; by rewrite Hgoal].
  unfold Game10.update in Hupd.
  destruct (Game10.fsm self) eqn:Hfsm.
  - injection Hupd as <- <-. congruence.
  - right. simpl in Hupd. case_bool_decide as Hat.
    + injection Hupd as <- <-. done.
    + exfalso.
      assert (Hbt : ∀ s s' o, Game10.fsm s = Game10.MOVING →
                Game10.backtrack s = inr (s', o) → Game10.fsm s' = Game10.MOVING).
      { intros s s' o Hs Hb. unfold Game10.backtrack in Hb.
        case_bool_decide; [|by injection Hb as <- <-].
        destruct (py_get _ _); [|done]. by injection Hb as <- <-. }
      destruct (Game10.get_neighbors _ _ _ _) as [e|ns]; [done|].
      destruct (filter _ ns) as [|n0 ns'].
      * destruct (Game10.backtrack _) as [e|[s o]] eqn:Hb; [done|].
        injection Hupd as <- <-. apply Hbt in Hb; [|done]. congruence.
      * destruct (py_min _ _) as [n|]; [|done].
        case_bool_decide.
        -- destruct (Game10.backtrack _) as [e|[s o]] eqn:Hb; [done|].
           injection Hupd as <- <-. apply Hbt in Hb; [|done]. congruence.
        -- injection Hupd as <- <-. simpl in Hgoal. congruence.
  - injection Hupd as <- <-. left. done.
Qed.

Lemma game10_goal_is_reached_on_the_goal_witness :
  let self := Game10.new (11, 0) (11, 0) in
  let self' := Game10.arrived (Game10.noted self) in
  Game10.update 20 20 Game10.road self [] = inr (self', []) ∧
  Game10.fsm self' = Game10.GOAL_REACHED ∧
  ((Game10.fsm self = Game10.GOAL_REACHED ∧ self' = self) ∨
   (Game10.fsm self = Game10.MOVING ∧ Game10.position self = Game10.goal self ∧
    Game10.position self' = Game10.goal self)) ∧
  ∀ k sched, Game10.run 20 20 Game10.road k sched self'
               = inr (self', replicate k []).
Proof.
  intros self self'. split; [reflexivity|]. split; [reflexivity|].
  apply (game10_goal_is_reached_on_the_goal 20 20 Game10.road self [] self' []);
    reflexivity.
Defined.

(** ** The barriers of [game10.py] and [lrtastar.py] *)

Lemma randint_range draws i a b :
  a ≤ b →
  Barrier.randint draws i a b = inr (a + draws i `mod` (b - a + 1)) ∧
  a ≤ a + draws i `mod` (b - a + 1) ≤ b.
Proof.
  intros Hab. unfold Barrier.randint. rewrite bool_decide_eq_true_2 by done.
  split; [done|]. pose proof (Z.mod_pos_bound (draws i) (b - a + 1)). lia.
Qed.

(** Two mazes of the same shape with the same cells are the same list. *)
Lemma rect_ext w h (maze maze' : grid) :
  rect w h maze → rect w h maze' →
  (∀ c, 0 ≤ c.1 < w ∧ 0 ≤ c.2 < h → maze_at maze' c = maze_at maze c) →
  maze' = maze.
Proof.
  intros Hrect Hrect' Hsame. apply list_eq. intros j.
  destruct (decide (j < length maze)%nat) as [Hj|Hj].
  - destruct (lookup_lt_is_Some_2 maze j Hj) as [row Hrow].
    destruct (lookup_lt_is_Some_2 maze' j) as [row' Hrow'].
    { destruct Hrect as [? _], Hrect' as [? _]. lia. }
    rewrite Hrow, Hrow'. f_equal. apply list_eq. intros k.
    assert (Hlen : Z.of_nat (length row) = w).
    { destruct Hrect as [_ Hw]. rewrite Forall_forall in Hw.
      apply Hw. by eapply list_elem_of_lookup_2. }
    assert (Hlen' : Z.of_nat (length row') = w).
    { destruct Hrect' as [_ Hw]. rewrite Forall_forall in Hw.
      apply Hw. by eapply list_elem_of_lookup_2. }
    destruct (decide (k < length row)%nat) as [Hk|Hk].
    + specialize (Hsame (Z.of_nat k, Z.of_nat j)). simpl in Hsame.
      specialize (Hsame ltac:(destruct Hrect as [? _]; lia)).
      unfold maze_at, py_get in Hsame. simpl in Hsame.
      rewrite !(bool_decide_eq_true_2 (0 ≤ Z.of_nat j)) in Hsame by lia.
      rewrite !Nat2Z.id, Hrow, Hrow' in Hsame. simpl in Hsame.
      rewrite !(bool_decide_eq_true_2 (0 ≤ Z.of_nat k)) in Hsame by lia.
      done.
    + rewrite !lookup_ge_None_2; [done|lia|lia].
  - destruct Hrect as [? _], Hrect' as [? _].
    rewrite !lookup_ge_None_2; [done|lia|lia].
Qed.

Section BarrierProofs.
Variables w h lo hi : Z.
Variable draws : nat → Z.
Hypothesis Hlane : 0 ≤ lo ∧ lo ≤ hi < w.
Hypothesis Hrows : 2 ≤ h.

Local Abbreviation InRoad c := (lo ≤ c.1 ≤ hi ∧ 0 ≤ c.2 < h).
Local Abbreviation InCells c := (0 ≤ c.1 < w ∧ 0 ≤ c.2 < h).
Local Abbreviation Sweep := (Barrier.sweep lo hi h draws).
Local Abbreviation Cleared maze maze' :=
  (∀ c, InCells c → maze_at maze' c = maze_at maze c ∨
                    (maze_at maze' c = Some 0 ∧ lo ≤ c.1 ≤ hi)).

Lemma cleared_refl maze : Cleared maze maze.
Proof. intros c _. by left. Qed.

Lemma cleared_trans maze1 maze2 maze3 :
  Cleared maze1 maze2 → Cleared maze2 maze3 → Cleared maze1 maze3.
Proof.
  intros H12 H23 c Hc.
  destruct (H23 c Hc) as [->|?]; [by apply H12|by right].
Qed.

Lemma cleared_set maze c :
  rect w h maze → InRoad c →
  ∃ maze', Lrtastar.maze_set maze c 0 = Some maze' ∧ rect w h maze' ∧
           Cleared maze maze' ∧ maze_at maze' c = Some 0.
Proof.
  intros Hrect Hc.
  destruct (maze_set_spec w h maze c 0 Hrect) as (maze' & Hset & Hrect' & Hat & Hframe);
    [lia|].
  exists maze'. split_and!; [done|done| |done].
  intros c' Hc'. destruct (decide (c' = c)) as [->|Hne]; [right; split; [done|lia]|].
  left. by apply Hframe.
Qed.

Lemma visits_le (bs : list cell) : (Barrier.visits h bs ≤ 2 * length bs)%nat.
Proof.
  unfold Barrier.visits.
  assert (length (Barrier.at_bottom h bs) ≤ length bs)%nat by apply length_filter.
  lia.
Qed.

Lemma barriers_cons_moving (x y : Z) (rest : list cell) :
  y + 1 < h →
  Barrier.at_bottom h (@cons cell (x, y) rest) = Barrier.at_bottom h rest ∧
  Barrier.moved_down h (@cons cell (x, y) rest) = (x, y + 1) :: Barrier.moved_down h rest.
Proof.
  intros Hy. unfold Barrier.at_bottom, Barrier.moved_down.
  rewrite !filter_cons. cbn [fst snd].
  rewrite (decide_True (P := y + 1 < h)) by done.
  rewrite (decide_False (P := ¬ y + 1 < h)) by tauto. done.
Qed.

Lemma barriers_cons_bottom (x y : Z) (rest : list cell) :
  ¬ y + 1 < h →
  Barrier.at_bottom h (@cons cell (x, y) rest) = (x, y) :: Barrier.at_bottom h rest ∧
  Barrier.moved_down h (@cons cell (x, y) rest) = Barrier.moved_down h rest.
Proof.
  intros Hy. unfold Barrier.at_bottom, Barrier.moved_down.
  rewrite !filter_cons. cbn [fst snd].
  rewrite (decide_False (P := y + 1 < h)) by done.
  rewrite (decide_True (P := ¬ y + 1 < h)) by done. done.
Qed.

Lemma barriers_snoc_top (x : Z) (rest : list cell) :
  Barrier.at_bottom h (rest ++ [(x, 0)]) = Barrier.at_bottom h rest ∧
  Barrier.moved_down h (rest ++ [(x, 0)]) = Barrier.moved_down h rest ++ [(x, 1)].
Proof.
  unfold Barrier.at_bottom, Barrier.moved_down.
  rewrite !filter_app, !filter_cons, !filter_nil. cbn [fst snd].
  rewrite (decide_True (P := 0 + 1 < h)) by lia.
  rewrite (decide_False (P := ¬ 0 + 1 < h)) by lia.
  by rewrite app_nil_r, fmap_app.
Qed.

Lemma sweep_spec n : ∀ todo fuel maze i new_barriers,
  (Barrier.visits h todo ≤ n)%nat → (n < fuel)%nat →
  rect w h maze → (∀ c, c ∈ todo → InRoad c) →
  ∃ maze',
    Sweep fuel maze i todo new_barriers =
      Return (maze', (i + length (Barrier.at_bottom h todo))%nat,
              new_barriers ++ Barrier.moved_down h todo ++
              Barrier.respawned lo hi draws i (length (Barrier.at_bottom h todo))) ∧
    rect w h maze' ∧ Cleared maze maze' ∧
    ∀ c, c ∈ todo → maze_at maze' c = Some 0.
Proof.
  induction n as [|n IH]; intros todo fuel maze i new_barriers Hn Hfuel Hrect Hroad.
  - destruct todo as [|c todo]; [|unfold Barrier.visits in Hn; simpl in Hn; lia].
    destruct fuel as [|fuel]; [lia|]. exists maze. simpl.
    rewrite Nat.add_0_r, app_nil_r.
    split_and!; [done|done|apply cleared_refl|]. by intros c ?%elem_of_nil.
  - destruct todo as [|[x y] rest].
    { destruct fuel as [|fuel]; [lia|]. exists maze. simpl.
      rewrite Nat.add_0_r, app_nil_r.
      split_and!; [done|done|apply cleared_refl|]. by intros c ?%elem_of_nil. }
    destruct fuel as [|fuel]; [lia|].
    assert (Hxy : InRoad (x, y)) by (apply Hroad; by left).
    assert (Hrest : ∀ c, c ∈ rest → InRoad c) by (intros c ?; apply Hroad; by right).
    simpl in Hxy.
    destruct (cleared_set maze (x, y) Hrect) as (maze1 & Hset & Hrect1 & Hcl1 & Hat1);
      [simpl; lia|].
    cbn [Barrier.sweep]. rewrite Hset. unfold Barrier.visits in Hn.
    case_bool_decide as Hy.
    + destruct (barriers_cons_moving x y rest Hy) as [Hb Hm].
      rewrite Hb, Hm. rewrite Hb in Hn. cbn [length] in Hn.
      destruct (IH rest fuel maze1 i (new_barriers ++ [(x, y + 1)]))
        as (maze' & Hsweep & Hrect' & Hcl' & Hzero);
        [unfold Barrier.visits; lia|lia|done|done|].
      exists maze'. rewrite Hsweep, <- !app_assoc. simpl.
      split_and!; [done|done|by eapply cleared_trans|].
      intros c [->|Hc]%elem_of_cons; [|by apply Hzero].
      destruct (Hcl' (x, y)) as [->|[? _]]; [simpl; lia|done|done].
    + destruct (barriers_cons_bottom x y rest Hy) as [Hb Hm].
      rewrite Hb, Hm. rewrite Hb in Hn. cbn [length] in Hn.
      destruct (randint_range draws i lo hi) as [Hrand Hrange]; [lia|].
      rewrite Hrand. set (x' := lo + draws i `mod` (hi - lo + 1)) in *.
      destruct (barriers_snoc_top x' rest) as [Hb' Hm'].
      destruct (IH (rest ++ [(x', 0)]) fuel maze1 (S i) new_barriers)
        as (maze' & Hsweep & Hrect' & Hcl' & Hzero).
      { unfold Barrier.visits. rewrite Hb', length_app. cbn [length]. lia. }
      { lia. }
      { done. }
      { intros c [Hc| ->%list_elem_of_singleton]%elem_of_app; [by apply Hrest|].
        simpl. lia. }
      exists maze'. rewrite Hsweep, Hb', Hm', <- !app_assoc.
      cbn [length]. unfold Barrier.respawned at 2. cbn [seq fmap list_fmap]. 
      fold (Barrier.respawned lo hi draws (S i) (length (Barrier.at_bottom h rest))).
      fold x'. rewrite Nat.add_succ_r. simpl.
      split_and!; [done|done|by eapply cleared_trans|].
      intros c [->|Hc]%elem_of_cons.
      * destruct (Hcl' (x, y)) as [->|[? _]]; [simpl; lia|done|done].
      * apply Hzero, elem_of_app. by left.
Qed.

Lemma initial_spawn_spec n : ∀ i bs,
  ∃ added,
    Barrier.initial_spawn lo hi h draws n i bs = inr ((i + 2 * n)%nat, bs ++ added) ∧
    length added = n ∧ ∀ c, c ∈ added → InRoad c.
Proof.
  induction n as [|n IH]; intros i bs.
  - exists []. simpl. rewrite Nat.add_0_r, app_nil_r.
    split_and!; [done|done|]. by intros c ?%elem_of_nil.
  - cbn [Barrier.initial_spawn].
    destruct (randint_range draws i lo hi) as [-> Hx]; [lia|].
    destruct (randint_range draws (S i) 0 (h - 1)) as [-> Hy]; [lia|].
    destruct (IH (S (S i)) (bs ++ [(lo + draws i `mod` (hi - lo + 1),
                                    0 + draws (S i) `mod` (h - 1 - 0 + 1))]))
      as (added & -> & Hlen & Hall).
    eexists (_ :: added). rewrite <- app_assoc. split_and!.
    + simpl. do 2 f_equal. lia.
    + simpl. by rewrite Hlen.
    + intros c [->|Hc]%elem_of_cons; [simpl; lia|by apply Hall].
Qed.

Lemma update_spec maze i self fuel :
  rect w h maze → (∀ c, c ∈ Barrier.barriers self → InRoad c) →
  (2 * (length (Barrier.barriers self)
        + if Barrier.initial_spawned self then 0 else 4) < fuel)%nat →
  ∃ maze' i' bs',
    Barrier.update lo hi h draws fuel maze i self =
      Return (maze', i', {| Barrier.barriers := bs'; Barrier.initial_spawned := true |}) ∧
    length bs' = (length (Barrier.barriers self)
                  + if Barrier.initial_spawned self then 0 else 4)%nat ∧
    (∀ c, c ∈ bs' → lo ≤ c.1 ≤ hi ∧ 1 ≤ c.2 < h) ∧
    rect w h maze' ∧ Cleared maze maze'.
Proof.
  intros Hrect Hroad Hfuel. unfold Barrier.update.
  assert (Hspawn : ∃ i1 todo,
    (if Barrier.initial_spawned self then inr (i, Barrier.barriers self)
     else Barrier.initial_spawn lo hi h draws 4 i (Barrier.barriers self))
      = inr (i1, todo) ∧
    length todo = (length (Barrier.barriers self)
                   + if Barrier.initial_spawned self then 0 else 4)%nat ∧
    ∀ c, c ∈ todo → InRoad c).
  { destruct (Barrier.initial_spawned self).
    - eexists _, _. split; [done|]. split; [lia|done].
    - destruct (initial_spawn_spec 4 i (Barrier.barriers self))
        as (added & Hsp & Hlen & Hall).
      eexists _, _. split; [done|]. split; [rewrite length_app; lia|].
      intros c [Hc|Hc]%elem_of_app; [by apply Hroad|by apply Hall]. }
  destruct Hspawn as (i1 & todo & -> & Hlen & Htodo).
  pose proof (visits_le todo) as Hle.
  destruct (sweep_spec (Barrier.visits h todo) todo fuel maze i1 [])
    as (maze' & -> & Hrect' & Hcl & _); [done|lia|done|done|].
  eexists _, _, _. split; [done|]. rewrite app_nil_l. split_and!; [|  |done|done].
  - rewrite length_app. unfold Barrier.moved_down, Barrier.respawned,
      Barrier.at_bottom.
    rewrite !length_fmap, length_seq, <- Hlen, <- length_app.
    apply Permutation_length, filter_app_complement.
  - intros c [Hc|Hc]%elem_of_app.
    + unfold Barrier.moved_down in Hc.
      apply list_elem_of_fmap in Hc as (c0 & -> & Hc0).
      apply list_elem_of_filter in Hc0 as [Hrow Hc0]. apply Htodo in Hc0.
      simpl. lia.
    + unfold Barrier.respawned in Hc.
      apply list_elem_of_fmap in Hc as (j & -> & _). simpl.
      pose proof (Z.mod_pos_bound (draws j) (hi - lo + 1)). lia.
Qed.
End BarrierProofs.

(** X12. [Barrier.update] of [game10.py] and [lrtastar.py], once the
    barriers are spawned, on a grid of at least two rows: the call returns;
    each barrier above the bottom row moves one row down, in order; each
    barrier in the bottom row is replaced by one in row 1 (not row 0: the
    loop also visits the barrier it has just put in row 0) of a drawn
    column, and these come last; every cell a barrier stood on is set to 0
    and no cell of the maze gets another value. *)
Theorem barrier_update_moves_and_respawns w h lo hi draws maze i bs fuel :
  0 ≤ lo ∧ lo ≤ hi < w → 2 ≤ h → rect w h maze →
  (∀ c, c ∈ bs → lo ≤ c.1 ≤ hi ∧ 0 ≤ c.2 < h) →
  (2 * length bs < fuel)%nat →
  ∃ maze',
    Barrier.update lo hi h draws fuel maze i
      {| Barrier.barriers := bs; Barrier.initial_spawned := true |} =
    Return (maze', (i + length (Barrier.at_bottom h bs))%nat,
            {| Barrier.barriers :=
                 Barrier.moved_down h bs ++
                 Barrier.respawned lo hi draws i (length (Barrier.at_bottom h bs));
               Barrier.initial_spawned := true |}) ∧
    rect w h maze' ∧
    (∀ c, c ∈ bs → maze_at maze' c = Some 0) ∧
    (∀ c, 0 ≤ c.1 < w ∧ 0 ≤ c.2 < h →
          maze_at maze' c = maze_at maze c ∨ maze_at maze' c = Some 0).
Proof.
  intros Hlane Hrows Hrect Hroad Hfuel. unfold Barrier.update. simpl.
  pose proof (visits_le h bs) as Hle.
  destruct (sweep_spec w h lo hi draws Hlane Hrows (Barrier.visits h bs) bs fuel maze i [])
    as (maze' & -> & Hrect' & Hcl & Hzero); [done|lia|done|done|].
  exists maze'. split_and!; [done|done|done|].
  intros c Hc. destruct (Hcl c Hc) as [?|[? _]]; [by left|by right].
Qed.

Lemma barrier_update_moves_and_respawns_witness :
  (0 ≤ 10 ∧ 10 ≤ 12 < 20) ∧ 2 ≤ 20 ∧ rect 20 20 Game10.road ∧
  (∀ c, c ∈ Barrier.convoy → 10 ≤ c.1 ≤ 12 ∧ 0 ≤ c.2 < 20) ∧
  (2 * length Barrier.convoy < 5)%nat ∧
  ∃ maze',
    Barrier.update 10 12 20 (λ j, Z.of_nat j) 5 Game10.road 0
      {| Barrier.barriers := Barrier.convoy; Barrier.initial_spawned := true |} =
    Return (maze', (0 + length (Barrier.at_bottom 20 Barrier.convoy))%nat,
            {| Barrier.barriers :=
                 Barrier.moved_down 20 Barrier.convoy ++
                 Barrier.respawned 10 12 (λ j, Z.of_nat j) 0
                   (length (Barrier.at_bottom 20 Barrier.convoy));
               Barrier.initial_spawned := true |}) ∧
    rect 20 20 maze' ∧
    (∀ c, c ∈ Barrier.convoy → maze_at maze' c = Some 0) ∧
    (∀ c, 0 ≤ c.1 < 20 ∧ 0 ≤ c.2 < 20 →
          maze_at maze' c = maze_at Game10.road c ∨ maze_at maze' c = Some 0).
Proof.
  assert (Hbs : ∀ c : cell, c ∈ Barrier.convoy → 10 ≤ c.1 ≤ 12 ∧ 0 ≤ c.2 < 20).
  { intros c Hc. unfold Barrier.convoy in Hc. repeat (apply elem_of_cons in Hc as [->|Hc]); simpl; try lia.
    by apply elem_of_nil in Hc. }
  split; [lia|]. split; [lia|]. split; [apply road_rect|]. split; [exact Hbs|].
  split; [simpl; lia|].
  apply (barrier_update_moves_and_respawns 20 20 10 12 (λ j, Z.of_nat j)
           Game10.road 0 Barrier.convoy 5);
    [lia|lia|apply road_rect|exact Hbs|simpl; lia].
Defined.

(** X13. The barriers of [game10.py] and [lrtastar.py] over any number of
    calls of [update], beginning with [Barrier()], on a grid of at least
    two rows: no call raises or loops; after the first call there are
    always exactly four barriers, each in a lane column and in a row from 1
    to the bottom, never in row 0; the maze keeps its shape and its cells
    change only to 0, and only in lane columns, so a maze whose lane cells
    are all 0 (the road of [game10.py]) is never changed. *)
Theorem barrier_traffic_invariant w h lo hi draws maze i fuel k :
  0 ≤ lo ∧ lo ≤ hi < w → 2 ≤ h → rect w h maze → (8 < fuel)%nat → (1 ≤ k)%nat →
  ∃ maze' i' bs',
    Barrier.run lo hi h draws fuel k maze i Barrier.new =
      Return (maze', i', {| Barrier.barriers := bs'; Barrier.initial_spawned := true |}) ∧
    length bs' = 4%nat ∧
    (∀ c, c ∈ bs' → lo ≤ c.1 ≤ hi ∧ 1 ≤ c.2 < h) ∧
    rect w h maze' ∧
    (∀ c, 0 ≤ c.1 < w ∧ 0 ≤ c.2 < h →
          maze_at maze' c = maze_at maze c ∨
          (maze_at maze' c = Some 0 ∧ lo ≤ c.1 ≤ hi)) ∧
    ((∀ c, lo ≤ c.1 ≤ hi ∧ 0 ≤ c.2 < h → maze_at maze c = Some 0) → maze' = maze).
Proof.
  intros Hlane Hrows Hrect Hfuel Hk.
  assert (Hrun : ∃ maze' i' bs',
    Barrier.run lo hi h draws fuel k maze i Barrier.new =
      Return (maze', i', {| Barrier.barriers := bs'; Barrier.initial_spawned := true |}) ∧
    length bs' = 4%nat ∧
    (∀ c, c ∈ bs' → lo ≤ c.1 ≤ hi ∧ 1 ≤ c.2 < h) ∧
    rect w h maze' ∧
    (∀ c, 0 ≤ c.1 < w ∧ 0 ≤ c.2 < h →
          maze_at maze' c = maze_at maze c ∨
          (maze_at maze' c = Some 0 ∧ lo ≤ c.1 ≤ hi))).
  { induction k as [|k IH]; [lia|]. cbn [Barrier.run].
    destruct k as [|k].
    - cbn [Barrier.run].
      destruct (update_spec w h lo hi draws Hlane Hrows maze i Barrier.new fuel)
        as (maze' & i' & bs' & -> & Hlen & Hall & Hrect' & Hcl);
        [done|by intros c ?%elem_of_nil|simpl; lia|].
      exists maze', i', bs'. done.
    - destruct IH as (maze1 & i1 & bs1 & -> & Hlen1 & Hall1 & Hrect1 & Hcl1); [lia|].
      destruct (update_spec w h lo hi draws Hlane Hrows maze1 i1
                  {| Barrier.barriers := bs1; Barrier.initial_spawned := true |} fuel)
        as (maze' & i' & bs' & -> & Hlen & Hall & Hrect' & Hcl);
        [done|intros c Hc; apply Hall1 in Hc; lia|simpl; lia|].
      exists maze', i', bs'. simpl in Hlen. split_and!; [done|lia|done|done|].
      by eapply cleared_trans. }
  destruct Hrun as (maze' & i' & bs' & Hrun & Hlen & Hall & Hrect' & Hcl).
  exists maze', i', bs'. split_and!; [done..|].
  intros Hopen. apply (rect_ext w h); [done|done|].
  intros c Hc. destruct (Hcl c Hc) as [?|[-> ?]]; [done|].
  symmetry. apply Hopen. lia.
Qed.

Lemma barrier_traffic_invariant_witness :
  (0 ≤ 10 ∧ 10 ≤ 12 < 20) ∧ 2 ≤ 20 ∧ rect 20 20 Game10.road ∧ (8 < 9)%nat ∧
  (1 ≤ 25)%nat ∧
  ∃ maze' i' bs',
    Barrier.run 10 12 20 (λ j, Z.of_nat j) 9 25 Game10.road 0 Barrier.new =
      Return (maze', i', {| Barrier.barriers := bs'; Barrier.initial_spawned := true |}) ∧
    length bs' = 4%nat ∧
    (∀ c, c ∈ bs' → 10 ≤ c.1 ≤ 12 ∧ 1 ≤ c.2 < 20) ∧
    rect 20 20 maze' ∧
    (∀ c, 0 ≤ c.1 < 20 ∧ 0 ≤ c.2 < 20 →
          maze_at maze' c = maze_at Game10.road c ∨
          (maze_at maze' c = Some 0 ∧ 10 ≤ c.1 ≤ 12)) ∧
    ((∀ c, 10 ≤ c.1 ≤ 12 ∧ 0 ≤ c.2 < 20 → maze_at Game10.road c = Some 0) →
     maze' = Game10.road).
Proof.
  split; [lia|]. split; [lia|]. split; [apply road_rect|]. split; [lia|].
  split; [lia|].
  apply (barrier_traffic_invariant 20 20 10 12 (λ j, Z.of_nat j) Game10.road 0 9 25);
    [lia|lia|apply road_rect|lia|lia].
Defined.

(** ** [game10.py]: an episode after [restart_game] *)

(** An episode that begins with an empty visited list on an Open cell ends
    within twice the number of Open cells, whatever costs the agent has
    learned before. *)
Lemma game10_bounded_from w h maze self sched :
  rect w h maze → is_open w h maze (Game10.position self) →
  Game10.fsm self = Game10.MOVING → Game10.visited self = [] →
  Game10.path self = [Game10.position self] →
  ∃ j self' log out,
    (1 ≤ j ≤ 2 * length (open_cells w h maze))%nat ∧
    Game10.run w h maze j sched self = inr (self', log ++ [out]) ∧
    (Game10.fsm self' = Game10.GOAL_REACHED ∨ Game10.stuck out).
Proof.
  intros Hrect Hopen Hfsm Hvis Hpath.
  set (cells := open_cells w h maze).
  assert (Hinit : (Game10.effort w h maze self + 1 ≤ 2 * length cells)%nat).
  { unfold Game10.effort. rewrite Hvis, Hpath. simpl.
    pose proof (filter_length_lt (λ c, c ∉ [Game10.position self]) (λ _, True)
                  cells (Game10.position self)) as Hlt.
    cbv beta in Hlt.
    assert (Hin : Game10.position self ∈ cells).
    { apply list_elem_of_filter. split; [done|]. apply elem_of_grid_cells, Hopen. }
    specialize (Hlt ltac:(done) Hin I ltac:(intros Hn; apply Hn; by left)).
    assert (Hall : filter (λ _ : cell, True) cells = cells).
    { clear. induction cells as [|x l IH]; [done|].
      rewrite filter_cons, decide_True by done. by rewrite IH. }
    rewrite Hall in Hlt. fold cells. lia. }
  destruct (run_progress w h maze Hrect sched self (Game10.effort w h maze self) Hfsm)
    as [(j & self' & log & out & Hj & Hrun & Hterm)|(self' & log & Hrun & Hfsm' & Heff)].
  - exists j, self', log, out. split; [lia|done].
  - destruct (update_tick w h maze Hrect self'
                (sched (Game10.effort w h maze self))) as (self'' & out & Hupd & Htick).
    destruct (tick_effort w h maze _ _ _ _ Htick Hfsm') as [Hterm|[_ Hlt]]; [|lia].
    exists (S (Game10.effort w h maze self)), self'', log, out.
    split; [lia|]. split; [|done]. simpl. by rewrite Hrun, Hupd.
Qed.

(** X14. [restart_game] of [game10.py], with the module's 20 by 20 grid:
    it never raises, rebuilds the road, empties the barriers, and puts the
    agent on a bottom road cell with a top road cell as goal, a one-cell
    path and no visited cells, but with the costs it had learned; from
    there the planner again reaches the goal or prints Stuck within twice
    the number of road cells, whatever the barriers do and whatever those
    costs are. *)
Theorem game10_restart_begins_bounded_episode draws i npc barriers :
  ∃ x gx npc',
    10 ≤ x ≤ 12 ∧ 10 ≤ gx ≤ 12 ∧
    Game10Restart.restart_game 20 20 draws i npc barriers
      = inr (Game10.road, S (S i), npc', Barrier.new) ∧
    Game10.position npc' = (x, 19) ∧ Game10.goal npc' = (gx, 0) ∧
    Game10.path npc' = [(x, 19)] ∧ Game10.visited npc' = [] ∧
    Game10.previous_position npc' = None ∧ Game10.fsm npc' = Game10.MOVING ∧
    Game10.cell_costs npc' = Game10.cell_costs npc ∧
    ∀ sched, ∃ j self log out,
      (1 ≤ j ≤ 2 * length (open_cells 20 20 Game10.road))%nat ∧
      Game10.run 20 20 Game10.road j sched npc' = inr (self, log ++ [out]) ∧
      (Game10.fsm self = Game10.GOAL_REACHED ∨ Game10.stuck out).
Proof.
  unfold Game10Restart.restart_game.
  assert (Hmaze : Game10Restart.fresh_maze 20 20 = inr Game10.road) by reflexivity.
  rewrite Hmaze.
  destruct (randint_range draws i 10 12) as [-> Hx]; [lia|].
  destruct (randint_range draws (S i) 10 12) as [-> Hgx]; [lia|].
  set (x := 10 + draws i `mod` (12 - 10 + 1)) in *.
  set (gx := 10 + draws (S i) `mod` (12 - 10 + 1)) in *.
  eexists x, gx, _. split; [done|]. split; [done|]. split; [reflexivity|].
  split_and!; [reflexivity..|].
  intros sched. apply game10_bounded_from; [apply road_rect| |done|done|done].
  cbn [Game10.position]. assert (Hcases : x = 10 ∨ x = 11 ∨ x = 12) by lia.
  destruct Hcases as [-> | [-> | ->]]; by vm_compute.
Qed.

(** ** [lrtastar.py]: what the agent writes into the maze *)

Lemma manhattan_pos (a b : cell) : a ≠ b → 0 < manhattan a b.
Proof.
  destruct a as [ax ay], b as [bx by']. unfold manhattan. simpl. intros Hne.
  destruct (decide (ax = bx)) as [->|?]; [|lia].
  destruct (decide (ay = by')) as [->|?]; [done|lia].
Qed.

(** X15. An episode of [lrtastar.py] on a rectangular maze, begun inside
    the grid: no tick raises, the maze keeps its shape, the agent stays
    inside the grid, and every cell the agent has not stood on still holds
    the value it had when the episode began. *)
Theorem lrtastar_writes_only_where_it_stood w h maze0 start goal k :
  rect w h maze0 → (0 ≤ start.1 < w ∧ 0 ≤ start.2 < h) →
  ∃ maze self log,
    Lrtastar.run w h k maze0 (Lrtastar.new start goal) = inr (maze, self, log) ∧
    rect w h maze ∧
    (0 ≤ (Lrtastar.position self).1 < w ∧ 0 ≤ (Lrtastar.position self).2 < h) ∧
    ∀ c, 0 ≤ c.1 < w → 0 ≤ c.2 < h →
         c ∉ Lrtastar.visited self ++ [Lrtastar.position self] →
         maze_at maze c = maze_at maze0 c.
Proof.
  intros Hrect Hstart.
  assert (Hrun : ∃ maze self log,
    Lrtastar.run w h k maze0 (Lrtastar.new start goal) = inr (maze, self, log) ∧
    Lrtastar.steady w h maze0 maze self).
  { induction k as [|k (maze & self & log & Hrun & Hsteady)].
    - exists maze0, (Lrtastar.new start goal), []. split; [done|].
      by apply lrta_new_steady.
    - destruct (lrta_update_steady w h maze0 maze self Hsteady)
        as (maze' & self' & out & Hupd & _ & _ & Hsteady').
      exists maze', self', (log ++ [out]). simpl. by rewrite Hrun, Hupd. }
  destruct Hrun as (maze & self & log & Hrun & Hsteady).
  exists maze, self, log. split; [done|].
  pose proof (steady_position w h maze0 maze self Hsteady) as Hpos.
  destruct Hsteady as (Hrect' & _ & _ & Hframe). done.
Qed.

Lemma lrtastar_writes_only_where_it_stood_witness :
  rect 3 20 Lrtastar.lanes ∧ (0 ≤ 1 < 3 ∧ 0 ≤ 19 < 20) ∧
  ∃ maze self log,
    Lrtastar.run 3 20 5 Lrtastar.lanes (Lrtastar.new (1, 19) (1, 0))
      = inr (maze, self, log) ∧
    rect 3 20 maze ∧
    (0 ≤ (Lrtastar.position self).1 < 3 ∧ 0 ≤ (Lrtastar.position self).2 < 20) ∧
    ∀ c, 0 ≤ c.1 < 3 → 0 ≤ c.2 < 20 →
         c ∉ Lrtastar.visited self ++ [Lrtastar.position self] →
         maze_at maze c = maze_at Lrtastar.lanes c.
Proof.
  assert (Hrect : rect 3 20 Lrtastar.lanes).
  { split; [reflexivity|]. unfold Lrtastar.lanes. apply Forall_replicate. reflexivity. }
  split; [exact Hrect|]. split; [lia|].
  apply (lrtastar_writes_only_where_it_stood 3 20 Lrtastar.lanes (1, 19) (1, 0) 5);
    [exact Hrect|simpl; lia].
Defined.

(** X16. In [lrtastar.py] a tick that moves the agent to a cell other than
    the goal leaves a wall behind: the cell the agent stood on now holds
    the smaller of the two Manhattan distances to the goal, which is
    positive, so [get_neighbors] no longer offers it. *)
Theorem lrtastar_move_closes_left_cell w h maze self maze' self' out :
  rect w h maze →
  (0 ≤ (Lrtastar.position self).1 < w ∧ 0 ≤ (Lrtastar.position self).2 < h) →
  Lrtastar.update w h maze self = inr (maze', self', out) →
  Lrtastar.path self' = Lrtastar.path self ++ [Lrtastar.position self'] →
  Lrtastar.position self' ≠ Lrtastar.goal self →
  maze_at maze' (Lrtastar.position self) =
    Some (Z.min (manhattan (Lrtastar.position self) (Lrtastar.goal self))
                (manhattan (Lrtastar.position self') (Lrtastar.goal self))) ∧
  0 < Z.min (manhattan (Lrtastar.position self) (Lrtastar.goal self))
            (manhattan (Lrtastar.position self') (Lrtastar.goal self)) ∧
  ¬ is_open w h maze' (Lrtastar.position self).
Proof.
  intros Hrect Hpos Hupd Hpath Hng.
  assert (Hlen : length (Lrtastar.path self') = S (length (Lrtastar.path self))).
  { rewrite Hpath, length_app. simpl. lia. }
  assert (Hback : ∀ s o, Lrtastar.backtrack (Lrtastar.noted self) = inr (s, o) →
                         (length (Lrtastar.path s) ≤ length (Lrtastar.path self))%nat).
  { intros s o Hb.
    destruct (lrta_backtrack_spec (Lrtastar.noted self))
      as [[_ (p & _ & Heq)]|[_ Heq]]; rewrite Heq in Hb; injection Hb as <- <-; simpl.
    - rewrite length_removelast. lia.
    - lia. }
  unfold Lrtastar.update in Hupd. destruct (Lrtastar.fsm self) eqn:Hfsm.
  - injection Hupd as <- <- <-. lia.
  - cbn [Lrtastar.goal Lrtastar.position Lrtastar.visited Lrtastar.noted] in Hupd.
    case_bool_decide as Hgoal.
    { injection Hupd as <- <- <-. simpl in Hlen. lia. }
    unfold Lrtastar.get_neighbors in Hupd.
    rewrite (lrta_probe_all_spec w h) in Hupd by done. rewrite app_nil_l in Hupd.
    destruct (filter _ _) as [|v vs] eqn:Hnbrs.
    { destruct (Lrtastar.backtrack _) as [e|[s o]] eqn:Hb; [done|].
      injection Hupd as <- <- <-. specialize (Hback _ _ eq_refl). lia. }
    destruct (py_min _ (v :: vs)) as [n|] eqn:Hmin; [|done].
    unfold Lrtastar.update_heuristic in Hupd.
    cbn [Lrtastar.goal Lrtastar.noted] in Hupd.
    destruct (maze_set_spec w h maze (Lrtastar.position self)
                (Z.min (Lrtastar.heuristic (Lrtastar.position self) (Lrtastar.goal self))
                       (Lrtastar.heuristic n (Lrtastar.goal self))) Hrect Hpos)
      as (maze1 & Hset & _ & Hat & _).
    rewrite Hset in Hupd.
    case_bool_decide as Hvis.
    { destruct (Lrtastar.backtrack _) as [e|[s o]] eqn:Hb; [done|].
      injection Hupd as <- <- <-. specialize (Hback _ _ eq_refl). lia. }
    injection Hupd as <- <- <-.
    cbn [Lrtastar.position Lrtastar.moved] in *.
    unfold Lrtastar.heuristic in Hat.
    pose proof (manhattan_pos _ _ Hgoal). pose proof (manhattan_pos _ _ Hng).
    split_and!; [done|lia|].
    intros [_ Hopen]. rewrite Hat in Hopen. injection Hopen as Hopen. lia.
  - injection Hupd as <- <- <-. lia.
Qed.

Lemma lrtastar_move_closes_left_cell_witness :
  ∃ maze',
    let self := Lrtastar.new (1, 19) (1, 0) in
    let self' := Lrtastar.moved (Lrtastar.noted self) (1, 18) in
    rect 3 20 Lrtastar.lanes ∧
    (0 ≤ (Lrtastar.position self).1 < 3 ∧ 0 ≤ (Lrtastar.position self).2 < 20) ∧
    Lrtastar.update 3 20 Lrtastar.lanes self = inr (maze', self', []) ∧
    Lrtastar.path self' = Lrtastar.path self ++ [Lrtastar.position self'] ∧
    Lrtastar.position self' ≠ Lrtastar.goal self ∧
    maze_at maze' (Lrtastar.position self) =
      Some (Z.min (manhattan (Lrtastar.position self) (Lrtastar.goal self))
                  (manhattan (Lrtastar.position self') (Lrtastar.goal self))) ∧
    0 < Z.min (manhattan (Lrtastar.position self) (Lrtastar.goal self))
              (manhattan (Lrtastar.position self') (Lrtastar.goal self)) ∧
    ¬ is_open 3 20 maze' (Lrtastar.position self).
Proof.
  assert (Hrect : rect 3 20 Lrtastar.lanes).
  { split; [reflexivity|]. unfold Lrtastar.lanes. apply Forall_replicate. reflexivity. }
  eexists. intros self self'.
  split; [exact Hrect|]. split; [simpl; lia|]. split; [reflexivity|].
  split; [reflexivity|]. split; [done|].
  apply (lrtastar_move_closes_left_cell 3 20 Lrtastar.lanes self _ self' []);
    [exact Hrect|simpl; lia|reflexivity|reflexivity|done].
Defined.

(** ** [game11.py]: where the agent can be *)

Section Game11Proofs.
Variable maze : grid.
Hypothesis Hrect : rect Game11.GRID_WIDTH Game11.GRID_HEIGHT maze.
Variable start : cell.

Local Abbreviation Open11 := (is_open Game11.GRID_WIDTH Game11.GRID_HEIGHT maze).

(** The path leads from the start to the agent over Open cells. *)
Local Abbreviation Shape self :=
  (head (Game11.path self) = Some start ∧
   last (Game11.path self) = Some (Game11.position self) ∧
   ∀ c, c ∈ Game11.path self → Open11 c).

Lemma game11_probe_all_spec pos ds : ∀ acc,
  Game11.probe_all maze pos acc ds = inr (acc ++ filter Open11 (shift pos <$> ds)).
Proof.
  induction ds as [|d ds IH]; intros acc; cbn [Game11.probe_all].
  - by rewrite fmap_nil, filter_nil, app_nil_r.
  - assert (Game11.probe maze pos acc d = inr (acc ++ filter Open11 [shift pos d])) as ->.
    { unfold Game11.probe. rewrite filter_cons, filter_nil.
      case_bool_decide as Hx; [case_bool_decide as Hy|].
      - destruct (lrta_rect_lookup _ _ maze (shift pos d) Hrect (conj Hx Hy))
          as (row & v & _ & _ & Hv). rewrite Hv.
        case_bool_decide as Hv0.
        + subst v. rewrite decide_True; [done|]. by split.
        + rewrite decide_False; [by rewrite app_nil_r|].
          intros [_ Ho]. congruence.
      - rewrite decide_False; [by rewrite app_nil_r|]. intros [[_ ?] _]. done.
      - rewrite decide_False; [by rewrite app_nil_r|]. intros [[? _] _]. done. }
    rewrite IH, fmap_cons, !filter_cons, filter_nil.
    destruct (decide (Open11 (shift pos d))); by rewrite <- ?app_assoc, ?app_nil_r.
Qed.

Lemma game11_consider_shape neighbors : ∀ self,
  (∀ n, n ∈ neighbors → Open11 n) → Shape self →
  Shape (foldl Game11.consider self neighbors).
Proof.
  induction neighbors as [|n ns IH]; intros self Hns Hshape; [done|].
  cbn [foldl]. apply IH; [intros m Hm; apply Hns; by right|].
  unfold Game11.consider. case_bool_decide; [done|].
  destruct Hshape as (Hhead & Hlast & Hall). cbn [Game11.path Game11.position].
  split_and!.
  - destruct (Game11.path self); [done|]. done.
  - apply last_snoc.
  - intros c [Hc| ->%list_elem_of_singleton]%elem_of_app; [by apply Hall|].
    apply Hns. by left.
Qed.

Lemma game11_backtrack_shape self :
  Shape self →
  ∃ self' out, Game11.backtrack self = inr (self', out) ∧ Shape self'.
Proof.
  intros (Hhead & Hlast & Hall). unfold Game11.backtrack.
  case_bool_decide as Hlen; [|by eexists _, _].
  assert (Hne : removelast (Game11.path self) ≠ []).
  { destruct (Game11.path self) as [|x [|y l]]; simpl in *; [lia|lia|done]. }
  rewrite py_get_last by done.
  destruct (last (removelast (Game11.path self))) as [p|] eqn:Hp;
    [|by apply last_None in Hp].
  eexists _, _. split; [done|]. cbn [Game11.path Game11.position]. split_and!.
  - destruct (Game11.path self) as [|x [|y l]]; simpl in *; [lia|lia|done].
  - done.
  - intros c Hc. by apply Hall, removelast_elem.
Qed.

Lemma game11_update_shape self :
  Shape self →
  ∃ self' out, Game11.update maze self = inr (self', out) ∧ Shape self'.
Proof.
  intros Hshape. unfold Game11.update.
  destruct (Game11.fsm self); [|by eexists _, _|by eexists _, _].
  cbn [Game11.goal Game11.open_list Game11.position].
  case_bool_decide; [by eexists _, _|].
  set (open0 := match Game11.open_list self with
                | [] => heappush (Game11.open_list self) (0, Game11.position self)
                | _ :: _ => Game11.open_list self
                end).
  destruct (heappop open0) as [[[f current] rest]|].
  - unfold Game11.get_neighbors. rewrite game11_probe_all_spec, app_nil_l.
    match goal with
    | |- context [foldl Game11.consider ?s ?ns] =>
        pose proof (game11_consider_shape ns s) as Hfold
    end.
    cbn [Game11.path Game11.position] in Hfold.
    specialize (Hfold ltac:(by intros n [? _]%list_elem_of_filter) Hshape).
    destruct (Game11.open_list (foldl _ _ _)); [|by eexists _, _].
    by apply game11_backtrack_shape.
  - cbn [Game11.open_list]. destruct open0; [|by eexists _, _].
    by apply game11_backtrack_shape.
Qed.
End Game11Proofs.

(** X17. The planner of [game11.py] on a 20 by 20 maze, begun on an Open
    cell: no tick raises; after any number of ticks the path still begins
    with the start cell and ends with the cell the agent stands on, and
    every cell of it, so also the agent's own, is an Open cell inside the
    grid.  (A tick may still move the agent more than one cell.) *)
Theorem game11_agent_stays_on_open_cells maze start goal k :
  rect Game11.GRID_WIDTH Game11.GRID_HEIGHT maze →
  is_open Game11.GRID_WIDTH Game11.GRID_HEIGHT maze start →
  ∃ self log,
    Game11.run maze k (Game11.new start goal) = inr (self, log) ∧
    head (Game11.path self) = Some start ∧
    last (Game11.path self) = Some (Game11.position self) ∧
    (∀ c, c ∈ Game11.path self →
          is_open Game11.GRID_WIDTH Game11.GRID_HEIGHT maze c) ∧
    is_open Game11.GRID_WIDTH Game11.GRID_HEIGHT maze (Game11.position self).
Proof.
  intros Hrect Hstart.
  assert (Hrun : ∃ self log,
    Game11.run maze k (Game11.new start goal) = inr (self, log) ∧
    head (Game11.path self) = Some start ∧
    last (Game11.path self) = Some (Game11.position self) ∧
    ∀ c, c ∈ Game11.path self →
         is_open Game11.GRID_WIDTH Game11.GRID_HEIGHT maze c).
  { induction k as [|k (self & log & Hrun & Hshape)].
    - exists (Game11.new start goal), []. split_and!; [done..|].
      by intros c ->%list_elem_of_singleton.
    - destruct (game11_update_shape maze Hrect start self Hshape)
        as (self' & out & Hupd & Hshape').
      exists self', (log ++ [out]). simpl. by rewrite Hrun, Hupd. }
  destruct Hrun as (self & log & Hrun & Hhead & Hlast & Hall).
  exists self, log. split_and!; [done..|].
  by apply Hall, last_Some_elem_of.
Qed.

Lemma game11_agent_stays_on_open_cells_witness :
  rect Game11.GRID_WIDTH Game11.GRID_HEIGHT Game11.pocket ∧
  is_open Game11.GRID_WIDTH Game11.GRID_HEIGHT Game11.pocket (0, 0) ∧
  ∃ self log,
    Game11.run Game11.pocket 6 (Game11.new (0, 0) (19, 19)) = inr (self, log) ∧
    head (Game11.path self) = Some (0, 0) ∧
    last (Game11.path self) = Some (Game11.position self) ∧
    (∀ c, c ∈ Game11.path self →
          is_open Game11.GRID_WIDTH Game11.GRID_HEIGHT Game11.pocket c) ∧
    is_open Game11.GRID_WIDTH Game11.GRID_HEIGHT Game11.pocket (Game11.position self).
Proof.
  assert (Hrect : rect Game11.GRID_WIDTH Game11.GRID_HEIGHT Game11.pocket).
  { split; [reflexivity|]. apply Forall_forall. intros row Hrow.
    unfold Game11.pocket in Hrow.
    apply list_elem_of_lookup_1 in Hrow as [j Hj].
    destruct (decide (j = 2%nat)) as [->|?]; [by injection Hj as <-|].
    rewrite list_lookup_insert_ne in Hj by done.
    destruct (decide (j = 1%nat)) as [->|?]; [by injection Hj as <-|].
    rewrite list_lookup_insert_ne in Hj by done.
    apply lookup_replicate in Hj as [-> _]. reflexivity. }
  split; [exact Hrect|]. split; [by vm_compute|].
  apply (game11_agent_stays_on_open_cells Game11.pocket (0, 0) (19, 19) 6);
    [exact Hrect|by vm_compute].
Defined.

(** ** [Game6.py]: the straight walk of [calculate_path] *)

Lemma toward_spec (goal c : cell) :
  c ≠ goal →
  manhattan (Game6.toward goal c) goal = manhattan c goal - 1 ∧
  (∃ d, d ∈ offsets ∧ Game6.toward goal c = shift c d) ∧
  (((Game6.toward goal c).2 = c.2 ∧ c.1 ≠ goal.1) ∨
   (c.1 = goal.1 ∧ (Game6.toward goal c).1 = goal.1)).
Proof.
  destruct c as [x y], goal as [gx gy]. intros Hne.
  unfold Game6.toward, manhattan, shift, offsets. cbn [fst snd].
  repeat case_bool_decide; cbn [fst snd].
  - split; [lia|]. split; [|left; split; [done|lia]].
    exists (1, 0). split; [apply elem_of_offsets; auto|simpl; f_equal; lia].
  - split; [lia|]. split; [|left; split; [done|lia]].
    exists (-1, 0). split; [apply elem_of_offsets; auto|simpl; f_equal; lia].
  - split; [lia|]. split; [|right; split; lia].
    exists (0, 1). split; [apply elem_of_offsets; auto|simpl; f_equal; lia].
  - split; [lia|]. split; [|right; split; lia].
    exists (0, -1). split; [apply elem_of_offsets; auto|simpl; f_equal; lia].
  - destruct Hne. f_equal; lia.
Qed.

Lemma walk_spec (goal : cell) n : ∀ cur pre fuel,
  manhattan cur goal = Z.of_nat n → (n < fuel)%nat →
  ∃ rest,
    Game6.walk fuel goal (pre ++ [cur]) = Return (pre ++ cur :: rest) ∧
    length rest = n ∧ linked (cur :: rest) ∧ last (cur :: rest) = Some goal ∧
    (∀ c, c ∈ cur :: rest → c.2 = cur.2 ∨ c.1 = goal.1) ∧
    (cur.1 = goal.1 → ∀ c, c ∈ cur :: rest → c.1 = goal.1).
Proof.
  induction n as [|n IH]; intros cur pre fuel Hdist Hfuel;
    (destruct fuel as [|fuel]; [lia|]); cbn [Game6.walk];
    rewrite py_get_last, last_snoc by (by destruct pre).
  - assert (cur = goal) as ->.
    { destruct (decide (cur = goal)) as [?|Hne]; [done|].
      pose proof (manhattan_pos _ _ Hne). lia. }
    rewrite bool_decide_eq_false_2 by (intros ?; done).
    exists []. split_and!; [done|done|done|done| |].
    + intros c ->%list_elem_of_singleton. by left.
    + by intros _ c ->%list_elem_of_singleton.
  - assert (Hne : cur ≠ goal).
    { intros ->. unfold manhattan in Hdist. lia. }
    rewrite bool_decide_eq_true_2 by done.
    destruct (toward_spec goal cur Hne) as (Hcloser & Hadj & Hshape).
    destruct (IH (Game6.toward goal cur) (pre ++ [cur]) fuel)
      as (rest & -> & Hlen & Hlinked & Hlast & Hell & Hcol); [lia|lia|].
    exists (Game6.toward goal cur :: rest). rewrite <- app_assoc.
    split_and!; [done|simpl; lia|done|done| |].
    + intros c [->|Hc]%elem_of_cons; [by left|].
      destruct Hshape as [[Hrow _]|[Hcur Hnext]].
      * destruct (Hell c Hc) as [?|?]; [left; congruence|by right].
      * right. by apply Hcol.
    + intros Hcur c [->|Hc]%elem_of_cons; [done|].
      destruct Hshape as [[_ ?]|[_ Hnext]]; [done|]. by apply Hcol.
Qed.

(** X18. [calculate_path] of [Game6.py] always ends, after as many turns as
    the Manhattan distance from start to goal: the path begins with the
    start, ends with the goal, has one cell more than that distance, steps
    to a 4-neighbour each time, and runs along the start's row first and
    then along the goal's column. *)
Theorem game6_calculate_path_walks_straight start goal fuel :
  (Z.to_nat (manhattan start goal) < fuel)%nat →
  ∃ path,
    Game6.calculate_path fuel start goal = Return path ∧
    length path = S (Z.to_nat (manhattan start goal)) ∧
    head path = Some start ∧ last path = Some goal ∧ linked path ∧
    ∀ c, c ∈ path → c.2 = start.2 ∨ c.1 = goal.1.
Proof.
  intros Hfuel. pose proof (manhattan_nonneg start goal).
  destruct (walk_spec goal (Z.to_nat (manhattan start goal)) start [] fuel)
    as (rest & Hwalk & Hlen & Hlinked & Hlast & Hell & _); [lia|done|].
  exists (start :: rest). split_and!; [done|simpl; lia|done..].
Qed.

Lemma game6_calculate_path_walks_straight_witness :
  (Z.to_nat (manhattan Game6.bottom_start Game6.top_goal) < 13)%nat ∧
  ∃ path,
    Game6.calculate_path 13 Game6.bottom_start Game6.top_goal = Return path ∧
    length path = S (Z.to_nat (manhattan Game6.bottom_start Game6.top_goal)) ∧
    head path = Some Game6.bottom_start ∧ last path = Some Game6.top_goal ∧ linked path ∧
    ∀ c, c ∈ path → c.2 = Game6.bottom_start.2 ∨ c.1 = Game6.top_goal.1.
Proof.
  split; [vm_compute; lia|].
  apply (game6_calculate_path_walks_straight Game6.bottom_start Game6.top_goal 13). vm_compute. lia.
Defined.

(** ** [astar]: the path has no repeated cell *)

Lemma shortest_route_simple maze b p : ∀ a,
  route maze a p b →
  (∀ q, route maze a q b → (length p ≤ length q)%nat) →
  NoDup (a :: p).
Proof.
  induction p as [|c p IH]; intros a Hroute Hmin.
  - apply NoDup_singleton.
  - apply NoDup_cons. split.
    + intros Ha. apply list_elem_of_split in Ha as (p1 & p2 & Hp).
      assert (Hsuffix : ∀ l a0, route maze a0 (l ++ a :: p2) b → route maze a p2 b).
      { clear. induction l as [|x l IHl]; intros a0; simpl.
        - by intros [_ ?].
        - intros [_ Hr]. by eapply IHl. }
      rewrite Hp in Hroute. apply Hsuffix in Hroute. apply Hmin in Hroute.
      rewrite Hp, length_app in Hroute. simpl in Hroute. lia.
    + destruct Hroute as [He Hr]. apply IH; [done|].
      intros q Hq. specialize (Hmin (c :: q) (conj He Hq)). simpl in Hmin. lia.
Qed.

(** X19. On a square maze the path [astar] returns never holds a cell
    twice. *)
Theorem astar_path_has_no_repeats maze start goal path :
  square maze → Game.astar maze start goal = Return path → NoDup path.
Proof.
  intros Hsq Hrun.
  destruct (astar_correct maze start goal Hsq) as (path' & Hrun' & Hpost).
  assert (path' = path) as -> by congruence.
  destruct Hpost as [[-> _]|(p & -> & Hroute & Hmin)]; [apply NoDup_nil_2|].
  by eapply shortest_route_simple.
Qed.

Lemma astar_path_has_no_repeats_witness :
  square open10 ∧ Game.astar open10 (0, 0) (9, 9) = Return scenario_a_path ∧
  NoDup scenario_a_path.
Proof.
  split; [apply open10_square|]. split; [vm_compute; reflexivity|].
  apply (astar_path_has_no_repeats open10 (0, 0) (9, 9) scenario_a_path);
    [apply open10_square|vm_compute; reflexivity].
Defined.

(** ** [check_collision]: what decides the answer *)

(** X20. [check_collision] of [game10.py] and [lrtastar.py]: a barrier on
    the agent's cell is always reported; when the agent has no previous
    position, as after [restart_game], that is the only case reported; and
    the answer does not depend on the order of the barrier list. *)
Theorem check_collision_overlap_and_order barriers pos prev :
  (pos ∈ barriers → Game10.check_collision barriers pos prev = true) ∧
  (Game10.check_collision barriers pos None = true ↔ pos ∈ barriers) ∧
  (∀ barriers', barriers ≡ₚ barriers' →
     Game10.check_collision barriers' pos prev =
     Game10.check_collision barriers pos prev).
Proof.
  split_and!.
  - intros Hin. apply check_collision_spec. destruct pos as [x y].
    exists x, y. split; [done|by left].
  - rewrite check_collision_spec. split.
    + intros (x & y & Hin & [<-|[_ ?]]); done.
    + intros Hin. destruct pos as [x y]. exists x, y. split; [done|by left].
  - intros barriers' Hperm.
    destruct (Game10.check_collision barriers pos prev) eqn:Hc.
    + apply check_collision_spec in Hc as (x & y & Hin & Hcase).
      apply check_collision_spec. exists x, y. split; [by rewrite <- Hperm|done].
    + destruct (Game10.check_collision barriers' pos prev) eqn:Hc'; [|done].
      apply check_collision_spec in Hc' as (x & y & Hin & Hcase).
      assert (Game10.check_collision barriers pos prev = true) as Habs.
      { apply check_collision_spec. exists x, y. split; [by rewrite Hperm|done]. }
      congruence.
Qed.

(** ** [Game7.py], [Game8.py]: the goal the agent is given *)

Section ValidateGoal.
Variable GRID_SIZE : Z.
Variable maze : grid.
Hypothesis Hrect : rect GRID_SIZE GRID_SIZE maze.

Local Abbreviation Scan := (Game7NPC.scan maze).
Local Abbreviation Column x := (seqZ 0 GRID_SIZE ≫= λ y, [(x, y)]).

Lemma scan_app l1 l2 :
  Scan (l1 ++ l2) = match Scan l1 with inr None => Scan l2 | r => r end.
Proof.
  induction l1 as [|[i j] l1 IH]; [done|]. simpl.
  destruct (maze_at maze (i, j)); [|done]. by destruct (_ && _).
Qed.

Lemma scan_lower (l : list cell) :
  (∀ c, c ∈ l → (0 ≤ c.1 < GRID_SIZE ∧ 0 ≤ c.2 < GRID_SIZE) ∧ c.2 ≠ 0) →
  Scan l = inr None.
Proof.
  induction l as [|[i j] l IH]; intros Hall; [done|]. simpl.
  destruct (Hall (i, j)) as [Hin Hj]; [by left|].
  destruct (lrta_rect_lookup _ _ maze (i, j) Hrect Hin) as (row & v & _ & _ & ->).
  simpl in Hj. rewrite (bool_decide_eq_false_2 (j = 0)), andb_false_r by done.
  apply IH. intros c Hc. apply Hall. by right.
Qed.

Lemma scan_column i :
  0 ≤ i < GRID_SIZE →
  Scan (Column i) =
  inr (if decide (maze_at maze (i, 0) = Some 0) then Some (i, 0) else None).
Proof.
  intros Hi. rewrite seqZ_cons, bind_cons by lia.
  rewrite scan_app. cbn [Game7NPC.scan].
  destruct (lrta_rect_lookup _ _ maze (i, 0) Hrect) as (row & v & _ & _ & ->);
    [simpl; lia|].
  rewrite (bool_decide_eq_true_2 (0 = 0)), andb_true_r by done.
  case_bool_decide as Hv.
  - subst v. by rewrite decide_True.
  - rewrite decide_False by congruence.
    apply scan_lower. intros c Hc.
    apply list_elem_of_bind in Hc as (y & Hc & Hy).
    apply list_elem_of_singleton in Hc as ->. apply elem_of_seqZ in Hy.
    simpl. lia.
Qed.

Lemma scan_columns n :
  Z.of_nat n ≤ GRID_SIZE →
  ∃ r, Scan (seqZ 0 (Z.of_nat n) ≫= λ x, Column x) = inr r ∧
    ((∃ i, 0 ≤ i < Z.of_nat n ∧ r = Some (i, 0) ∧ maze_at maze (i, 0) = Some 0 ∧
           ∀ i', 0 ≤ i' < i → maze_at maze (i', 0) ≠ Some 0) ∨
     (r = None ∧ ∀ i, 0 ≤ i < Z.of_nat n → maze_at maze (i, 0) ≠ Some 0)).
Proof.
  induction n as [|n IH]; intros Hn.
  - exists None. split; [done|]. right. split; [done|]. lia.
  - destruct IH as (r & Hscan & Hcase); [lia|].
    rewrite seqZ_S, Z.add_0_l, bind_app, scan_app, Hscan. simpl.
    destruct Hcase as [(i & Hi & -> & Hopen & Hfirst)|[-> Hnone]].
    + exists (Some (i, 0)). split; [done|]. left. exists i.
      split; [lia|done].
    + rewrite app_nil_r, scan_column by lia.
      destruct (decide (maze_at maze (Z.of_nat n, 0) = Some 0)) as [Hopen|Hclosed].
      * eexists. split; [done|]. left. exists (Z.of_nat n).
        split; [lia|]. split; [done|]. split; [done|].
        intros i' Hi'. apply Hnone. lia.
      * eexists. split; [done|]. right. split; [done|].
        intros i Hi. destruct (decide (i = Z.of_nat n)) as [->|?]; [done|].
        apply Hnone. lia.
Qed.
End ValidateGoal.

(** X21. [validate_goal] of [Game7.py] and [Game8.py] on a square maze, for
    a goal inside the grid: it never raises; an open goal is returned as it
    is; otherwise the result is the leftmost open cell of the top row, and
    the goal itself, though not open, when the top row has no open cell. *)
Theorem game7_validate_goal_result GRID_SIZE maze goal :
  rect GRID_SIZE GRID_SIZE maze →
  (0 ≤ goal.1 < GRID_SIZE ∧ 0 ≤ goal.2 < GRID_SIZE) →
  ∃ r, Game7NPC.validate_goal GRID_SIZE maze goal = inr r ∧
    ((maze_at maze goal = Some 0 ∧ r = goal) ∨
     (maze_at maze goal ≠ Some 0 ∧
      ((∃ i, 0 ≤ i < GRID_SIZE ∧ r = (i, 0) ∧ maze_at maze (i, 0) = Some 0 ∧
             ∀ i', 0 ≤ i' < i → maze_at maze (i', 0) ≠ Some 0) ∨
       (r = goal ∧ ∀ i, 0 ≤ i < GRID_SIZE → maze_at maze (i, 0) ≠ Some 0)))).
Proof.
  intros Hrect Hgoal. unfold Game7NPC.validate_goal.
  destruct (lrta_rect_lookup _ _ maze goal Hrect Hgoal) as (row & v & _ & _ & Hv).
  rewrite Hv. case_bool_decide as Hopen.
  - destruct (scan_columns GRID_SIZE maze Hrect (Z.to_nat GRID_SIZE))
      as (r & Hscan & Hcase); [lia|].
    unfold grid_cells. rewrite Z2Nat.id in Hscan, Hcase by lia. rewrite Hscan.
    destruct Hcase as [(i & Hi & -> & Hi0 & Hfirst)|[-> Hnone]].
    + eexists. split; [done|]. right. split; [congruence|]. left. by exists i.
    + eexists. split; [done|]. right. split; [congruence|]. by right.
  - eexists. split; [done|]. left. split; [|done].
    f_equal. by destruct (decide (v = 0)).
Qed.

Lemma game7_validate_goal_result_witness :
  rect 3 3 walled3 ∧ (0 ≤ (1, 1).1 < 3 ∧ 0 ≤ (1, 1).2 < 3) ∧
  ∃ r, Game7NPC.validate_goal 3 walled3 (1, 1) = inr r ∧
    ((maze_at walled3 (1, 1) = Some 0 ∧ r = (1, 1)) ∨
     (maze_at walled3 (1, 1) ≠ Some 0 ∧
      ((∃ i, 0 ≤ i < 3 ∧ r = (i, 0) ∧ maze_at walled3 (i, 0) = Some 0 ∧
             ∀ i', 0 ≤ i' < i → maze_at walled3 (i', 0) ≠ Some 0) ∨
       (r = (1, 1) ∧ ∀ i, 0 ≤ i < 3 → maze_at walled3 (i, 0) ≠ Some 0)))).
Proof.
  assert (Hrect : rect 3 3 walled3).
  { split; [reflexivity|]. unfold walled3. by repeat constructor. }
  split; [exact Hrect|]. split; [simpl; lia|].
  apply (game7_validate_goal_result 3 walled3 (1, 1)); [exact Hrect|simpl; lia].
Defined.

(** ** [Game7.py], [Game8.py]: the agent along its path *)

Lemma game7_run_S k self :
  Game7NPC.run (S k) self = Game7NPC.update (Game7NPC.run k self).
Proof. reflexivity. Qed.

Lemma game7_run_moving pos goal (l : list cell) s : ∀ t q r,
  (0 < s)%nat → t = (q * s + r)%nat → (r < s)%nat → (q < length l)%nat →
  Game7NPC.run t
    {| Game7NPC.position := pos; Game7NPC.goal := goal; Game7NPC.path := l;
       Game7NPC.fsm := Game7NPC.MOVING; Game7NPC.speed := Z.of_nat s;
       Game7NPC.frame_counter := 0 |} =
  {| Game7NPC.position := default pos (last (take q l)); Game7NPC.goal := goal;
     Game7NPC.path := drop q l; Game7NPC.fsm := Game7NPC.MOVING;
     Game7NPC.speed := Z.of_nat s; Game7NPC.frame_counter := Z.of_nat r |}.
Proof.
  induction t as [|t IH]; intros q r Hs Ht Hr Hq.
  - assert (q = 0 ∧ r = 0)%nat as [-> ->] by nia.
    simpl. by rewrite drop_0.
  - rewrite game7_run_S. destruct r as [|r].
    + destruct q as [|q]; [lia|].
      rewrite (IH q (s - 1)%nat) by nia.
      assert (is_Some (l !! q)) as [x Hx] by (apply lookup_lt_is_Some; lia).
      unfold Game7NPC.update.
      cbn [Game7NPC.fsm Game7NPC.frame_counter Game7NPC.speed Game7NPC.path].
      rewrite (drop_S _ _ _ Hx), (take_S_r _ _ _ Hx), last_snoc.
      rewrite bool_decide_eq_true_2 by lia. simpl.
      destruct (drop (S q) l) as [|y rest] eqn:Hdrop; [|done].
      apply (f_equal length) in Hdrop. rewrite length_drop in Hdrop.
      simpl in Hdrop. lia.
    + rewrite (IH q r) by lia.
      assert (is_Some (l !! q)) as [x Hx] by (apply lookup_lt_is_Some; lia).
      unfold Game7NPC.update.
      cbn [Game7NPC.fsm Game7NPC.frame_counter Game7NPC.speed Game7NPC.path].
      rewrite (drop_S _ _ _ Hx).
      rewrite bool_decide_eq_false_2 by lia. f_equal. lia.
Qed.

(** X22. The agent of [Game7.py] and [Game8.py], whatever [a_star] found.
    It is created MOVING.  With an empty path, which is what [a_star]
    returns when the start is the goal or no route exists, [update] never
    changes it, so it never reports GOAL_REACHED.  With a path of [n]
    cells and a speed of at least one it stays MOVING for [n * speed - 1]
    updates and on the next one stands on the goal in GOAL_REACHED. *)
Theorem game7_npc_arrives_or_waits GRID_SIZE maze fuel s start goal npc :
  (0 < s)%nat →
  Game7NPC.new GRID_SIZE maze fuel (Z.of_nat s) start goal = Return npc →
  Game7NPC.fsm npc = Game7NPC.MOVING ∧
  (start = Game7NPC.goal npc → Game7NPC.path npc = []) ∧
  (Game7NPC.path npc = [] → ∀ k, Game7NPC.run k npc = npc) ∧
  (Game7NPC.path npc ≠ [] →
   (∀ k, (k < length (Game7NPC.path npc) * s)%nat →
         Game7NPC.fsm (Game7NPC.run k npc) = Game7NPC.MOVING) ∧
   Game7NPC.position (Game7NPC.run (length (Game7NPC.path npc) * s) npc)
     = Game7NPC.goal npc ∧
   Game7NPC.fsm (Game7NPC.run (length (Game7NPC.path npc) * s) npc)
     = Game7NPC.GOAL_REACHED).
Proof.
  intros Hs Hnew. unfold Game7NPC.new in Hnew.
  destruct (Game7NPC.validate_goal GRID_SIZE maze goal) as [e|goal']; [done|].
  destruct (Game7.a_star GRID_SIZE maze fuel start goal') as [path| |] eqn:Hstar;
    [|done|done].
  injection Hnew as <-. cbn [Game7NPC.fsm Game7NPC.goal Game7NPC.path].
  assert (Hshape : path ≠ [] → (start ∉ path) ∧ last path = Some goal').
  { by apply (game7_a_star_shape GRID_SIZE maze start goal' fuel). }
  split_and!; [done| | |].
  - intros ->. destruct path as [|c path]; [done|].
    destruct Hshape as [Hnotin Hlast]; [done|].
    destruct Hnotin. by apply last_Some_elem_of.
  - intros -> k. induction k as [|k IH]; [done|]. by rewrite game7_run_S, IH.
  - intros Hne. destruct (Hshape Hne) as [_ Hlast]. split.
    + intros k Hk.
      rewrite (game7_run_moving start goal' path s k (k / s) (k mod s))%nat.
      * done.
      * done.
      * pose proof (Nat.div_mod_eq k s). lia.
      * apply Nat.mod_upper_bound. lia.
      * apply Nat.Div0.div_lt_upper_bound. lia.
    + set (n := length path).
      assert (Hn : (0 < n)%nat) by (unfold n; destruct path; [done|simpl; lia]).
      assert (Hstep : (n * s = S ((n - 1) * s + (s - 1)))%nat) by nia.
      rewrite Hstep, game7_run_S.
      rewrite (game7_run_moving start goal' path s _ (n - 1) (s - 1))%nat
        by (unfold n in *; lia).
      assert (is_Some (path !! (n - 1)%nat)) as [x Hx]
        by (apply lookup_lt_is_Some; unfold n in *; lia).
      assert (x = goal') as ->.
      { rewrite last_lookup in Hlast.
        replace (pred (length path)) with (n - 1)%nat in Hlast by (unfold n; lia).
        congruence. }
      unfold Game7NPC.update.
      cbn [Game7NPC.fsm Game7NPC.frame_counter Game7NPC.speed Game7NPC.path].
      rewrite (drop_S _ _ _ Hx).
      replace (drop (S (n - 1)) path) with (@nil cell)
        by (symmetry; apply drop_ge; unfold n; lia).
      rewrite bool_decide_eq_true_2 by lia. done.
Qed.

Lemma game7_npc_arrives_or_waits_witness :
  (0 < 30)%nat ∧
  ∃ npc,
    Game7NPC.new 10 open10 100 (Z.of_nat 30) (0, 0) (9, 9) = Return npc ∧
    Game7NPC.fsm npc = Game7NPC.MOVING ∧
    ((0, 0) = Game7NPC.goal npc → Game7NPC.path npc = []) ∧
    (Game7NPC.path npc = [] → ∀ k, Game7NPC.run k npc = npc) ∧
    (Game7NPC.path npc ≠ [] →
     (∀ k, (k < length (Game7NPC.path npc) * 30)%nat →
           Game7NPC.fsm (Game7NPC.run k npc) = Game7NPC.MOVING) ∧
     Game7NPC.position (Game7NPC.run (length (Game7NPC.path npc) * 30) npc)
       = Game7NPC.goal npc ∧
     Game7NPC.fsm (Game7NPC.run (length (Game7NPC.path npc) * 30) npc)
       = Game7NPC.GOAL_REACHED).
Proof.
  split; [lia|]. eexists. split; [vm_compute; reflexivity|].
  apply (game7_npc_arrives_or_waits 10 open10 100 30 (0, 0) (9, 9));
    [lia|vm_compute; reflexivity].
Defined.

(** ** [game10.py]: the loop of [main] *)

Lemma road_lanes_open c :
  10 ≤ c.1 ≤ 12 ∧ 0 ≤ c.2 < 20 → maze_at Game10.road c = Some 0.
Proof.
  destruct c as [x y]. simpl. intros [Hx Hy].
  unfold maze_at, py_get, Game10.road. cbn [fst snd].
  rewrite (bool_decide_eq_true_2 (0 ≤ y)) by lia.
  rewrite lookup_replicate_2 by lia. simpl.
  rewrite (bool_decide_eq_true_2 (0 ≤ x)) by lia.
  assert (Hcases : x = 10 ∨ x = 11 ∨ x = 12) by lia.
  destruct Hcases as [-> | [-> | ->]]; reflexivity.
Qed.

Lemma restart_game_spec draws i npc barriers :
  ∃ x gx,
    10 ≤ x ≤ 12 ∧ 10 ≤ gx ≤ 12 ∧
    Game10Restart.restart_game 20 20 draws i npc barriers =
    inr (Game10.road, S (S i),
         {| Game10.position := (x, 19); Game10.previous_position := None;
            Game10.goal := (gx, 0); Game10.path := [(x, 19)];
            Game10.visited := []; Game10.fsm := Game10.MOVING;
            Game10.cell_costs := Game10.cell_costs npc |},
         Barrier.new).
Proof.
  unfold Game10Restart.restart_game.
  assert (Hmaze : Game10Restart.fresh_maze 20 20 = inr Game10.road) by reflexivity.
  rewrite Hmaze.
  destruct (randint_range draws i 10 12) as [-> Hx]; [lia|].
  destruct (randint_range draws (S i) 10 12) as [-> Hgx]; [lia|].
  eexists _, _. split; [exact Hx|]. split; [exact Hgx|]. reflexivity.
Qed.

Lemma tick_open_path w h maze self barriers self' out :
  Game10.tick w h maze self barriers self' out →
  Game10.fsm self = Game10.MOVING →
  last (Game10.path self) = Some (Game10.position self) →
  (∀ c, c ∈ Game10.path self → is_open w h maze c) →
  (Game10.fsm self' = Game10.MOVING ∨ Game10.fsm self' = Game10.GOAL_REACHED) ∧
  last (Game10.path self') = Some (Game10.position self') ∧
  (∀ c, c ∈ Game10.path self' → is_open w h maze c).
Proof.
  intros Htick Hfsm Hlast Hopen.
  destruct Htick as [Hidle|_ Hgoal|n _ Hne Hmin Hfresh|reason p _ Hne Hblk Hlen Hp
                    |reason _ Hne Hblk Hlen]; simpl.
  - done.
  - split_and!; [by right|done|done].
  - split_and!; [by left|apply last_snoc|].
    intros c [Hc| ->%list_elem_of_singleton]%elem_of_app; [by apply Hopen|].
    eapply viable_open, py_min_elem, Hmin.
  - split_and!; [by left|done|]. intros c Hc. by apply Hopen, removelast_elem.
  - split_and!; [by left|done|done].
Qed.

Lemma frame_sound draws fuel w :
  (8 < fuel)%nat → Game10Main.sound w →
  ∃ w' out,
    Game10Main.frame draws fuel w = Return (w', out) ∧
    Game10Main.sound w' ∧
    Game10Main.frame_counter w' = Game10Main.frame_counter w + 1.
Proof.
  intros Hfuel (Hmaze & Hfsm & Hlast & Hopen & Hrows & Hcount & Hfree & Hcc & Hsc & Hfc).
  unfold Game10Main.GRID_WIDTH, Game10Main.GRID_HEIGHT, Game10Main.FPS in *.
  unfold Game10Main.frame, Game10Main.tick.
  unfold Game10Main.GRID_WIDTH, Game10Main.GRID_HEIGHT, Game10Main.FPS.
  assert (Hrestart : ∀ i n b cc sc,
    0 ≤ cc → 0 ≤ sc → 10 * (cc + sc) ≤ Game10Main.frame_counter w + 1 →
    ∃ maze' i' npc' b',
      Game10Restart.restart_game 20 20 draws i n b = inr (maze', i', npc', b') ∧
      Game10Main.sound
        {| Game10Main.frame_counter := Game10Main.frame_counter w + 1;
           Game10Main.collision_count := cc; Game10Main.Success_count := sc;
           Game10Main.maze := maze'; Game10Main.drawn := i';
           Game10Main.npc := npc'; Game10Main.barriers := b' |}).
  { intros i n b cc sc Hcc' Hsc' Hfc'.
    destruct (restart_game_spec draws i n b) as (x & gx & Hx & Hgx & ->).
    eexists _, _, _, _. split; [done|].
    unfold Game10Main.sound, Game10Main.GRID_WIDTH, Game10Main.GRID_HEIGHT,
      Game10Main.FPS.
    cbn [Game10Main.maze Game10Main.npc Game10Main.barriers Game10Main.frame_counter
         Game10Main.collision_count Game10Main.Success_count Game10.fsm Game10.path
         Game10.position Game10.previous_position Barrier.barriers Barrier.new
         Barrier.initial_spawned].
    split_and!; [done|done|done| |by intros c ?%elem_of_nil|by right|done|done|done|done].
    intros c ->%list_elem_of_singleton. split; [simpl; lia|].
    apply road_lanes_open. simpl. lia. }
  case_bool_decide as Htick.
  - (* the barriers and the agent move *)
    destruct (update_spec 20 20 10 12 draws ltac:(lia) ltac:(lia)
                (Game10Main.maze w) (Game10Main.drawn w) (Game10Main.barriers w) fuel)
      as (maze' & i' & bs' & -> & Hlen & Hall & Hrect' & Hcl).
    { rewrite Hmaze. apply road_rect. }
    { intros c Hc. apply Hrows in Hc. lia. }
    { destruct Hcount as [[Hs Hl]|[Hs Hl]]; rewrite Hs, Hl; simpl; lia. }
    assert (maze' = Game10.road) as ->.
    { apply (rect_ext 20 20); [apply road_rect|done|].
      intros c Hc. rewrite Hmaze in Hcl.
      destruct (Hcl c Hc) as [?|[-> ?]]; [done|].
      symmetry. apply road_lanes_open. lia. }
    cbn [Barrier.barriers].
    destruct (update_tick 20 20 Game10.road road_rect (Game10Main.npc w) bs')
      as (npc' & out & -> & Htk).
    destruct (tick_open_path _ _ _ _ _ _ _ Htk Hfsm Hlast Hopen)
      as (Hfsm' & Hlast' & Hopen').
    assert (Hq : 10 * (Game10Main.collision_count w + Game10Main.Success_count w + 1)
                 ≤ Game10Main.frame_counter w + 1).
    { apply Z.mod_divide in Htick as [q Hq]; [|done]. lia. }
    change (Barrier.barriers
              {| Barrier.barriers := bs'; Barrier.initial_spawned := true |})
      with bs'.
    destruct (Game10.check_collision bs' (Game10.position npc')
                (Game10.previous_position npc')) eqn:Hcheck; cbv beta iota.
    + destruct (Hrestart i' npc' {| Barrier.barriers := bs'; Barrier.initial_spawned := true |}
                  (Game10Main.collision_count w + 1) (Game10Main.Success_count w))
        as (m2 & i2 & n2 & b2 & -> & Hsound); [lia|lia|lia|].
      pose proof Hsound as (_ & Hfsm2 & _). cbn [Game10Main.npc] in Hfsm2.
      cbv beta iota. rewrite Hfsm2. eexists _, _. split; [done|]. split; [exact Hsound|done].
    + destruct Hfsm' as [Hfsm'|Hfsm']; rewrite Hfsm'.
      * eexists _, _. split; [done|]. split; [|done]. unfold Game10Main.sound.
        cbn [Game10Main.maze Game10Main.npc Game10Main.barriers
             Game10Main.frame_counter Game10Main.collision_count
             Game10Main.Success_count Barrier.barriers Barrier.initial_spawned].
        unfold Game10Main.GRID_WIDTH, Game10Main.GRID_HEIGHT, Game10Main.FPS.
        split_and!; [done|done|done|done|done| |done|done|done|lia].
        left. split; [done|].
        destruct Hcount as [[Hs Hl]|[Hs Hl]]; rewrite Hs, Hl in Hlen; simpl in Hlen; lia.
      * destruct (Hrestart i' npc' {| Barrier.barriers := bs'; Barrier.initial_spawned := true |}
                    (Game10Main.collision_count w) (Game10Main.Success_count w + 1))
          as (m2 & i2 & n2 & b2 & -> & Hsound); [lia|lia|lia|].
        eexists _, _. split; [done|]. split; [exact Hsound|done].
  - (* a frame between two moves *)
    rewrite Hfree, Hfsm. eexists _, _. split; [done|]. split; [|done].
    unfold Game10Main.sound.
    cbn [Game10Main.maze Game10Main.npc Game10Main.barriers
         Game10Main.frame_counter Game10Main.collision_count
         Game10Main.Success_count].
    unfold Game10Main.GRID_WIDTH, Game10Main.GRID_HEIGHT, Game10Main.FPS.
    split_and!; [done..|lia].
Qed.

(** X23. The loop of [main] in [game10.py], for every sequence of random
    draws: no turn raises and [Barrier.update] always returns; after every
    turn the maze is the road as built, the agent is MOVING on an Open road
    cell at the end of its path, the barriers are none or four, all on the
    road in rows 1 to 19, [check_collision] answers false, and the two
    counters are not negative and together at most a tenth of the number
    of turns: every collision and every arrival is answered by a restart
    in the turn it happens in, at most one per move. *)
Theorem game10_main_loop_is_sound draws fuel n :
  (8 < fuel)%nat →
  ∃ w0 w,
    Game10Main.start_world draws = inr w0 ∧
    Game10Main.frames draws fuel n w0 = Return w ∧
    Game10Main.frame_counter w = Z.of_nat n ∧
    Game10Main.sound w.
Proof.
  intros Hfuel. unfold Game10Main.start_world.
  destruct (randint_range draws 0 10 12) as [-> Hx]; [lia|].
  destruct (randint_range draws 1 10 12) as [-> Hgx]; [lia|].
  set (w0 := {| Game10Main.frame_counter := 0; Game10Main.collision_count := 0;
       Game10Main.Success_count := 0; Game10Main.maze := Game10.road;
       Game10Main.drawn := 2;
       Game10Main.npc :=
         Game10.new (10 + draws 0%nat `mod` (12 - 10 + 1), Game10Main.GRID_HEIGHT - 1)
                    (10 + draws 1%nat `mod` (12 - 10 + 1), 0);
       Game10Main.barriers := Barrier.new |}).
  assert (Hstart : Game10Main.sound w0).
  { unfold w0, Game10Main.sound, Game10Main.GRID_WIDTH, Game10Main.GRID_HEIGHT,
      Game10Main.FPS.
    cbn [Game10Main.maze Game10Main.npc Game10Main.barriers Game10Main.frame_counter
         Game10Main.collision_count Game10Main.Success_count Game10.fsm Game10.path
         Game10.position Game10.previous_position Game10.new Barrier.barriers
         Barrier.new Barrier.initial_spawned].
    split_and!; [done|done|done| |by intros c ?%elem_of_nil|by right|done|done|done|done].
    intros c ->%list_elem_of_singleton. split; [simpl; lia|].
    apply road_lanes_open. simpl. lia. }
  assert (Hfc0 : Game10Main.frame_counter w0 = 0) by done.
  exists w0. clearbody w0.
  assert (Hrun : ∃ w, Game10Main.frames draws fuel n w0 = Return w ∧
                      Game10Main.frame_counter w = Z.of_nat n ∧ Game10Main.sound w).
  { induction n as [|n (w & Hrun & Hfc & Hsound)].
    - exists w0. done.
    - destruct (frame_sound draws fuel w Hfuel Hsound)
        as (w' & out & Hframe & Hsound' & Hfc').
      exists w'. cbn [Game10Main.frames]. rewrite Hrun, Hframe.
      split; [done|]. split; [lia|done]. }
  destruct Hrun as (w & Hrun & Hfc & Hsound). exists w. done.
Qed.

Lemma game10_main_loop_is_sound_witness :
  (8 < 9)%nat ∧
  ∃ w0 w,
    Game10Main.start_world (λ j, Z.of_nat j) = inr w0 ∧
    Game10Main.frames (λ j, Z.of_nat j) 9 40 w0 = Return w ∧
    Game10Main.frame_counter w = Z.of_nat 40 ∧
    Game10Main.sound w.
Proof.
  split; [lia|].
  apply (game10_main_loop_is_sound (λ j, Z.of_nat j) 9 40). lia.
Defined.

(** ** [Game6.py]: the agent along its straight path *)

Lemma game6_run_moving mazes pos goal (l : list cell) s : ∀ t q r,
  (0 < s)%nat → t = (q * s + r)%nat → (r < s)%nat → (q < length l)%nat →
  (∀ j c, (j < q)%nat → l !! j = Some c → Game6.passable mazes s j c) →
  Game6.run mazes t
    {| Game6.position := pos; Game6.goal := goal; Game6.path := l;
       Game6.fsm := Game6.MOVING; Game6.speed := Z.of_nat s;
       Game6.frame_counter := 0 |} =
  inr {| Game6.position := default pos (last (take q l)); Game6.goal := goal;
         Game6.path := drop q l; Game6.fsm := Game6.MOVING;
         Game6.speed := Z.of_nat s; Game6.frame_counter := Z.of_nat r |}.
Proof.
  induction t as [|t IH]; intros q r Hs Ht Hr Hq Hpass.
  - assert (q = 0 ∧ r = 0)%nat as [-> ->] by nia.
    simpl. by rewrite drop_0.
  - cbn [Game6.run]. destruct r as [|r].
    + destruct q as [|q]; [lia|].
      rewrite (IH q (s - 1)%nat) by (try nia; intros j c Hj; apply Hpass; lia).
      assert (is_Some (l !! q)) as [x Hx] by (apply lookup_lt_is_Some; lia).
      destruct (Hpass q x ltac:(lia) Hx) as (v & Hv & Hv1).
      unfold Game6.step_call in Hv.
      replace t with (q * s + (s - 1))%nat by nia.
      unfold Game6.update.
      cbn [Game6.fsm Game6.frame_counter Game6.speed Game6.path].
      rewrite bool_decide_eq_true_2 by lia.
      rewrite (drop_S _ _ _ Hx), Hv, bool_decide_eq_false_2 by done.
      rewrite (take_S_r _ _ _ Hx), last_snoc. simpl.
      destruct (drop (S q) l) as [|y rest] eqn:Hdrop; [|done].
      apply (f_equal length) in Hdrop. rewrite length_drop in Hdrop.
      simpl in Hdrop. lia.
    + rewrite (IH q r) by (try lia; done).
      unfold Game6.update.
      cbn [Game6.fsm Game6.frame_counter Game6.speed].
      rewrite bool_decide_eq_false_2 by lia. do 2 f_equal. lia.
Qed.

(** X24. The agent of [Game6.py] with a speed of at least one, while
    [MovingBarriers] changes the maze between calls.  It is created MOVING
    on the straight path of [calculate_path].  If each cell of that path,
    at the call that takes it, is inside the maze and not a barrier (1),
    the agent stands on the goal in GOAL_REACHED after [len(path) * speed]
    calls, also when cells of the path are blocked (2): the path was never
    planned around them.  If the [q]-th cell is the first that is a barrier
    at its call, that call, number [q * speed + speed], raises
    [CollisionException]. *)
Theorem game6_npc_walks_or_collides mazes start goal s fuel :
  (0 < s)%nat → (Z.to_nat (manhattan start goal) < fuel)%nat →
  ∃ path npc,
    Game6.calculate_path fuel start goal = Return path ∧
    Game6.new fuel start goal (Z.of_nat s) = Return npc ∧
    Game6.fsm npc = Game6.MOVING ∧
    ((∀ q c, path !! q = Some c → Game6.passable mazes s q c) →
     ∃ npc', Game6.run mazes (length path * s) npc = inr npc' ∧
             Game6.position npc' = goal ∧ Game6.fsm npc' = Game6.GOAL_REACHED) ∧
    (∀ q c, path !! q = Some c →
       (∀ j c', (j < q)%nat → path !! j = Some c' → Game6.passable mazes s j c') →
       maze_at (mazes (Game6.step_call s q)) c = Some 1 →
       Game6.run mazes (q * s + s) npc = inl Game6.CollisionException).
Proof.
  intros Hs Hfuel.
  destruct (walk_spec goal (Z.to_nat (manhattan start goal)) start [] fuel)
    as (rest & Hwalk & _ & _ & Hlast & _);
    [pose proof (manhattan_nonneg start goal); lia|done|].
  unfold Game6.new, Game6.calculate_path. simpl in Hwalk. rewrite Hwalk.
  eexists _, _. split; [done|]. split; [done|]. split; [done|].
  set (path := start :: rest) in *. split.
  - intros Hpass. set (n := length path).
    assert (Hn : (0 < n)%nat) by (unfold n, path; simpl; lia).
    assert (Hstep : (n * s = S ((n - 1) * s + (s - 1)))%nat) by nia.
    rewrite Hstep. cbn [Game6.run].
    rewrite (game6_run_moving mazes start goal path s _ (n - 1) (s - 1))%nat;
      [|done|done|lia|unfold n; lia|intros j c _; apply Hpass].
    assert (is_Some (path !! (n - 1)%nat)) as [x Hx]
      by (apply lookup_lt_is_Some; unfold n; lia).
    assert (x = goal) as ->.
    { rewrite last_lookup in Hlast.
      replace (pred (length path)) with (n - 1)%nat in Hlast by (unfold n; lia).
      congruence. }
    destruct (Hpass _ _ Hx) as (v & Hv & Hv1). unfold Game6.step_call in Hv.
    unfold Game6.update.
    cbn [Game6.fsm Game6.frame_counter Game6.speed Game6.path].
    rewrite bool_decide_eq_true_2 by lia.
    rewrite (drop_S _ _ _ Hx), Hv, bool_decide_eq_false_2 by done.
    replace (drop (S (n - 1)) path) with (@nil cell)
      by (symmetry; apply drop_ge; unfold n; lia).
    eexists. done.
  - intros q c Hc Hbefore Hbarrier.
    replace (q * s + s)%nat with (S (q * s + (s - 1)))%nat by lia.
    cbn [Game6.run].
    rewrite (game6_run_moving mazes start goal path s _ q (s - 1))%nat;
      [|done|done|lia|by eapply lookup_lt_Some|done].
    unfold Game6.step_call in Hbarrier. unfold Game6.update.
    cbn [Game6.fsm Game6.frame_counter Game6.speed Game6.path].
    rewrite bool_decide_eq_true_2 by lia.
    rewrite (drop_S _ _ _ Hc), Hbarrier. done.
Qed.

(** On the maze of the module, left as it is: from [(2, 9)] to [(5, 0)]
    every cell of the path is road and the agent arrives after 13 * 20
    calls; from [(2, 9)] to [(4, 0)] the fourth cell of the path, [(4, 8)],
    is a barrier and call number 80 raises. *)
Lemma game6_npc_walks_or_collides_witness :
  ((0 < 20)%nat ∧
   (Z.to_nat (manhattan Game6.bottom_start Game6.top_goal) < 13)%nat ∧
   ∃ path npc npc',
     Game6.calculate_path 13 Game6.bottom_start Game6.top_goal = Return path ∧
     length path = 13%nat ∧
     (∀ q c, path !! q = Some c → Game6.passable (λ _, Game6.maze) 20 q c) ∧
     Game6.new 13 Game6.bottom_start Game6.top_goal (Z.of_nat 20) = Return npc ∧
     Game6.run (λ _, Game6.maze) (length path * 20) npc = inr npc' ∧
     Game6.position npc' = Game6.top_goal ∧
     Game6.fsm npc' = Game6.GOAL_REACHED) ∧
  ((Z.to_nat (manhattan Game6.bottom_start Game6.barred_goal) < 13)%nat ∧
   ∃ path npc,
     Game6.calculate_path 13 Game6.bottom_start Game6.barred_goal = Return path ∧
     path !! 3%nat = Some (4, 8) ∧
     maze_at Game6.maze (4, 8) = Some 1 ∧
     Game6.new 13 Game6.bottom_start Game6.barred_goal (Z.of_nat 20) = Return npc ∧
     Game6.run (λ _, Game6.maze) (3 * 20 + 20) npc = inl Game6.CollisionException).
Proof.
  split.
  - split; [lia|]. split; [vm_compute; lia|].
    destruct (game6_npc_walks_or_collides (λ _, Game6.maze) Game6.bottom_start
                Game6.top_goal 20 13)
      as (path & npc & Hcalc & Hnew & _ & Harrive & _); [lia|vm_compute; lia|].
    pose proof Hcalc as Hpath. vm_compute in Hpath. injection Hpath as Hpath.
    assert (Hpass : ∀ q c, path !! q = Some c →
                           Game6.passable (λ _, Game6.maze) 20 q c).
    { intros q c Hq. rewrite <- Hpath in Hq.
      do 13 (destruct q as [|q];
             [injection Hq as <-; exists 0; split; [reflexivity|done]|]).
      done. }
    destruct (Harrive Hpass) as (npc' & Hrun & Hpos & Hfsm).
    exists path, npc, npc'.
    split_and!; [exact Hcalc|by rewrite <- Hpath|exact Hpass|exact Hnew|exact Hrun
                |exact Hpos|exact Hfsm].
  - split; [vm_compute; lia|].
    destruct (game6_npc_walks_or_collides (λ _, Game6.maze) Game6.bottom_start
                Game6.barred_goal 20 13)
      as (path & npc & Hcalc & Hnew & _ & _ & Hcollide); [lia|vm_compute; lia|].
    pose proof Hcalc as Hpath. vm_compute in Hpath. injection Hpath as Hpath.
    assert (Hq : path !! 3%nat = Some ((4, 8) : cell)) by (by rewrite <- Hpath).
    exists path, npc.
    split_and!; [exact Hcalc|exact Hq|reflexivity|exact Hnew|].
    apply (Hcollide 3%nat (4, 8) Hq); [|reflexivity].
    intros j c' Hj Hc'. rewrite <- Hpath in Hc'.
    do 3 (destruct j as [|j];
          [injection Hc' as <-; exists 0; split; [reflexivity|done]|]).
    lia.
Defined.

(** ** [Game4.py]: an agent without a route *)

Lemma get_random_goal_spec maze draws fuel : ∀ i new_goal i',
  Game4.get_random_goal maze draws fuel i = Return (new_goal, i') →
  new_goal.2 = 0 ∧ 1 ≤ new_goal.1 ≤ Game.GRID_SIZE maze - 2 ∧
  maze_at maze new_goal = Some 0 ∧ (i < i')%nat.
Proof.
  induction fuel as [|fuel IH]; intros i g i' Hget; [done|].
  cbn [Game4.get_random_goal] in Hget. unfold Barrier.randint in Hget.
  case_bool_decide as Hrange; [|done].
  destruct (maze_at maze _) as [v|] eqn:Hv; [|done].
  case_bool_decide as Hv0.
  - injection Hget as <- <-. subst v. cbn [fst snd].
    pose proof (Z.mod_pos_bound (draws i) (Game.GRID_SIZE maze - 2 - 1 + 1)).
    split_and!; [done|lia|lia|exact Hv|lia].
  - apply IH in Hget as (? & ? & ? & ?). split_and!; [done|lia|lia|done|lia].
Qed.

(** X25. The agent of [Game4.py] on a square maze with no route from start
    to goal: [astar] gives it an empty path, and the first call of [update]
    that finds a new goal puts it on the old goal all the same; the new
    goal is an open cell of the top row, away from the two side columns,
    and the new path is what [astar] plans from the old goal to it. *)
Theorem game4_agent_is_put_on_unreachable_goal maze draws fuel i start goal s
    new_goal i' :
  square maze → ¬ connected maze start goal →
  Game4.get_random_goal maze draws fuel i = Return (new_goal, i') →
  ∃ npc npc',
    Game4.new maze start goal s = Return npc ∧
    Game4.position npc = start ∧ Game4.path npc = [] ∧
    Game4.update maze draws fuel i npc = Return (npc', i') ∧
    Game4.position npc' = goal ∧ Game4.goal npc' = new_goal ∧
    Game.astar maze goal new_goal = Return (Game4.path npc') ∧
    new_goal.2 = 0 ∧ 1 ≤ new_goal.1 ≤ Game.GRID_SIZE maze - 2 ∧
    maze_at maze new_goal = Some 0.
Proof.
  intros Hsq Hno Hget.
  destruct (astar_correct maze start goal Hsq) as (path & Hrun & Hpost).
  destruct Hpost as [[-> _]|(p & _ & Hroute & _)]; [|destruct Hno; by exists p].
  destruct (astar_correct maze goal new_goal Hsq) as (path' & Hrun' & _).
  destruct (get_random_goal_spec _ _ _ _ _ _ Hget) as (Hrow & Hcol & Hopen & _).
  unfold Game4.new. rewrite Hrun. eexists _, _.
  split; [done|]. split; [done|]. split; [done|].
  unfold Game4.update. cbn [Game4.path Game4.goal]. rewrite Hget, Hrun'.
  split; [done|]. done.
Qed.

Lemma game4_agent_is_put_on_unreachable_goal_witness :
  square Game.maze ∧ ¬ connected Game.maze (0, 0) (3, 0) ∧
  Game4.get_random_goal Game.maze (λ _, 0) 1 0 = Return ((1, 0), 1%nat) ∧
  ∃ npc npc',
    Game4.new Game.maze (0, 0) (3, 0) 10 = Return npc ∧
    Game4.position npc = (0, 0) ∧ Game4.path npc = [] ∧
    Game4.update Game.maze (λ _, 0) 1 0 npc = Return (npc', 1%nat) ∧
    Game4.position npc' = (3, 0) ∧ Game4.goal npc' = (1, 0) ∧
    Game.astar Game.maze (3, 0) (1, 0) = Return (Game4.path npc') ∧
    (1, 0).2 = 0 ∧ 1 ≤ (1, 0).1 ≤ Game.GRID_SIZE Game.maze - 2 ∧
    maze_at Game.maze (1, 0) = Some 0.
Proof.
  assert (Hno : ¬ connected Game.maze (0, 0) (3, 0)).
  { intros [p Hp]. destruct p as [|c p]; [done|].
    apply route_end_free in Hp; [|done]. by destruct Hp as [_ ?]. }
  split; [apply game_maze_square|]. split; [exact Hno|].
  split; [reflexivity|].
  apply (game4_agent_is_put_on_unreachable_goal Game.maze (λ _, 0) 1 0 (0, 0) (3, 0) 10
           (1, 0) 1);
    [apply game_maze_square|exact Hno|reflexivity].
Defined.
